(** * LiquidSky project scripts: a shallow embedding and its properties

    The repository is a set of Python scripts that edit an Xcode
    [project.pbxproj] file (and Swift sources) by text surgery: regular
    expression substitution, substring guards and string splicing.  The
    embedding below follows the scripts function by function:

    - Python [str] values are lists of Unicode code points;
    - [re.sub] is a backtracking matcher over a small regex syntax that
      covers every pattern the scripts use;
    - [uuid.uuid4] takes its 128 random bits as an explicit argument;
    - writing a file is a sequence of primitive disk operations.

    Part I holds the definitions, Part II the lemmas and theorems. *)

From Stdlib Require Import String Ascii List NArith Bool Arith Lia.
Import ListNotations.

(* ===================================================================== *)
(** * Part I: embedding *)
(* ===================================================================== *)

(** ** Python strings *)

Module PyStr.

Local Open Scope N_scope.

(** A character is a Unicode code point, a [str] a sequence of them. *)
Definition char := N.
Definition str := list char.

(** String literals of the scripts (all of them are ASCII). *)
Definition lit (s : string) : str :=
  List.map N_of_ascii (list_ascii_of_string s).

Arguments lit s : simpl never.

Definition nl : str := [10].
Definition tab : str := [9].
Definition dq : str := [34].

Definition char_eqb (a b : char) : bool := N.eqb a b.

Fixpoint str_eqb (a b : str) : bool :=
  match a, b with
  | [], [] => true
  | x :: a', y :: b' => char_eqb x y && str_eqb a' b'
  | _, _ => false
  end.

(** [str.isspace] on one character, which is also what [\s] matches in
    a [str] pattern: the ASCII controls 9-13 and 28-31, the space, and
    the Unicode separators. *)
Definition isspace (c : char) : bool :=
  ((9 <=? c) && (c <=? 13)) || ((28 <=? c) && (c <=? 32))
  || (c =? 133) || (c =? 160) || (c =? 5760)
  || ((8192 <=? c) && (c <=? 8202))
  || (c =? 8232) || (c =? 8233) || (c =? 8239) || (c =? 8287)
  || (c =? 12288).

Fixpoint lstrip (s : str) : str :=
  match s with
  | c :: s' => if isspace c then lstrip s' else s
  | [] => []
  end.

Definition rstrip (s : str) : str := rev (lstrip (rev s)).

(** [s.strip()] *)
Definition strip (s : str) : str := rstrip (lstrip s).

(** [s.startswith(p)] *)
Fixpoint startswith (p s : str) : bool :=
  match p, s with
  | [], _ => true
  | x :: p', y :: s' => char_eqb x y && startswith p' s'
  | _ :: _, [] => false
  end.

(** [s[n:]] and [s[:n]] for [0 <= n] *)
Definition slice_from (n : nat) (s : str) : str := skipn n s.
Definition slice_to (n : nat) (s : str) : str := firstn n s.

(** [needle in hay] *)
Fixpoint contains (needle hay : str) : bool :=
  startswith needle hay
  || match hay with
     | [] => false
     | _ :: hay' => contains needle hay'
     end.

(** [hay.find(needle)]; [None] stands for Python's [-1]. *)
Fixpoint find (needle hay : str) : option nat :=
  if startswith needle hay then Some O
  else match hay with
       | [] => None
       | _ :: hay' => option_map S (find needle hay')
       end.

(** [s.split(sep)] for a separator of one character *)
Fixpoint split (sep : char) (s : str) : list str :=
  match s with
  | [] => [[]]
  | c :: s' =>
      if char_eqb c sep then [] :: split sep s'
      else match split sep s' with
           | l :: ls => (c :: l) :: ls
           | [] => [[c]]
           end
  end.

(** [sep.join(parts)] *)
Fixpoint join (sep : str) (parts : list str) : str :=
  match parts with
  | [] => []
  | [p] => p
  | p :: ps => p ++ sep ++ join sep ps
  end.

(** [x in xs] for a set or list of strings *)
Definition mem (x : str) (xs : list str) : bool := existsb (str_eqb x) xs.

(** [s.replace(old, new)] for a pattern [old] of one character *)
Fixpoint replace1 (old : char) (new : str) (s : str) : str :=
  match s with
  | [] => []
  | c :: s' =>
      if char_eqb c old then new ++ replace1 old new s'
      else c :: replace1 old new s'
  end.

(** [s.upper()] on the ASCII letters (the only ones it is applied to) *)
Definition upper_char (c : char) : char :=
  if (97 <=? c) && (c <=? 122) then c - 32 else c.
Definition upper (s : str) : str := List.map upper_char s.

End PyStr.
Import PyStr.

(** ** fix_module_imports.py *)

Module FixModuleImports.

Definition internal_modules : list str :=
  List.map lit
    ["AuthUI"; "ChatUI"; "ComposerUI"; "DesignSystem"; "FeedUI";
     "MediaUI"; "NotificationsUI"; "PostUI"; "ProfileUI"; "SettingsUI";
     "Client"; "Models"; "User"; "Destinations"]%string.

(** The test made on one line inside the loop: the line is dropped
    ([continue]) when its stripped form starts with ["import "] and the
    rest, stripped again, names an internal module. *)
Definition is_internal_import (line : str) : bool :=
  let stripped := strip line in
  if startswith (lit "import ") stripped then
    let module_name := strip (slice_from 7 stripped) in
    mem module_name internal_modules
  else false.

(** The loop over [lines]: the state is [filtered_lines] and the
    counter [imports_removed]. *)
Fixpoint filter_loop (lines : list str) (filtered_lines : list str)
         (imports_removed : nat) : list str * nat :=
  match lines with
  | [] => (filtered_lines, imports_removed)
  | line :: rest =>
      if is_internal_import line
      then filter_loop rest filtered_lines (S imports_removed)
      else filter_loop rest (filtered_lines ++ [line]) imports_removed
  end.

(** [new_content] computed from the [content] of one Swift file. *)
Definition new_content (content : str) : str :=
  let lines := split 10%N content in
  let '(filtered_lines, _) := filter_loop lines [] 0 in
  join nl filtered_lines.

(** What the file holds after the script has treated it: it is written
    back only when the content changed. *)
Definition fix_file (content : str) : str :=
  let new := new_content content in
  if negb (str_eqb new content) then new else content.

End FixModuleImports.

(** ** Identifiers: [generate_uuid] (modify_horizon_project.py,
       convert_to_xcodeproj.py) *)

Module Uuid.

Local Open Scope N_scope.

(** [uuid.uuid4()] builds a UUID from 16 random bytes and then forces
    the variant and version fields.  [r] is the integer value of the
    random bytes. *)
Definition uuid4_int (r : N) : N :=
  let i := r mod 2 ^ 128 in
  let i := N.ldiff i (N.shiftl 49152 48) in     (* int &= ~(0xc000 << 48) *)
  let i := N.lor i (N.shiftl 32768 48) in       (* int |= 0x8000 << 48 *)
  let i := N.ldiff i (N.shiftl 61440 64) in     (* int &= ~(0xf000 << 64) *)
  N.lor i (N.shiftl 4 76).                      (* int |= version << 76 *)

Definition hex_digit (d : N) : char :=
  if d <? 10 then 48 + d else 87 + d.

(** The [n] low hexadecimal digits of [i], most significant first. *)
Fixpoint hex_digits (n : nat) (i : N) : str :=
  match n with
  | O => []
  | S k => hex_digits k (N.shiftr i 4) ++ [hex_digit (N.land i 15)]
  end.

(** [str(u)] for a UUID of integer value [i]: ['%032x' % i], cut as
    8-4-4-4-12 and joined with dashes. *)
Definition uuid_str (i : N) : str :=
  let hex := hex_digits 32 i in
  slice_to 8 hex ++ lit "-" ++
  slice_to 4 (slice_from 8 hex) ++ lit "-" ++
  slice_to 4 (slice_from 12 hex) ++ lit "-" ++
  slice_to 4 (slice_from 16 hex) ++ lit "-" ++
  slice_from 20 hex.

(** [str(uuid.uuid4()).upper().replace('-', '')] *)
Definition generate_uuid_of (r : N) : str :=
  replace1 45 [] (upper (uuid_str (uuid4_int r))).

(** A script draws its identifiers one after the other.  The random
    source is a sequence [rnd]; the state is the number of draws made
    so far. *)
Definition gen (A : Type) : Type := nat -> A * nat.

Definition ret {A} (a : A) : gen A := fun k => (a, k).

Definition bind {A B} (m : gen A) (f : A -> gen B) : gen B :=
  fun k => let '(a, k') := m k in f a k'.

Definition generate_uuid (rnd : nat -> N) : gen str :=
  fun k => (generate_uuid_of (rnd k), S k).

(** The identifiers of one session: the first [n] draws. *)
Fixpoint session (rnd : nat -> N) (n : nat) : gen (list str) :=
  match n with
  | O => ret []
  | S n' =>
      bind (generate_uuid rnd) (fun u =>
      bind (session rnd n') (fun us => ret (u :: us)))
  end.

End Uuid.

(** ** Regular expressions: [re.sub] *)

Module Re.

(** The patterns of the scripts are built from literal text, a starred
    character class (greedy [*] or lazy [*?]), sequencing and capturing
    groups. *)
Inductive regex : Type :=
| Lit (s : str)
| Star (greedy : bool) (cls : char -> bool)
| Seq (r1 r2 : regex)
| Group (r : regex).

Definition any_char (c : char) : bool := true.          (* [\s\S] *)
Definition not_rbrace (c : char) : bool := negb (char_eqb c 125%N). (* [^}] *)
Definition backslash (c : char) : bool := char_eqb c 92%N.

Section Matcher.

Variable R : Type.

(** [cls*?]: try the continuation first, take one more character
    only when it fails. *)
Fixpoint star_lazy (cls : char -> bool) (s : str)
         (k : str -> option R) : option R :=
  match k s with
  | Some r => Some r
  | None =>
      match s with
      | c :: s' => if cls c then star_lazy cls s' k else None
      | [] => None
      end
  end.

(** [cls*]: take as many characters as possible, give them back one
    by one while the continuation fails. *)
Fixpoint star_greedy (cls : char -> bool) (s : str)
         (k : str -> option R) : option R :=
  match s with
  | c :: s' =>
      if cls c then
        match star_greedy cls s' k with
        | Some r => Some r
        | None => k s
        end
      else k s
  | [] => k s
  end.

Fixpoint set_nth (i : nat) (x : str) (l : list str) : list str :=
  match l, i with
  | [], _ => []
  | _ :: l', O => x :: l'
  | y :: l', S i' => y :: set_nth i' x l'
  end.

(** Backtracking match of [r] at the head of [s].  [caps] holds the
    text of the groups opened so far, in the order of their opening
    parentheses; the continuation receives the rest of the input. *)
Fixpoint run (r : regex) (s : str) (caps : list str)
         (k : str -> list str -> option R) : option R :=
  match r with
  | Lit l =>
      if startswith l s then k (skipn (length l) s) caps else None
  | Star true cls => star_greedy cls s (fun s' => k s' caps)
  | Star false cls => star_lazy cls s (fun s' => k s' caps)
  | Seq r1 r2 => run r1 s caps (fun s' caps' => run r2 s' caps' k)
  | Group r1 =>
      let i := length caps in
      run r1 s (caps ++ [[]])
          (fun s' caps' =>
             k s' (set_nth i (firstn (length s - length s') s) caps'))
  end.

End Matcher.

Arguments star_lazy {R} cls s k.
Arguments star_greedy {R} cls s k.
Arguments run {R} r s caps k.

(** [pattern.match(s)]: the groups and the text left after the match. *)
Definition rmatch (r : regex) (s : str) : option (list str * str) :=
  run r s [] (fun s' caps => Some (caps, s')).

(** [match.group(n)] for [n >= 1] *)
Definition group (n : nat) (caps : list str) : str := nth (n - 1) caps [].

(** [re.sub(r, repl, s)], scanning [s] from left to right.  [skip]
    counts the characters of the current match still to be passed
    over.  An empty match is replaced and the scan moves one character
    on; no pattern of the scripts can match the empty string. *)
Fixpoint sub_from (r : regex) (repl : list str -> str) (skip : nat)
         (s : str) : str :=
  match s with
  | [] =>
      match skip with
      | O => match rmatch r [] with
             | Some (caps, _) => repl caps
             | None => []
             end
      | S _ => []
      end
  | c :: s' =>
      match skip with
      | S k => sub_from r repl k s'
      | O =>
          match rmatch r s with
          | Some (caps, rest) =>
              match length s - length rest with
              | O => repl caps ++ c :: sub_from r repl 0 s'
              | S k => repl caps ++ sub_from r repl k s'
              end
          | None => c :: sub_from r repl 0 s'
          end
      end
  end.

Definition sub (r : regex) (repl : list str -> str) (s : str) : str :=
  sub_from r repl 0 s.

End Re.

(** ** Disk operations behind [with open(path, 'w') as f: f.write(data)] *)

Module Disk.

Definition path := string.

(** The content of each file; [None] when the file does not exist. *)
Definition disk := path -> option str.

Definition update (d : disk) (p : path) (v : str) : disk :=
  fun q => if String.eqb q p then Some v else d q.

(** Opening in mode ['w'] creates the file or truncates it to length
    zero; written characters reach the file one after the other (in
    whatever blocks the buffering chooses); closing changes nothing
    more. *)
Inductive op : Type :=
| OpenW (p : path)
| WriteChar (p : path) (c : char)
| Close (p : path).

Definition step (o : op) (d : disk) : disk :=
  match o with
  | OpenW p => update d p []
  | WriteChar p c =>
      match d p with
      | Some old => update d p (old ++ [c])
      | None => update d p [c]
      end
  | Close _ => d
  end.

Fixpoint exec (ops : list op) (d : disk) : disk :=
  match ops with
  | [] => d
  | o :: ops' => exec ops' (step o d)
  end.

(** [with open(p, 'w') as f: f.write(data)] *)
Definition write_file (p : path) (data : str) : list op :=
  OpenW p :: List.map (WriteChar p) data ++ [Close p].

(** A script that reads [p], computes [transform content] and writes
    it back to [p]: the operations it performs on the disk.  Reading a
    missing file raises before anything is written. *)
Definition read_modify_write (p : path) (transform : str -> str)
           (d : disk) : option (list op) :=
  match d p with
  | Some content => Some (write_file p (transform content))
  | None => None
  end.

(** The disk when the run stops after [n] operations (a crash, a kill,
    an I/O error on the next operation). *)
Definition interrupted (n : nat) (ops : list op) (d : disk) : disk :=
  exec (firstn n ops) d.

End Disk.

(** Concatenation of the pieces of a long literal. *)
Definition txt (parts : list str) : str := List.concat parts.

(** ** add_frameworks.py *)

Module AddFrameworks.

Import Re.

Definition project_path : Disk.path :=
  "/Users/callummatthews1/Horizon/Horizon.xcodeproj/project.pbxproj"%string.

(** [(1D1A9BBB2E761986002B8F85 /\* Frameworks \*/ = \{[\s\S]*?files = \()(\s*\);[\s\S]*?\};)] *)
Definition frameworks_pattern : regex :=
  Seq (Group (Seq (Lit (lit "1D1A9BBB2E761986002B8F85 /* Frameworks */ = {"))
             (Seq (Star false any_char) (Lit (lit "files = (")))))
      (Group (Seq (Star true isspace)
             (Seq (Lit (lit ");"))
             (Seq (Star false any_char) (Lit (lit "};")))))).

Definition framework_files : list str :=
  [txt [tab; tab; tab; tab; lit "1D60000F22D4FAF6008BF43F /* UIKit.framework in Frameworks */,"];
   txt [tab; tab; tab; tab; lit "1D60001022D4FAF6008BF43F /* Foundation.framework in Frameworks */,"];
   txt [tab; tab; tab; tab; lit "1D60001122D4FAF6008BF43F /* SwiftUI.framework in Frameworks */,"];
   txt [tab; tab; tab; tab; lit "1D60001222D4FAF6008BF43F /* Combine.framework in Frameworks */,"];
   txt [tab; tab; tab; tab; lit "1D60001322D4FAF6008BF43F /* CoreData.framework in Frameworks */,"]].

Definition package_products : list str :=
  [txt [tab; tab; tab; tab; lit "1D60001422D4FAF6008BF43F /* ATProtoKit in Frameworks */,"];
   txt [tab; tab; tab; tab; lit "1D60001522D4FAF6008BF43F /* KeychainSwift in Frameworks */,"];
   txt [tab; tab; tab; tab; lit "1D60001622D4FAF6008BF43F /* AppRouter in Frameworks */,"];
   txt [tab; tab; tab; tab; lit "1D60001722D4FAF6008BF43F /* Nuke in Frameworks */,"];
   txt [tab; tab; tab; tab; lit "1D60001822D4FAF6008BF43F /* NukeUI in Frameworks */,"];
   txt [tab; tab; tab; tab; lit "1D60001922D4FAF6008BF43F /* ViewInspector in Frameworks */,"];
   txt [tab; tab; tab; tab; lit "1D60001A22D4FAF6008BF43F /* AcknowList in Frameworks */,"]].

Definition buildfile_entries : str :=
  txt
    [lit "/* UIKit.framework */"; nl;
     tab; tab; lit "1D60000F22D4FAF6008BF43F /* UIKit.framework in Frameworks */ = {isa = PBXBuildFile; fileRef = 1D60000E22D4FAF6008BF43F /* UIKit.framework */; };"; nl;
     lit "/* Foundation.framework */"; nl;
     tab; tab; lit "1D60001022D4FAF6008BF43F /* Foundation.framework in Frameworks */ = {isa = PBXBuildFile; fileRef = 1D60000D22D4FAF6008BF43F /* Foundation.framework */; };"; nl;
     lit "/* SwiftUI.framework */"; nl;
     tab; tab; lit "1D60001122D4FAF6008BF43F /* SwiftUI.framework in Frameworks */ = {isa = PBXBuildFile; fileRef = 1D60000C22D4FAF6008BF43F /* SwiftUI.framework */; };"; nl;
     lit "/* Combine.framework */"; nl;
     tab; tab; lit "1D60001222D4FAF6008BF43F /* Combine.framework in Frameworks */ = {isa = PBXBuildFile; fileRef = 1D60000B22D4FAF6008BF43F /* Combine.framework */; };"; nl;
     lit "/* CoreData.framework */"; nl;
     tab; tab; lit "1D60001322D4FAF6008BF43F /* CoreData.framework in Frameworks */ = {isa = PBXBuildFile; fileRef = 1D60000A22D4FAF6008BF43F /* CoreData.framework */; };"; nl;
     lit "/* ATProtoKit */"; nl;
     tab; tab; lit "1D60001422D4FAF6008BF43F /* ATProtoKit in Frameworks */ = {isa = PBXBuildFile; productRef = 1D60002022D4FAF6008BF43F /* ATProtoKit */; };"; nl;
     lit "/* KeychainSwift */"; nl;
     tab; tab; lit "1D60001522D4FAF6008BF43F /* KeychainSwift in Frameworks */ = {isa = PBXBuildFile; productRef = 1D60002122D4FAF6008BF43F /* KeychainSwift */; };"; nl;
     lit "/* AppRouter */"; nl;
     tab; tab; lit "1D60001622D4FAF6008BF43F /* AppRouter in Frameworks */ = {isa = PBXBuildFile; productRef = 1D60002222D4FAF6008BF43F /* AppRouter */; };"; nl;
     lit "/* Nuke */"; nl;
     tab; tab; lit "1D60001722D4FAF6008BF43F /* Nuke in Frameworks */ = {isa = PBXBuildFile; productRef = 1D60002322D4FAF6008BF43F /* Nuke */; };"; nl;
     lit "/* NukeUI */"; nl;
     tab; tab; lit "1D60001822D4FAF6008BF43F /* NukeUI in Frameworks */ = {isa = PBXBuildFile; productRef = 1D60002422D4FAF6008BF43F /* NukeUI */; };"; nl;
     lit "/* ViewInspector */"; nl;
     tab; tab; lit "1D60001922D4FAF6008BF43F /* ViewInspector in Frameworks */ = {isa = PBXBuildFile; productRef = 1D60002522D4FAF6008BF43F /* ViewInspector */; };"; nl;
     lit "/* AcknowList */"; nl;
     tab; tab; lit "1D60001A22D4FAF6008BF43F /* AcknowList in Frameworks */ = {isa = PBXBuildFile; productRef = 1D60002622D4FAF6008BF43F /* AcknowList */; };"; nl].

Definition replace_frameworks (caps : list str) : str :=
  let prefix := group 1 caps in
  let suffix := group 2 caps in
  let framework_section := join nl framework_files in
  let package_section := join nl package_products in
  prefix ++ framework_section ++ nl ++ package_section ++ suffix.

(** [(/\* Begin PBXBuildFile section \*/\n)] *)
Definition pbxbuildfile_pattern : regex :=
  Group (Lit (lit "/* Begin PBXBuildFile section */" ++ nl)).

(** The text computed from the content of the project file. *)
Definition new_content (content : str) : str :=
  let new_content := sub frameworks_pattern replace_frameworks content in
  if negb (contains (lit "1D60000F22D4FAF6008BF43F") new_content) then
    sub pbxbuildfile_pattern
        (fun caps => group 1 caps ++ buildfile_entries) new_content
  else new_content.

Definition add_framework_dependencies (d : Disk.disk)
  : option (list Disk.op) :=
  Disk.read_modify_write project_path new_content d.

End AddFrameworks.

(** ** complete_framework_fix.py *)

Module CompleteFrameworkFix.

Import Re.

Definition project_path : Disk.path :=
  "/Users/callummatthews1/Horizon/Horizon.xcodeproj/project.pbxproj"%string.

Definition buildfile_entries : str :=
  txt
    [lit "/* UIKit.framework */"; nl;
     tab; tab; lit "1D60000F22D4FAF6008BF43F /* UIKit.framework in Frameworks */ = {isa = PBXBuildFile; fileRef = 1D60000E22D4FAF6008BF43F /* UIKit.framework */; };"; nl;
     lit "/* Foundation.framework */"; nl;
     tab; tab; lit "1D60001022D4FAF6008BF43F /* Foundation.framework in Frameworks */ = {isa = PBXBuildFile; fileRef = 1D60000D22D4FAF6008BF43F /* Foundation.framework */; };"; nl;
     lit "/* SwiftUI.framework */"; nl;
     tab; tab; lit "1D60001122D4FAF6008BF43F /* SwiftUI.framework in Frameworks */ = {isa = PBXBuildFile; fileRef = 1D60000C22D4FAF6008BF43F /* SwiftUI.framework */; };"; nl;
     lit "/* Combine.framework */"; nl;
     tab; tab; lit "1D60001222D4FAF6008BF43F /* Combine.framework in Frameworks */ = {isa = PBXBuildFile; fileRef = 1D60000B22D4FAF6008BF43F /* Combine.framework */; };"; nl;
     lit "/* CoreData.framework */"; nl;
     tab; tab; lit "1D60001322D4FAF6008BF43F /* CoreData.framework in Frameworks */ = {isa = PBXBuildFile; fileRef = 1D60000A22D4FAF6008BF43F /* CoreData.framework */; };"; nl;
     lit "/* ATProtoKit */"; nl;
     tab; tab; lit "1D60001422D4FAF6008BF43F /* ATProtoKit in Frameworks */ = {isa = PBXBuildFile; productRef = 1D60002022D4FAF6008BF43F /* ATProtoKit */; };"; nl;
     lit "/* KeychainSwift */"; nl;
     tab; tab; lit "1D60001522D4FAF6008BF43F /* KeychainSwift in Frameworks */ = {isa = PBXBuildFile; productRef = 1D60002122D4FAF6008BF43F /* KeychainSwift */; };"; nl;
     lit "/* AppRouter */"; nl;
     tab; tab; lit "1D60001622D4FAF6008BF43F /* AppRouter in Frameworks */ = {isa = PBXBuildFile; productRef = 1D60002222D4FAF6008BF43F /* AppRouter */; };"; nl;
     lit "/* Nuke */"; nl;
     tab; tab; lit "1D60001722D4FAF6008BF43F /* Nuke in Frameworks */ = {isa = PBXBuildFile; productRef = 1D60002322D4FAF6008BF43F /* Nuke */; };"; nl;
     lit "/* NukeUI */"; nl;
     tab; tab; lit "1D60001822D4FAF6008BF43F /* NukeUI in Frameworks */ = {isa = PBXBuildFile; productRef = 1D60002422D4FAF6008BF43F /* NukeUI */; };"; nl;
     lit "/* ViewInspector */"; nl;
     tab; tab; lit "1D60001922D4FAF6008BF43F /* ViewInspector in Frameworks */ = {isa = PBXBuildFile; productRef = 1D60002522D4FAF6008BF43F /* ViewInspector */; };"; nl;
     lit "/* AcknowList */"; nl;
     tab; tab; lit "1D60001A22D4FAF6008BF43F /* AcknowList in Frameworks */ = {isa = PBXBuildFile; productRef = 1D60002622D4FAF6008BF43F /* AcknowList */; };"; nl;
     nl].

Definition fileref_entries : str :=
  txt
    [lit "/* UIKit.framework */"; nl;
     tab; tab; lit "1D60000E22D4FAF6008BF43F /* UIKit.framework */ = {isa = PBXFileReference; lastKnownFileType = wrapper.framework; name = UIKit.framework; path = Platforms/iPhoneOS.platform/Developer/SDKs/iPhoneOS18.6.sdk/System/Library/Frameworks/UIKit.framework; sourceTree = DEVELOPER_DIR; };"; nl;
     lit "/* Foundation.framework */"; nl;
     tab; tab; lit "1D60000D22D4FAF6008BF43F /* Foundation.framework */ = {isa = PBXFileReference; lastKnownFileType = wrapper.framework; name = Foundation.framework; path = Platforms/iPhoneOS.platform/Developer/SDKs/iPhoneOS18.6.sdk/System/Library/Frameworks/Foundation.framework; sourceTree = DEVELOPER_DIR; };"; nl;
     lit "/* SwiftUI.framework */"; nl;
     tab; tab; lit "1D60000C22D4FAF6008BF43F /* SwiftUI.framework */ = {isa = PBXFileReference; lastKnownFileType = wrapper.framework; name = SwiftUI.framework; path = Platforms/iPhoneOS.platform/Developer/SDKs/iPhoneOS18.6.sdk/System/Library/Frameworks/SwiftUI.framework; sourceTree = DEVELOPER_DIR; };"; nl;
     lit "/* Combine.framework */"; nl;
     tab; tab; lit "1D60000B22D4FAF6008BF43F /* Combine.framework */ = {isa = PBXFileReference; lastKnownFileType = wrapper.framework; name = Combine.framework; path = Platforms/iPhoneOS.platform/Developer/SDKs/iPhoneOS18.6.sdk/System/Library/Frameworks/Combine.framework; sourceTree = DEVELOPER_DIR; };"; nl;
     lit "/* CoreData.framework */"; nl;
     tab; tab; lit "1D60000A22D4FAF6008BF43F /* CoreData.framework */ = {isa = PBXFileReference; lastKnownFileType = wrapper.framework; name = CoreData.framework; path = Platforms/iPhoneOS.platform/Developer/SDKs/iPhoneOS18.6.sdk/System/Library/Frameworks/CoreData.framework; sourceTree = DEVELOPER_DIR; };"; nl;
     nl].

Definition package_refs : str :=
  txt
    [lit "/* ATProtoKit */"; nl;
     tab; tab; lit "1D60001B22D4FAF6008BF43F /* XCRemoteSwiftPackageReference "; dq; lit "ATProtoKit"; dq; lit " */ = {isa = XCRemoteSwiftPackageReference; repositoryURL = "; dq; lit "https://github.com/MasterJ93/ATProtoKit"; dq; lit "; requirement = {kind = upToNextMajorVersion; minimumVersion = "; dq; lit "0.31.2"; dq; lit ";}; };"; nl;
     lit "/* KeychainSwift */"; nl;
     tab; tab; lit "1D60001C22D4FAF6008BF43F /* XCRemoteSwiftPackageReference "; dq; lit "KeychainSwift"; dq; lit " */ = {isa = XCRemoteSwiftPackageReference; repositoryURL = "; dq; lit "https://github.com/evgenyneu/keychain-swift"; dq; lit "; requirement = {kind = upToNextMajorVersion; minimumVersion = "; dq; lit "24.0.0"; dq; lit ";}; };"; nl;
     lit "/* AppRouter */"; nl;
     tab; tab; lit "1D60001D22D4FAF6008BF43F /* XCRemoteSwiftPackageReference "; dq; lit "AppRouter"; dq; lit " */ = {isa = XCRemoteSwiftPackageReference; repositoryURL = "; dq; lit "https://github.com/Dimillian/AppRouter.git"; dq; lit "; requirement = {kind = upToNextMajorVersion; minimumVersion = "; dq; lit "1.0.2"; dq; lit ";}; };"; nl;
     lit "/* Nuke */"; nl;
     tab; tab; lit "1D60001E22D4FAF6008BF43F /* XCRemoteSwiftPackageReference "; dq; lit "Nuke"; dq; lit " */ = {isa = XCRemoteSwiftPackageReference; repositoryURL = "; dq; lit "https://github.com/kean/Nuke"; dq; lit "; requirement = {kind = upToNextMajorVersion; minimumVersion = "; dq; lit "12.8.0"; dq; lit ";}; };"; nl;
     lit "/* NukeUI */"; nl;
     tab; tab; lit "1D60001F22D4FAF6008BF43F /* XCRemoteSwiftPackageReference "; dq; lit "NukeUI"; dq; lit " */ = {isa = XCRemoteSwiftPackageReference; repositoryURL = "; dq; lit "https://github.com/kean/Nuke"; dq; lit "; requirement = {kind = upToNextMajorVersion; minimumVersion = "; dq; lit "12.8.0"; dq; lit ";}; };"; nl;
     lit "/* ViewInspector */"; nl;
     tab; tab; lit "1D60002022D4FAF6008BF43F /* XCRemoteSwiftPackageReference "; dq; lit "ViewInspector"; dq; lit " */ = {isa = XCRemoteSwiftPackageReference; repositoryURL = "; dq; lit "https://github.com/nalexn/ViewInspector"; dq; lit "; requirement = {kind = upToNextMajorVersion; minimumVersion = "; dq; lit "0.10.1"; dq; lit ";}; };"; nl;
     lit "/* AcknowList */"; nl;
     tab; tab; lit "1D60002122D4FAF6008BF43F /* XCRemoteSwiftPackageReference "; dq; lit "AcknowList"; dq; lit " */ = {isa = XCRemoteSwiftPackageReference; repositoryURL = "; dq; lit "https://github.com/vtourraine/AcknowList"; dq; lit "; requirement = {kind = upToNextMajorVersion; minimumVersion = "; dq; lit "3.3.0"; dq; lit ";}; };"; nl;
     nl].

Definition product_refs : str :=
  txt
    [lit "/* ATProtoKit */"; nl;
     tab; tab; lit "1D60002222D4FAF6008BF43F /* ATProtoKit */ = {isa = XCRemoteSwiftPackageProduct; productName = ATProtoKit; };"; nl;
     lit "/* KeychainSwift */"; nl;
     tab; tab; lit "1D60002322D4FAF6008BF43F /* KeychainSwift */ = {isa = XCRemoteSwiftPackageProduct; productName = KeychainSwift; };"; nl;
     lit "/* AppRouter */"; nl;
     tab; tab; lit "1D60002422D4FAF6008BF43F /* AppRouter */ = {isa = XCRemoteSwiftPackageProduct; productName = AppRouter; };"; nl;
     lit "/* Nuke */"; nl;
     tab; tab; lit "1D60002522D4FAF6008BF43F /* Nuke */ = {isa = XCRemoteSwiftPackageProduct; productName = Nuke; };"; nl;
     lit "/* NukeUI */"; nl;
     tab; tab; lit "1D60002622D4FAF6008BF43F /* NukeUI */ = {isa = XCRemoteSwiftPackageProduct; productName = NukeUI; };"; nl;
     lit "/* ViewInspector */"; nl;
     tab; tab; lit "1D60002722D4FAF6008BF43F /* ViewInspector */ = {isa = XCRemoteSwiftPackageProduct; productName = ViewInspector; };"; nl;
     lit "/* AcknowList */"; nl;
     tab; tab; lit "1D60002822D4FAF6008BF43F /* AcknowList */ = {isa = XCRemoteSwiftPackageProduct; productName = AcknowList; };"; nl;
     nl].

Definition products_group : str :=
  txt
    [lit "/* Products */"; nl;
     tab; tab; lit "1D60002922D4FAF6008BF43F /* Products */ = {"; nl;
     tab; tab; tab; lit "isa = PBXGroup;"; nl;
     tab; tab; tab; lit "children = ("; nl;
     lit "{product_refs}"; nl;
     tab; tab; tab; lit ");"; nl;
     tab; tab; tab; lit "name = Products;"; nl;
     tab; tab; tab; lit "sourceTree = "; dq; lit "<group>"; dq; lit ";"; nl;
     tab; tab; lit "};"; nl].

(** [(/\* Begin PBXBuildFile section \*/\n)] *)
Definition buildfile_pattern : regex :=
  Group (Lit (lit "/* Begin PBXBuildFile section */" ++ nl)).

(** [(/\* Begin PBXFileReference section \*/\n)] *)
Definition fileref_pattern : regex :=
  Group (Lit (lit "/* Begin PBXFileReference section */" ++ nl)).

(** [(rootObject = 1D1A9BB62E761986002B8F85 /\* Project object \*/;[\s\S]*?)\}] *)
Definition project_pattern : regex :=
  Seq (Group (Seq (Lit (lit "rootObject = 1D1A9BB62E761986002B8F85 /* Project object */;"))
                  (Star false any_char)))
      (Lit (lit "}")).

Definition add_packages (caps : list str) : str :=
  let project_content := group 1 caps in
  project_content ++ lit "packageReferences = (" ++ nl ++ package_refs
    ++ lit ");" ++ nl ++ tab ++ lit "}".

(** [(1D1A9BB52E761986002B8F85 = \{[\s\S]*?children = \()(\s*\);)] *)
Definition group_pattern : regex :=
  Seq (Group (Seq (Lit (lit "1D1A9BB52E761986002B8F85 = {"))
             (Seq (Star false any_char) (Lit (lit "children = (")))))
      (Group (Seq (Star true isspace) (Lit (lit ");")))).

Definition add_products (caps : list str) : str :=
  let prefix := group 1 caps in
  let suffix := group 2 caps in
  prefix ++ lit "1D60002922D4FAF6008BF43F /* Products */," ++ nl ++ suffix.

(** [(sourceTree = "<group>";\n\t\};\n)] *)
Definition main_group_pattern : regex :=
  Group (Lit (lit "sourceTree = " ++ dq ++ lit "<group>" ++ dq ++ lit ";"
                ++ nl ++ tab ++ lit "};" ++ nl)).

(** The four guarded steps, in the order of the script. *)

(** Add PBXBuildFile entries if missing *)
Definition add_buildfile_entries (content : str) : str :=
  if negb (contains (lit "1D60000F22D4FAF6008BF43F") content) then
    sub buildfile_pattern (fun caps => group 1 caps ++ buildfile_entries)
        content
  else content.

(** Add PBXFileReference entries if missing *)
Definition add_fileref_entries (content : str) : str :=
  if negb (contains (lit "1D60000E22D4FAF6008BF43F /* UIKit.framework */")
                    content) then
    sub fileref_pattern (fun caps => group 1 caps ++ fileref_entries)
        content
  else content.

(** Add package references if missing *)
Definition add_package_references (content : str) : str :=
  if negb (contains (lit "XCRemoteSwiftPackageReference") content) then
    sub project_pattern add_packages content
  else content.

(** Add product references if missing *)
Definition add_product_references (content : str) : str :=
  if negb (contains (lit "XCRemoteSwiftPackageProduct") content) then
    let content := sub group_pattern add_products content in
    if negb (contains (lit "1D60002922D4FAF6008BF43F /* Products */")
                      content) then
      sub main_group_pattern (fun caps => group 1 caps ++ products_group)
          content
    else content
  else content.

(** The text computed from the content of the project file. *)
Definition new_content (content : str) : str :=
  add_product_references
    (add_package_references
       (add_fileref_entries
          (add_buildfile_entries content))).

Definition complete_framework_fix (d : Disk.disk)
  : option (list Disk.op) :=
  Disk.read_modify_write project_path new_content d.

End CompleteFrameworkFix.

(** ** modify_horizon_project.py *)

Module ModifyHorizonProject.

Import Re Uuid.

Definition project_file : Disk.path :=
  "/Users/callummatthews1/Horizon/Horizon.xcodeproj/project.pbxproj"%string.

Record package : Type :=
  { name : str; url : str; version : str }.

Definition packages : list package :=
  [ {| name := lit "ATProtoKit";
       url := lit "https://github.com/MasterJ93/ATProtoKit";
       version := lit "0.31.2" |};
    {| name := lit "keychain-swift";
       url := lit "https://github.com/evgenyneu/keychain-swift";
       version := lit "24.0.0" |};
    {| name := lit "AppRouter";
       url := lit "https://github.com/Dimillian/AppRouter.git";
       version := lit "1.0.2" |};
    {| name := lit "Nuke";
       url := lit "https://github.com/kean/Nuke";
       version := lit "12.8.0" |};
    {| name := lit "ViewInspector";
       url := lit "https://github.com/nalexn/ViewInspector";
       version := lit "0.10.1" |};
    {| name := lit "AcknowList";
       url := lit "https://github.com/vtourraine/AcknowList";
       version := lit "3.3.0" |} ].

(** The table [product_names] of [get_product_name]; the function
    never reads it. *)
Definition product_names : list (str * str) :=
  [ (lit "ATProtoKit", lit "ATProtoKit");
    (lit "keychain-swift", lit "KeychainSwift");
    (lit "AppRouter", lit "AppRouter");
    (lit "Nuke", lit "Nuke");
    (lit "NukeUI", lit "NukeUI");
    (lit "ViewInspector", lit "ViewInspector");
    (lit "AcknowList", lit "AcknowList") ].

(** Helper function to get product name from UUID *)
Definition get_product_name (product_uuid : str) (packages : list package)
  : str :=
  if contains (lit "ATProtoKit") product_uuid then lit "ATProtoKit"
  else if contains (lit "keychain") product_uuid then lit "KeychainSwift"
  else if contains (lit "AppRouter") product_uuid then lit "AppRouter"
  else if contains (lit "Nuke") product_uuid then lit "Nuke"
  else if contains (lit "ViewInspector") product_uuid
       then lit "ViewInspector"
  else if contains (lit "AcknowList") product_uuid then lit "AcknowList"
  else lit "Package".

(** The record text written for one package reference. *)
Definition package_reference (ref_uuid : str) (p : package) : str :=
  txt [tab; tab; ref_uuid; lit " /* "; name p; lit " */ = {"; nl;
       tab; tab; tab; lit "isa = XCRemoteSwiftPackageReference;"; nl;
       tab; tab; tab; lit "repositoryURL = "; dq; url p; dq; lit ";"; nl;
       tab; tab; tab; lit "requirement = {"; nl;
       tab; tab; tab; tab; lit "kind = upToNextMajorVersion;"; nl;
       tab; tab; tab; tab; lit "minimumVersion = "; dq; version p; dq;
         lit ";"; nl;
       tab; tab; tab; lit "};"; nl;
       tab; tab; tab; lit "};"].

(** The record text written for one product of a package. *)
Definition package_product (product_uuid comment ref_uuid : str)
           (p : package) (product_name : str) : str :=
  txt [tab; tab; product_uuid; lit " /* "; comment; lit " */ = {"; nl;
       tab; tab; tab; lit "isa = XCSwiftPackageProductDependency;"; nl;
       tab; tab; tab; lit "package = "; ref_uuid; lit " /* "; name p;
         lit " */;"; nl;
       tab; tab; tab; lit "productName = "; product_name; lit ";"; nl;
       tab; tab; tab; lit "};"].

(** The three lists built by the loop over [packages]. *)
Record sections : Type :=
  { package_references : list str;
    package_products : list str;
    product_dependencies : list str }.

Section WithRandom.

Variable rnd : nat -> N.

(** One turn of the loop [for package in packages]. *)
Definition add_package (p : package) (acc : sections) : gen sections :=
  bind (generate_uuid rnd) (fun ref_uuid =>
  let refs := package_references acc ++ [package_reference ref_uuid p] in
  if str_eqb (name p) (lit "Nuke") then
    bind (generate_uuid rnd) (fun product1_uuid =>
    bind (generate_uuid rnd) (fun product2_uuid =>
    ret {| package_references := refs;
           package_products :=
             package_products acc ++
               [package_product product1_uuid (lit "Nuke") ref_uuid p
                                (lit "Nuke");
                package_product product2_uuid (lit "NukeUI") ref_uuid p
                                (lit "NukeUI")];
           product_dependencies :=
             product_dependencies acc ++ [product1_uuid; product2_uuid]
        |}))
  else
    bind (generate_uuid rnd) (fun product_uuid =>
    ret {| package_references := refs;
           package_products :=
             package_products acc ++
               [package_product product_uuid (name p) ref_uuid p
                                (name p)];
           product_dependencies :=
             product_dependencies acc ++ [product_uuid] |})).

Fixpoint build_sections (ps : list package) (acc : sections)
  : gen sections :=
  match ps with
  | [] => ret acc
  | p :: ps' => bind (add_package p acc) (build_sections ps')
  end.

End WithRandom.

Definition build_file_end : str := lit "/* End PBXBuildFile section */".

Definition references_section (s : sections) : str :=
  txt [nl; lit "/* Begin XCRemoteSwiftPackageReference section */"; nl;
       join nl (package_references s); nl;
       lit "/* End XCRemoteSwiftPackageReference section */"; nl;
       nl;
       lit "/* Begin XCSwiftPackageProductDependency section */"; nl;
       join nl (package_products s); nl;
       lit "/* End XCSwiftPackageProductDependency section */"; nl].

(** [content[:insert_point] + references_section + content[insert_point:]] *)
Definition insert_sections (s : sections) (content : str) : str :=
  match find build_file_end content with
  | Some i =>
      let insert_point := i + length build_file_end in
      slice_to insert_point content ++ references_section s
        ++ slice_from insert_point content
  | None => content
  end.

(** The script also builds [target_pattern] and [target_replacement],
    which it never uses; they are left out. *)

(** [(1D1A9BBD2E761986002B8F85 /\\* Horizon \\*/ = \{[^}]*packageProductDependencies = )\(\);]
    In this raw pattern [\\*] stands for any number of backslashes. *)
Definition horizon_target_pattern : regex :=
  Seq (Group (Seq (Lit (lit "1D1A9BBD2E761986002B8F85 /"))
             (Seq (Star true backslash)
             (Seq (Lit (lit " Horizon "))
             (Seq (Star true backslash)
             (Seq (Lit (lit "/ = {"))
             (Seq (Star true not_rbrace)
                  (Lit (lit "packageProductDependencies = ")))))))))
      (Lit (lit "();")).

Definition horizon_target_replacement (s : sections) (caps : list str)
  : str :=
  group 1 caps ++ lit "("
    ++ join (lit ", ")
         (List.map (fun uuid => uuid ++ lit " /* "
                                  ++ get_product_name uuid packages
                                  ++ lit " */")
                   (product_dependencies s))
    ++ lit ");".

(** [(1D1A9BBB2E761986002B8F85 /\\* Frameworks \\*/ = \{[^}]*files = )\(\);] *)
Definition frameworks_pattern : regex :=
  Seq (Group (Seq (Lit (lit "1D1A9BBB2E761986002B8F85 /"))
             (Seq (Star true backslash)
             (Seq (Lit (lit " Frameworks "))
             (Seq (Star true backslash)
             (Seq (Lit (lit "/ = {"))
             (Seq (Star true not_rbrace)
                  (Lit (lit "files = ")))))))))
      (Lit (lit "();")).

Definition frameworks_replacement (s : sections) (caps : list str) : str :=
  group 1 caps ++ lit "("
    ++ join (lit "," ++ nl ++ tab ++ tab ++ tab)
         (List.map (fun uuid => uuid ++ lit " /* "
                                  ++ get_product_name uuid packages
                                  ++ lit " in Frameworks */")
                   (product_dependencies s))
    ++ lit "," ++ nl ++ tab ++ tab ++ lit ");".

Definition empty_sections : sections :=
  {| package_references := []; package_products := [];
     product_dependencies := [] |}.

(** The text computed from the content of the project file, with the
    random source [rnd] of the run. *)
Definition new_content (rnd : nat -> N) (content : str) : str :=
  let '(s, _) := build_sections rnd packages empty_sections 0 in
  if contains build_file_end content then
    let content := insert_sections s content in
    let content :=
      sub horizon_target_pattern (horizon_target_replacement s) content in
    sub frameworks_pattern (frameworks_replacement s) content
  else content.

Definition add_packages_to_project (rnd : nat -> N) (d : Disk.disk)
  : option (list Disk.op) :=
  Disk.read_modify_write project_file (new_content rnd) d.

End ModifyHorizonProject.

(** ** convert_to_xcodeproj.py: the build-file and file-reference loop *)

Module ConvertToXcodeproj.

Import Uuid.

(** [os.path.basename(path)]: the text after the last slash. *)
Definition basename (path : str) : str := last (split 47%N path) [].

(** The two f-strings appended in the loop over [all_files]. *)
Definition build_file_entry (file_uuid file_path : str) : str :=
  txt [tab; tab; file_uuid; lit " /* "; basename file_path;
       lit " in Sources */ = {isa = PBXBuildFile; fileRef = "; file_uuid;
       lit " /* "; basename file_path; lit " */; };"].

Definition file_ref_entry (file_uuid file_path : str) : str :=
  txt [tab; tab; file_uuid; lit " /* "; basename file_path;
       lit " */ = {isa = PBXFileReference; lastKnownFileType = sourcecode.swift; path = ";
       dq; basename file_path; dq; lit "; sourceTree = "; dq;
       lit "<group>"; dq; lit "; };"].

(** One entry of [sources_files_str]. *)
Definition sources_entry (uuid file_path : str) : str :=
  txt [tab; tab; tab; tab; uuid; lit " /* "; basename file_path;
       lit " in Sources */,"].

Section WithRandom.

Variable rnd : nat -> N.

(** [for i, file_path in enumerate(all_files)]: one identifier is
    drawn per file and used for both entries. *)
Fixpoint file_loop (all_files : list str) (build_files file_refs : list str)
  : gen (list str * list str) :=
  match all_files with
  | [] => ret (build_files, file_refs)
  | file_path :: rest =>
      bind (generate_uuid rnd) (fun file_uuid =>
      file_loop rest
        (build_files ++ [build_file_entry file_uuid file_path])
        (file_refs ++ [file_ref_entry file_uuid file_path]))
  end.

(** The list comprehension of [sources_files_str]: a new identifier
    is drawn for every file. *)
Fixpoint sources_files (all_files : list str) : gen (list str) :=
  match all_files with
  | [] => ret []
  | f :: rest =>
      bind (generate_uuid rnd) (fun u =>
      bind (sources_files rest) (fun es =>
      ret (sources_entry u f :: es)))
  end.

End WithRandom.

End ConvertToXcodeproj.

(** ** Reading a project text as a document

    The vocabulary the properties are stated in: a node is a record of
    the objects table, written [id /* label */ = {] or [id = {]; an edge
    list is the parenthesised list of a field, its entries being
    identifiers followed by an optional comment and a comma. *)

Module Pbx.

(** Does the text that follows an identifier open a record? *)
Definition opens_record (s : str) : bool :=
  startswith (lit " = {") s
  || (startswith (lit " /* ") s
      && match find (lit "*/") (skipn 4 s) with
         | Some i => startswith (lit " = {") (skipn (4 + i + 2) s)
         | None => false
         end).

(** Number of records of the text whose key is [id]. *)
Fixpoint node_count (id : str) (content : str) : nat :=
  (if startswith id content && opens_record (skipn (length id) content)
   then 1 else 0)
  + match content with
    | [] => 0
    | _ :: content' => node_count id content'
    end.

Definition defines_node (id content : str) : bool :=
  negb (Nat.eqb (node_count id content) 0).

(** Scanner of an edge list, started right after the opening
    parenthesis. *)
Inductive scan_state : Type :=
| Gap                      (* between entries *)
| Ident (acc : str)        (* inside an identifier *)
| Slash                    (* after a slash outside a comment *)
| Comment                  (* inside a comment *)
| CommentStar.             (* inside a comment, after a star *)

(** The identifiers completed while reading [s] from state [st], and
    the state at the end of [s] ([None] once the closing parenthesis
    has been met). *)
Fixpoint scan (st : scan_state) (s : str) : list str * option scan_state :=
  match s with
  | [] => ([], Some st)
  | c :: s' =>
      match st with
      | Gap =>
          if char_eqb c 41 then ([], None)
          else if isspace c || char_eqb c 44 then scan Gap s'
          else if char_eqb c 47 then scan Slash s'
          else scan (Ident [c]) s'
      | Ident acc =>
          if char_eqb c 41 then ([acc], None)
          else if isspace c || char_eqb c 44 then
            let '(ids, e) := scan Gap s' in (acc :: ids, e)
          else if char_eqb c 47 then
            let '(ids, e) := scan Slash s' in (acc :: ids, e)
          else scan (Ident (acc ++ [c])) s'
      | Slash =>
          if char_eqb c 42 then scan Comment s'
          else if char_eqb c 41 then ([], None)
          else scan Gap s'
      | Comment =>
          if char_eqb c 42 then scan CommentStar s' else scan Comment s'
      | CommentStar =>
          if char_eqb c 47 then scan Gap s'
          else if char_eqb c 42 then scan CommentStar s'
          else scan Comment s'
      end
  end%N.

(** The entries of the list whose text starts at [s]. *)
Definition edge_list (s : str) : list str :=
  match scan Gap s with
  | (ids, Some (Ident acc)) => ids ++ [acc]
  | (ids, _) => ids
  end.

(** The lists [field = ( ... )] of the text, in the order of their
    opening. *)
Fixpoint edge_lists (field : str) (content : str) : list (list str) :=
  match content with
  | [] => []
  | _ :: content' =>
      (if startswith (field ++ lit " = (") content
       then [edge_list (skipn (length field + 4) content)]
       else [])
      ++ edge_lists field content'
  end.

(** The list opened just before [s] is closed within [s]. *)
Definition closes (s : str) : bool :=
  match snd (scan Gap s) with
  | None => true
  | Some _ => false
  end.

(** Every list [field = ( ... )] of the text is closed before the next
    list of that field is opened: the lists of a field do not nest. *)
Fixpoint isolated (field : str) (content : str) : bool :=
  match content with
  | [] => true
  | _ :: content' =>
      (if startswith (field ++ lit " = (") content then
         let body := skipn (length field + 4) content in
         match find (field ++ lit " = (") body with
         | Some i => closes (firstn i body)
         | None => true
         end
       else true)
      && isolated field content'
  end.

(** The text that follows the first occurrence of [marker]. *)
Definition after (marker content : str) : option str :=
  match find marker content with
  | Some i => Some (skipn (i + length marker) content)
  | None => None
  end.

(** The entries of the list [field = ( ... )] of the record whose head
    is [owner]. *)
Definition edge_list_of (owner field content : str) : option (list str) :=
  match after owner content with
  | Some body =>
      match after (field ++ lit " = (") body with
      | Some s => Some (edge_list s)
      | None => None
      end
  | None => None
  end.

(** Does the text hold a package reference for [url] that requires
    [version] as its minimum version? *)
Definition requires (url version content : str) : bool :=
  match after (lit "repositoryURL = " ++ dq ++ url ++ dq ++ lit ";") content with
  | Some body =>
      match find (lit "minimumVersion = " ++ dq) body,
            find (lit "};") body with
      | Some i, Some j =>
          Nat.ltb i j
          && startswith (version ++ dq) (skipn (i + 18) body)
      | _, _ => false
      end
  | None => false
  end.

(** Number of occurrences of [needle] in [hay]. *)
Fixpoint count (needle hay : str) : nat :=
  (if startswith needle hay then 1 else 0)
  + match hay with
    | [] => 0
    | _ :: hay' => count needle hay'
    end.

End Pbx.

(** ** Vocabulary of the properties *)

Module Props.

Import Re.

(** [matches r m gs]: the text [m] is matched by [r], the groups of
    [r] capturing the texts [gs] (in the order of their opening
    parentheses). *)
Inductive matches : regex -> str -> list str -> Prop :=
| matches_lit (l : str) : matches (Lit l) l []
| matches_star (g : bool) (cls : char -> bool) (m : str) :
    forallb cls m = true -> matches (Star g cls) m []
| matches_seq (r1 r2 : regex) (m1 m2 : str) (g1 g2 : list str) :
    matches r1 m1 g1 -> matches r2 m2 g2 ->
    matches (Seq r1 r2) (m1 ++ m2) (g1 ++ g2)
| matches_group (r : regex) (m : str) (g : list str) :
    matches r m g -> matches (Group r) m (m :: g).

(** [fills_empty_lists field entries t t']: the text [t'] is the text
    [t] in which some lists [field = ( )] that were empty have received
    [entries]; everything else is kept as it is, in order. *)
Inductive fills_empty_lists (field entries : str) : str -> str -> Prop :=
| fill_end : fills_empty_lists field entries [] []
| fill_keep (c : char) (t t' : str) :
    fills_empty_lists field entries t t' ->
    fills_empty_lists field entries (c :: t) (c :: t')
| fill_list (ws t t' : str) :
    forallb isspace ws = true ->
    fills_empty_lists field entries t t' ->
    fills_empty_lists field entries
      (field ++ lit " = (" ++ ws ++ lit ");" ++ t)
      (field ++ lit " = (" ++ entries ++ ws ++ lit ");" ++ t').

(** A text that is empty or ends with a character that is not a
    space. *)
Definition ends_unspaced (s : str) : Prop :=
  s = [] \/ exists t c, s = t ++ [c] /\ isspace c = false.

(** The lines [fix_module_imports] keeps. *)
Definition kept (line : str) : bool :=
  negb (FixModuleImports.is_internal_import line).

(** The reading of the specification: a line is an import of an
    internal module when its stripped form is ["import M"]. *)
Definition stripped_is_import (line : str) : bool :=
  existsb (fun M => str_eqb (strip line) (lit "import " ++ M))
          FixModuleImports.internal_modules.

(** The alphabet of the identifiers: [0-9] and [A-F]. *)
Definition is_upper_hex (c : char) : bool :=
  (((48 <=? c) && (c <=? 57)) || ((65 <=? c) && (c <=? 70)))%N.

Definition upper_hex_digit (d : N) : char :=
  upper_char (Uuid.hex_digit d).

(** The digits written for an identifier. *)
Definition upper_hex (n : nat) (i : N) : str :=
  upper (Uuid.hex_digits n i).

Definition nibbles : list N := List.map N.of_nat (seq 0 16).

(** The texts [generate_uuid] can return. *)
Definition generated (u : str) : Prop :=
  exists r, u = Uuid.generate_uuid_of r.

(** The entries [replace_frameworks] writes into a file list, and
    their identifiers. *)
Definition framework_entries : str :=
  join nl AddFrameworks.framework_files ++ nl
    ++ join nl AddFrameworks.package_products.

Definition framework_entry_ids : list str :=
  List.map lit
    ["1D60000F22D4FAF6008BF43F"; "1D60001022D4FAF6008BF43F";
     "1D60001122D4FAF6008BF43F"; "1D60001222D4FAF6008BF43F";
     "1D60001322D4FAF6008BF43F"; "1D60001422D4FAF6008BF43F";
     "1D60001522D4FAF6008BF43F"; "1D60001622D4FAF6008BF43F";
     "1D60001722D4FAF6008BF43F"; "1D60001822D4FAF6008BF43F";
     "1D60001922D4FAF6008BF43F"; "1D60001A22D4FAF6008BF43F"]%string.

(** Pairwise distinct texts. *)
Fixpoint distinct (l : list str) : bool :=
  match l with
  | [] => true
  | x :: l' => negb (mem x l') && distinct l'
  end.

(** The entries built with [entry] for the files [fs] from the draws
    [k], [k + 1], ... of the random source. *)
Fixpoint entries (entry : str -> str -> str) (rnd : nat -> N)
         (k : nat) (fs : list str) : list str :=
  match fs with
  | [] => []
  | f :: fs' =>
      entry (Uuid.generate_uuid_of (rnd k)) f
        :: entries entry rnd (S k) fs'
  end.

(** [opening] occurs nowhere in [e] and no end of [e] begins it: no
    occurrence of [opening] starts inside [e], whatever follows. *)
Fixpoint free_of (opening e : str) : bool :=
  match e with
  | [] => true
  | _ :: e' =>
      negb (startswith opening e) && negb (startswith e opening)
      && free_of opening e'
  end.

(** The first character of [opening] occurs nowhere else in it and is
    neither a space nor a closing parenthesis nor a semicolon. *)
Definition starts_apart (opening : str) : bool :=
  match opening with
  | [] => false
  | f0 :: rest =>
      negb (existsb (char_eqb f0) rest) && negb (isspace f0)
      && negb (char_eqb f0 41%N) && negb (char_eqb f0 59%N)
  end.

(** A list after the operation: as it was, or filled from empty. *)
Definition same_or_filled (ids l l' : list str) : Prop :=
  l' = l \/ (l = [] /\ l' = ids).

(** The entry [add_products] writes into a children list. *)
Definition products_entry : str :=
  lit "1D60002922D4FAF6008BF43F /* Products */," ++ nl.

(** Inversion of every [matches] hypothesis on a pattern whose head
    constructor is known. *)
Ltac invert_matches :=
  repeat match goal with
         | H : matches (Seq _ _) _ _ |- _ => inversion H; clear H; subst
         | H : matches (Group _) _ _ |- _ => inversion H; clear H; subst
         | H : matches (Lit _) _ _ |- _ => inversion H; clear H; subst
         | H : matches (Star _ _) _ _ |- _ => inversion H; clear H; subst
         end.

End Props.

(** ** Sample project texts *)

Module Samples.

(** A project in which the Frameworks phase of the Horizon target and
    the Resources phase that follows it have empty file lists. *)
Definition horizon_project : str :=
  txt
    [lit "// !$*UTF8*$!"; nl;
     lit "{"; nl;
     tab; lit "objects = {"; nl;
     nl;
     lit "/* Begin PBXBuildFile section */"; nl;
     lit "/* End PBXBuildFile section */"; nl;
     nl;
     lit "/* Begin PBXFileReference section */"; nl;
     tab; tab; lit "1D1A9BBE2E761986002B8F85 /* Horizon.app */ = {isa = PBXFileReference; explicitFileType = wrapper.application; includeInIndex = 0; path = Horizon.app; sourceTree = BUILT_PRODUCTS_DIR; };"; nl;
     lit "/* End PBXFileReference section */"; nl;
     nl;
     lit "/* Begin PBXFrameworksBuildPhase section */"; nl;
     tab; tab; lit "1D1A9BBB2E761986002B8F85 /* Frameworks */ = {"; nl;
     tab; tab; tab; lit "isa = PBXFrameworksBuildPhase;"; nl;
     tab; tab; tab; lit "buildActionMask = 2147483647;"; nl;
     tab; tab; tab; lit "files = ("; nl;
     tab; tab; tab; lit ");"; nl;
     tab; tab; tab; lit "runOnlyForDeploymentPostprocessing = 0;"; nl;
     tab; tab; lit "};"; nl;
     lit "/* End PBXFrameworksBuildPhase section */"; nl;
     nl;
     lit "/* Begin PBXResourcesBuildPhase section */"; nl;
     tab; tab; lit "1D1A9BBC2E761986002B8F85 /* Resources */ = {"; nl;
     tab; tab; tab; lit "isa = PBXResourcesBuildPhase;"; nl;
     tab; tab; tab; lit "buildActionMask = 2147483647;"; nl;
     tab; tab; tab; lit "files = ("; nl;
     tab; tab; tab; lit ");"; nl;
     tab; tab; tab; lit "runOnlyForDeploymentPostprocessing = 0;"; nl;
     tab; tab; lit "};"; nl;
     lit "/* End PBXResourcesBuildPhase section */"; nl;
     tab; lit "};"; nl;
     tab; lit "rootObject = 1D1A9BB62E761986002B8F85 /* Project object */;"; nl;
     lit "}"; nl].

(** A project whose package reference for Nuke asks for version 11. *)
Definition project_with_nuke : str :=
  txt
    [lit "// !$*UTF8*$!"; nl;
     lit "{"; nl;
     tab; lit "objects = {"; nl;
     nl;
     lit "/* Begin PBXBuildFile section */"; nl;
     lit "/* End PBXBuildFile section */"; nl;
     nl;
     lit "/* Begin XCRemoteSwiftPackageReference section */"; nl;
     tab; tab; lit "1D1A9C002E761986002B8F85 /* XCRemoteSwiftPackageReference "; dq; lit "Nuke"; dq; lit " */ = {"; nl;
     tab; tab; tab; lit "isa = XCRemoteSwiftPackageReference;"; nl;
     tab; tab; tab; lit "repositoryURL = "; dq; lit "https://github.com/kean/Nuke"; dq; lit ";"; nl;
     tab; tab; tab; lit "requirement = {"; nl;
     tab; tab; tab; tab; lit "kind = upToNextMajorVersion;"; nl;
     tab; tab; tab; tab; lit "minimumVersion = "; dq; lit "11.0.0"; dq; lit ";"; nl;
     tab; tab; tab; lit "};"; nl;
     tab; tab; lit "};"; nl;
     lit "/* End XCRemoteSwiftPackageReference section */"; nl;
     tab; lit "};"; nl;
     tab; lit "rootObject = 1D1A9BB62E761986002B8F85 /* Project object */;"; nl;
     lit "}"; nl].

(** A random source whose first two values differ in one bit of the
    version field, which [uuid4] overwrites. *)
Definition colliding_rnd (k : nat) : N :=
  match k with
  | O => 0%N
  | S _ => (2 ^ 76)%N
  end.

(** A random source that never repeats a value. *)
Definition counting_rnd (k : nat) : N := N.of_nat k.

(** The random source of a later run. *)
Definition later_rnd (k : nat) : N := N.of_nat (k + 100).

Definition nuke_url : str := lit "https://github.com/kean/Nuke".

(** [repositoryURL = "https://github.com/kean/Nuke";] *)
Definition nuke_repository : str :=
  lit "repositoryURL = " ++ dq ++ nuke_url ++ dq ++ lit ";".

(** A disk that holds the Horizon project file and nothing else. *)
Definition disk_with (content : str) : Disk.disk :=
  fun q => if String.eqb q ModifyHorizonProject.project_file
           then Some content else None.

Definition frameworks_phase : str :=
  lit "1D1A9BBB2E761986002B8F85 /* Frameworks */ = {".

Definition resources_phase : str :=
  lit "1D1A9BBC2E761986002B8F85 /* Resources */ = {".

(** The only Swift file of a small application. *)
Definition app_files : list str :=
  [lit "/Users/callummatthews1/LiquidSky/App/LiquidSkyApp.swift"].

(** A project that holds a record under a generated identifier. *)
Definition project_with_generated_id : str :=
  txt
    [lit "/* Begin XCBuildConfiguration section */"; nl;
     tab; tab; lit "00000000000040008000000000000000 /* Debug */ = {"; nl;
     tab; tab; tab; lit "isa = XCBuildConfiguration;"; nl;
     tab; tab; tab; lit "name = Debug;"; nl;
     tab; tab; lit "};"; nl;
     lit "/* End XCBuildConfiguration section */"; nl].

End Samples.

(** ** fix_module_imports.py: the run over the Swift files *)

Module FixModuleImportsRun.

Import FixModuleImports Disk.

(** The set [external_modules] ("External modules that should be
    kept"); the script defines it and never reads it. *)
Definition external_modules : list str :=
  List.map lit
    ["SwiftUI"; "SwiftData"; "AppRouter"; "ATProtoKit"; "KeychainSwift";
     "Nuke"; "NukeUI"; "ViewInspector"; "AcknowList"]%string.

(** [swift_file.is_file()]: the disk holds regular files only, so a
    path without content is a directory or nothing. *)
Definition is_file (d : disk) (p : path) : bool :=
  match d p with
  | Some _ => true
  | None => false
  end.

(** The state of the loop over the files: the disk, the operations
    performed on it so far, and the two counters. *)
Record state : Type :=
  { current : disk;
    performed : list op;
    files_processed : nat;
    imports_removed : nat }.

(** One turn of [for swift_file in horizon_dir.rglob("*.swift")]. *)
Definition process_file (swift_file : path) (st : state) : state :=
  match current st swift_file with
  | Some content =>
      let original_content := content in
      let lines := split 10%N content in
      let '(filtered_lines, removed) :=
        filter_loop lines [] (imports_removed st) in
      let new_content := join nl filtered_lines in
      let ops :=
        if negb (str_eqb new_content original_content)
        then write_file swift_file new_content
        else [] in
      {| current := exec ops (current st);
         performed := performed st ++ ops;
         files_processed := S (files_processed st);
         imports_removed := removed |}
  | None => st
  end.

Fixpoint loop (swift_files : list path) (st : state) : state :=
  match swift_files with
  | [] => st
  | swift_file :: rest => loop rest (process_file swift_file st)
  end.

(** The whole run; [swift_files] are the paths [rglob] yields. *)
Definition fix_module_imports (swift_files : list path) (d : disk)
  : state :=
  loop swift_files
       {| current := d; performed := [];
          files_processed := 0; imports_removed := 0 |}.

(** Number of lines of [content] that the loop drops. *)
Definition internal_imports (content : str) : nat :=
  length (filter is_internal_import (split 10%N content)).

(** Sum of [internal_imports] over the files of [swift_files] that
    the disk holds. *)
Fixpoint internal_imports_of (d : disk) (swift_files : list path) : nat :=
  match swift_files with
  | [] => 0
  | p :: rest =>
      match d p with
      | Some content => internal_imports content
      | None => 0
      end + internal_imports_of d rest
  end.

(** The operations the run performs for the file [p] of the disk
    [d]: the file is rewritten when a line was dropped. *)
Definition writes_of (d : disk) (p : path) : list op :=
  match d p with
  | Some content =>
      if Nat.eqb (internal_imports content) 0 then []
      else write_file p (FixModuleImports.new_content content)
  | None => []
  end.

End FixModuleImportsRun.

(** ** Sample Swift sources *)

Module Sources.

Definition feed_view : str :=
  txt [lit "import SwiftUI"; nl;
       lit "import DesignSystem"; nl;
       tab; lit "import  Models "; nl;
       lit "import Nuke"; nl;
       lit "struct FeedView: View {}"; nl].

Definition app_entry : str :=
  txt [lit "import SwiftUI"; nl;
       lit "struct HorizonApp: App {}"; nl].

(** A disk that holds two Swift files; [Views.swift] below is a
    directory. *)
Definition swift_disk : Disk.disk :=
  fun q =>
    if String.eqb q "/Users/callummatthews1/Horizon/Horizon/FeedView.swift"
    then Some feed_view
    else if String.eqb q "/Users/callummatthews1/Horizon/Horizon/HorizonApp.swift"
    then Some app_entry
    else None.

Definition swift_files : list Disk.path :=
  ["/Users/callummatthews1/Horizon/Horizon/FeedView.swift";
   "/Users/callummatthews1/Horizon/Horizon/Views.swift";
   "/Users/callummatthews1/Horizon/Horizon/HorizonApp.swift"]%string.

End Sources.

(** ** convert_to_xcodeproj.py: [find_swift_files] *)

Module FindSwiftFiles.

(** What [os.walk] sees of a directory: its entries in the order of
    their listing.  A symbolic link to a directory is listed among the
    directories and not entered; anything else that is not a directory
    counts as a file. *)
#[warnings="-register-all"] Inductive entry : Type :=
| File (name : str)
| Dir (name : str) (children : list entry)
| DirLink (name : str).

(** [s.endswith(suffix)] *)
Definition endswith (suffix s : str) : bool :=
  startswith (rev suffix) (rev s).

(** [os.path.join(a, b)] of posixpath *)
Definition path_join (a b : str) : str :=
  if startswith (lit "/") b then b
  else if match a with
          | [] => true
          | _ :: _ => endswith (lit "/") a
          end
       then a ++ b
       else a ++ lit "/" ++ b.

(** The lists [dirs] and [files] of one directory. *)
Fixpoint dirnames (children : list entry) : list str :=
  match children with
  | [] => []
  | Dir name _ :: rest => name :: dirnames rest
  | DirLink name :: rest => name :: dirnames rest
  | File _ :: rest => dirnames rest
  end.

Fixpoint filenames (children : list entry) : list str :=
  match children with
  | [] => []
  | File name :: rest => name :: filenames rest
  | _ :: rest => filenames rest
  end.

(** [os.walk(top)], top down: the triple of the directory, then the
    walks of its subdirectories in listing order.  [e] is what the
    path [top] holds: a [Dir] when it can be listed; a path that is
    not a directory yields nothing. *)
Fixpoint walk (top : str) (e : entry)
  : list (str * (list str * list str)) :=
  match e with
  | Dir _ children =>
      (top, (dirnames children, filenames children))
        :: flat_map (fun c =>
                       match c with
                       | Dir name _ => walk (path_join top name) c
                       | _ => []
                       end) children
  | _ => []
  end.

(** The Swift files of one triple of the walk. *)
Definition swift_files_of (triple : str * (list str * list str))
  : list str :=
  let '(root, (_, files)) := triple in
  List.map (path_join root) (filter (endswith (lit ".swift")) files).

Definition find_swift_files (directory : str) (tree : entry)
  : list str :=
  flat_map swift_files_of (walk directory tree).

(** [located tree top root name]: in the tree whose path is [top], the
    directory of path [root] lists the file [name]. *)
Inductive located : entry -> str -> str -> str -> Prop :=
| located_here (n : str) (children : list entry) (top name : str) :
    In (File name) children ->
    located (Dir n children) top top name
| located_below (n : str) (children : list entry) (m : str)
                (sub : list entry) (top root name : str) :
    In (Dir m sub) children ->
    located (Dir m sub) (path_join top m) root name ->
    located (Dir n children) top root name.

(** The names of the Swift files, in the order in which the walk
    meets them. *)
Definition swift_names (directory : str) (tree : entry) : list str :=
  flat_map (fun triple => filter (endswith (lit ".swift"))
                                 (snd (snd triple)))
           (walk directory tree).

(** No file name of the tree holds a slash. *)
Fixpoint plain_names (e : entry) : bool :=
  match e with
  | File name => negb (existsb (char_eqb 47%N) name)
  | Dir _ children => forallb plain_names children
  | DirLink _ => true
  end.

End FindSwiftFiles.

(** ** Further vocabulary *)

Module Notions.

(** The text with every identifier digit ([0-9], [A-F]) replaced by
    [0]: what is left of a text when its identifiers are forgotten. *)
Definition blank_hex (c : char) : char :=
  if Props.is_upper_hex c then 48%N else c.

Definition skeleton (s : str) : str := List.map blank_hex s.

(** A text without identifier digits. *)
Definition hex_free (s : str) : bool :=
  forallb (fun c => negb (Props.is_upper_hex c)) s.

(** Does [content] write the identifier [id] followed by a slash
    that does not open a comment ([id / ] or [id /\])?  The heads of
    the records of a project file are written [id /* name */ = {]. *)
Definition bare_head (id content : str) : bool :=
  contains (id ++ lit " / ") content
  || contains (id ++ lit " /" ++ [92%N]) content.

(** [only_inserts old new]: the text [new] is the text [old] with
    characters inserted; no character of [old] is removed or moved. *)
Inductive only_inserts : str -> str -> Prop :=
| inserts_end : only_inserts [] []
| inserts_keep (c : char) (old new : str) :
    only_inserts old new -> only_inserts (c :: old) (c :: new)
| inserts_add (c : char) (old new : str) :
    only_inserts old new -> only_inserts old (c :: new).

(** [rewrites_in_place script p transform d n]: run on the disk [d],
    the script fails without an operation when the file [p] cannot
    be read; otherwise its operations are: open [p] for writing,
    write the characters of [transform content], close.  Stopped
    after [n] operations, the run leaves in [p] the old content
    ([n = 0]) or the first [n - 1] characters of the new one, and
    every other file as it was; run to its end, it leaves the new
    content. *)
Definition rewrites_in_place
           (script : Disk.disk -> option (list Disk.op))
           (p : Disk.path) (transform : str -> str)
           (d : Disk.disk) (n : nat) : Prop :=
  match d p with
  | None => script d = None
  | Some content =>
      exists ops,
        script d = Some ops
        /\ ops = Disk.OpenW p
                   :: List.map (Disk.WriteChar p) (transform content)
                   ++ [Disk.Close p]
        /\ Disk.interrupted n ops d p
           = Some (match n with
                   | O => content
                   | S k => firstn k (transform content)
                   end)
        /\ (forall q, q <> p -> Disk.interrupted n ops d q = d q)
        /\ Disk.exec ops d p = Some (transform content)
  end.

(** The identifiers drawn at the positions [draws] of the random
    source. *)
Definition drawn (rnd : nat -> N) (draws : list nat) : list str :=
  List.map (fun i => Uuid.generate_uuid_of (rnd i)) draws.

(** [product] is a product record whose inline comment is the text
    of its [productName] field. *)
Definition named_record (product : str) : Prop :=
  exists uuid ref_uuid p product_name,
    product = ModifyHorizonProject.package_product
                uuid product_name ref_uuid p product_name.

(** The entries [add_packages_to_project] writes into the list of
    the target and into the file list of the Frameworks phase for the
    identifiers [uuids]: every comment is the answer of
    [get_product_name], which is ["Package"]. *)
Definition target_entries (uuids : list str) : str :=
  join (lit ", ")
       (List.map (fun uuid => uuid ++ lit " /* Package */") uuids).

Definition frameworks_entries (uuids : list str) : str :=
  join (lit "," ++ nl ++ tab ++ tab ++ tab)
       (List.map (fun uuid => uuid ++ lit " /* Package in Frameworks */")
                 uuids)
    ++ lit "," ++ nl ++ tab ++ tab.

(** [r] is the record of a package reference for [p] under a
    generated identifier. *)
Definition reference_of (r : str) (p : ModifyHorizonProject.package)
  : Prop :=
  exists ref_uuid,
    Props.generated ref_uuid
    /\ r = ModifyHorizonProject.package_reference ref_uuid p.

(** [product] is a product record with identifier [uuid] whose
    [package] field names one of the records [refs]. *)
Definition names_reference (refs : list str) (uuid product : str)
  : Prop :=
  exists comment ref_uuid p product_name,
    In (ModifyHorizonProject.package_reference ref_uuid p) refs
    /\ product = ModifyHorizonProject.package_product
                   uuid comment ref_uuid p product_name.

End Notions.

(** ** Further sample projects *)

Module Cases.

(** A project in which the heads of the Horizon target and of its
    Frameworks phase are written with bare slashes, as the patterns of
    modify_horizon_project.py expect them, and whose two lists are
    empty. *)
Definition bare_project : str :=
  txt
    [lit "// !$*UTF8*$!"; nl;
     lit "{"; nl;
     tab; lit "objects = {"; nl;
     nl;
     lit "/* Begin PBXBuildFile section */"; nl;
     lit "/* End PBXBuildFile section */"; nl;
     nl;
     lit "/* Begin PBXFrameworksBuildPhase section */"; nl;
     tab; tab; lit "1D1A9BBB2E761986002B8F85 / Frameworks / = {"; nl;
     tab; tab; tab; lit "isa = PBXFrameworksBuildPhase;"; nl;
     tab; tab; tab; lit "files = ();"; nl;
     tab; tab; lit "};"; nl;
     lit "/* End PBXFrameworksBuildPhase section */"; nl;
     nl;
     lit "/* Begin PBXNativeTarget section */"; nl;
     tab; tab; lit "1D1A9BBD2E761986002B8F85 / Horizon / = {"; nl;
     tab; tab; tab; lit "isa = PBXNativeTarget;"; nl;
     tab; tab; tab; lit "packageProductDependencies = ();"; nl;
     tab; tab; lit "};"; nl;
     lit "/* End PBXNativeTarget section */"; nl;
     tab; lit "};"; nl;
     tab; lit "rootObject = 1D1A9BB62E761986002B8F85 /* Project object */;"; nl;
     lit "}"; nl].

Definition horizon_target : str :=
  lit "1D1A9BBD2E761986002B8F85 / Horizon / = {".

Definition frameworks_phase : str :=
  lit "1D1A9BBB2E761986002B8F85 / Frameworks / = {".

(** A package directory with two Swift files of the same name. *)
Definition features_tree : FindSwiftFiles.entry :=
  FindSwiftFiles.Dir (lit "Sources")
    [FindSwiftFiles.File (lit "README.md");
     FindSwiftFiles.Dir (lit "AuthUI")
       [FindSwiftFiles.File (lit "View.swift");
        FindSwiftFiles.File (lit "swift")];
     FindSwiftFiles.DirLink (lit "Linked");
     FindSwiftFiles.Dir (lit "FeedUI")
       [FindSwiftFiles.Dir (lit "Rows")
          [FindSwiftFiles.File (lit "Row.swift")];
        FindSwiftFiles.File (lit "View.swift")]].

End Cases.

Import Props.

(* ===================================================================== *)
(** * Part II: properties *)
(* ===================================================================== *)

(** ** The embedding on small inputs

    Values obtained from the Python interpreter for the same inputs. *)

Example strip_example :
  strip (tab ++ lit " import  AuthUI " ++ [31%N]) = lit "import  AuthUI".
Proof. vm_compute. reflexivity. Qed.

Example split_example :
  split 10%N (lit "a" ++ nl ++ nl ++ lit "b" ++ nl)
  = [lit "a"; []; lit "b"; []].
Proof. vm_compute. reflexivity. Qed.

Example join_example :
  join nl [lit "a"; []; lit "b"; []] = lit "a" ++ nl ++ nl ++ lit "b" ++ nl.
Proof. vm_compute. reflexivity. Qed.

Example find_example :
  find (lit "/* End */") (lit "x/* End */y/* End */") = Some 1
  /\ find (lit "zz") (lit "abc") = None.
Proof. vm_compute. split; reflexivity. Qed.

Example basename_example :
  ConvertToXcodeproj.basename (lit "/Users/x/App/LiquidSkyApp.swift")
  = lit "LiquidSkyApp.swift"
  /\ ConvertToXcodeproj.basename (lit "a/b/") = []
  /\ ConvertToXcodeproj.basename (lit "plain.swift") = lit "plain.swift".
Proof. vm_compute. repeat split; reflexivity. Qed.

(** [uuid.UUID(int=..., version=4)] for the values [2^128 - 1] and
    [0x0123456789abcdef0123456789abcdef]. *)
Example generate_uuid_example :
  Uuid.generate_uuid_of (2 ^ 128 - 1) = lit "FFFFFFFFFFFF4FFFBFFFFFFFFFFFFFFF"
  /\ Uuid.generate_uuid_of 1512366075204170929049582354406559215
     = lit "0123456789AB4DEF8123456789ABCDEF"
  /\ Uuid.uuid_str (Uuid.uuid4_int 12345678901234567890123456789)
     = lit "00000000-27e4-4b32-86be-c9b16e398115".
Proof. vm_compute. repeat split; reflexivity. Qed.

(** [re.sub(r'(<[\s\S]*?>)(\s*;)', lambda m: m.group(2) + m.group(1), s)]:
    the lazy star stops at the first [>] after which the rest matches,
    and may run over other brackets to reach it. *)
Example sub_lazy_example :
  Re.sub (Re.Seq (Re.Group (Re.Seq (Re.Lit (lit "<"))
                           (Re.Seq (Re.Star false Re.any_char)
                                   (Re.Lit (lit ">")))))
                 (Re.Group (Re.Seq (Re.Star true isspace)
                                   (Re.Lit (lit ";")))))
         (fun caps => Re.group 2 caps ++ Re.group 1 caps)
         (lit "a<b> ;<c>x<d>" ++ nl ++ lit ";")
  = lit "a ;<b>" ++ nl ++ lit ";<c>x<d>".
Proof. vm_compute. reflexivity. Qed.

(** [re.sub(r'(k\\*=[^}]*x)\(\);', r'\1(7);', s)]: in a raw pattern
    [\\*] matches any number of backslashes, and [[^}]*] cannot pass a
    closing brace. *)
Example sub_greedy_example :
  Re.sub (Re.Seq (Re.Group (Re.Seq (Re.Lit (lit "k"))
                           (Re.Seq (Re.Star true Re.backslash)
                           (Re.Seq (Re.Lit (lit "="))
                           (Re.Seq (Re.Star true Re.not_rbrace)
                                   (Re.Lit (lit "x")))))))
                 (Re.Lit (lit "();")))
         (fun caps => Re.group 1 caps ++ lit "(7);")
         (lit "k\\=abx();k=}x();k=x();")
  = lit "k\\=abx(7);k=}x();k=x(7);".
Proof. vm_compute. reflexivity. Qed.

(** ** Strings *)

Lemma char_eqb_eq (a b : char) : char_eqb a b = true <-> a = b.
Proof. apply N.eqb_eq. Qed.

Lemma char_eqb_refl (a : char) : char_eqb a a = true.
Proof. apply N.eqb_refl. Qed.

Lemma str_eqb_eq (a b : str) : str_eqb a b = true <-> a = b.
Proof.
  revert b; induction a as [|x a IH]; intros [|y b]; simpl;
    try (split; congruence).
  rewrite andb_true_iff, char_eqb_eq, IH.
  split; [intros [-> ->]; reflexivity | intros [= -> ->]; auto].
Qed.

Lemma str_eqb_refl (a : str) : str_eqb a a = true.
Proof. apply str_eqb_eq; reflexivity. Qed.

Lemma str_eqb_neq (a b : str) : str_eqb a b = false <-> a <> b.
Proof.
  rewrite <- str_eqb_eq. destruct (str_eqb a b); split; congruence.
Qed.

Lemma mem_In (x : str) (xs : list str) : mem x xs = true <-> In x xs.
Proof.
  unfold mem. rewrite existsb_exists. split.
  - intros (y & Hy & E). apply str_eqb_eq in E. subst; assumption.
  - intros H. exists x. split; [assumption | apply str_eqb_refl].
Qed.

Lemma startswith_prefix (p s : str) :
  startswith p s = true <-> exists r, s = p ++ r.
Proof.
  revert s; induction p as [|x p IH]; intros s; simpl.
  - split; [intros _; exists s; reflexivity | reflexivity].
  - destruct s as [|y s].
    + split; [discriminate | intros (r & E); discriminate].
    + rewrite andb_true_iff, char_eqb_eq, IH. split.
      * intros (-> & r & ->). exists r. reflexivity.
      * intros (r & [= -> ->]). split; [reflexivity | exists r; reflexivity].
Qed.

Lemma startswith_app (p r : str) : startswith p (p ++ r) = true.
Proof. apply startswith_prefix. exists r. reflexivity. Qed.

Lemma startswith_skipn (p s : str) :
  startswith p s = true -> s = p ++ skipn (length p) s.
Proof.
  intros H. apply startswith_prefix in H. destruct H as (r & ->).
  rewrite skipn_app, skipn_all, Nat.sub_diag. reflexivity.
Qed.

Lemma contains_split (needle hay : str) :
  contains needle hay = true <-> exists a b, hay = a ++ needle ++ b.
Proof.
  induction hay as [|c hay IH].
  - simpl. rewrite orb_false_r. rewrite startswith_prefix. split.
    + intros (r & E). exists [], r. exact E.
    + intros (a & b & E). destruct a; simpl in E.
      * exists b. exact E.
      * discriminate.
  - simpl. rewrite orb_true_iff, startswith_prefix, IH. split.
    + intros [(r & E) | (a & b & E)].
      * exists [], r. exact E.
      * exists (c :: a), b. rewrite E. reflexivity.
    + intros (a & b & E). destruct a as [|x a]; simpl in E.
      * left. exists b. exact E.
      * right. injection E as -> ->. exists a, b. reflexivity.
Qed.

Lemma contains_app_r (needle a b : str) :
  contains needle b = true -> contains needle (a ++ b) = true.
Proof.
  rewrite !contains_split. intros (x & y & ->).
  exists (a ++ x), y. rewrite app_assoc. reflexivity.
Qed.

Lemma contains_app_l (needle a b : str) :
  contains needle a = true -> contains needle (a ++ b) = true.
Proof.
  rewrite !contains_split. intros (x & y & ->).
  exists x, (y ++ b). rewrite <- !app_assoc. reflexivity.
Qed.

Lemma contains_Forall (P : char -> Prop) (needle hay : str) :
  contains needle hay = true -> Forall P hay -> Forall P needle.
Proof.
  rewrite contains_split. intros (a & b & ->) H.
  apply Forall_app in H. destruct H as [_ H].
  apply Forall_app in H. tauto.
Qed.

(** [find] returns the first occurrence. *)
Lemma find_Some (needle hay : str) (i : nat) :
  find needle hay = Some i ->
  hay = firstn i hay ++ needle ++ skipn (i + length needle) hay.
Proof.
  revert i; induction hay as [|c hay IH]; intros i; simpl.
  - destruct (startswith needle []) eqn:E; [|discriminate].
    intros [= <-]. simpl. apply startswith_skipn in E. exact E.
  - destruct (startswith needle (c :: hay)) eqn:E.
    + intros [= <-]. simpl. apply startswith_skipn in E. exact E.
    + destruct (find needle hay) as [j|]; simpl; [|discriminate].
      intros [= <-]. simpl. f_equal. apply IH. reflexivity.
Qed.

Lemma find_contains (needle hay : str) :
  contains needle hay = true -> exists i, find needle hay = Some i.
Proof.
  induction hay as [|c hay IH]; simpl.
  - rewrite orb_false_r. intros ->. eauto.
  - destruct (startswith needle (c :: hay)); simpl; [eauto|].
    intros H. destruct (IH H) as (i & ->). simpl. eauto.
Qed.

(** ** [split] and [join] *)

Lemma split_not_nil (sep : char) (s : str) : split sep s <> [].
Proof.
  induction s as [|c s IH]; simpl; [discriminate|].
  destruct (char_eqb c sep); [discriminate|].
  destruct (split sep s); [contradiction | discriminate].
Qed.

Lemma split_no_sep (sep : char) (s : str) :
  Forall (fun l => ~ In sep l) (split sep s).
Proof.
  induction s as [|c s IH]; simpl.
  - constructor; [intros [] | constructor].
  - destruct (char_eqb c sep) eqn:E.
    + constructor; [intros [] | exact IH].
    + destruct (split sep s) as [|l ls].
      * constructor; [|constructor]. intros [->|[]].
        rewrite char_eqb_refl in E. discriminate.
      * inversion IH as [|? ? Hl Hls]; subst. constructor; [|exact Hls].
        intros [->|H]; [rewrite char_eqb_refl in E; discriminate | tauto].
Qed.

Lemma join_split (sep : char) (s : str) : join [sep] (split sep s) = s.
Proof.
  induction s as [|c s IH]; simpl; [reflexivity|].
  destruct (char_eqb c sep) eqn:E.
  - apply char_eqb_eq in E. subst c.
    destruct (split sep s) as [|l ls] eqn:Es.
    + contradiction (split_not_nil sep s Es).
    + simpl. simpl in IH. rewrite IH. reflexivity.
  - destruct (split sep s) as [|l ls] eqn:Es.
    + contradiction (split_not_nil sep s Es).
    + destruct ls; simpl in *; rewrite <- IH; reflexivity.
Qed.

Lemma split_line (sep : char) (l : str) :
  ~ In sep l -> split sep l = [l].
Proof.
  induction l as [|c l IH]; simpl; intros H; [reflexivity|].
  destruct (char_eqb c sep) eqn:E.
  - apply char_eqb_eq in E. subst. tauto.
  - rewrite IH by tauto. reflexivity.
Qed.

Lemma split_app_sep (sep : char) (l rest : str) :
  ~ In sep l -> split sep (l ++ sep :: rest) = l :: split sep rest.
Proof.
  induction l as [|c l IH]; simpl; intros H.
  - rewrite char_eqb_refl. reflexivity.
  - destruct (char_eqb c sep) eqn:E.
    + apply char_eqb_eq in E. subst. tauto.
    + rewrite IH by tauto. reflexivity.
Qed.

Lemma split_join (sep : char) (ls : list str) :
  ls <> [] -> Forall (fun l => ~ In sep l) ls ->
  split sep (join [sep] ls) = ls.
Proof.
  induction ls as [|l ls IH]; intros Hne H; [contradiction|].
  inversion H as [|? ? Hl Hls]; subst.
  destruct ls as [|l' ls].
  - simpl. apply split_line. exact Hl.
  - change (join [sep] (l :: l' :: ls)) with (l ++ sep :: join [sep] (l' :: ls)).
    rewrite split_app_sep by exact Hl.
    rewrite IH; [reflexivity | discriminate | exact Hls].
Qed.

(** ** [strip] *)

Lemma lstrip_decompose (s : str) :
  exists ws, s = ws ++ lstrip s /\ forallb isspace ws = true.
Proof.
  induction s as [|c s (ws & E & H)]; simpl.
  - exists []. split; reflexivity.
  - destruct (isspace c) eqn:Ec.
    + exists (c :: ws). simpl. rewrite Ec, H. split; [f_equal; exact E | reflexivity].
    + exists []. split; reflexivity.
Qed.

Lemma lstrip_head (s : str) :
  match lstrip s with
  | [] => True
  | c :: _ => isspace c = false
  end.
Proof.
  induction s as [|c s IH]; simpl; [exact I|].
  destruct (isspace c) eqn:Ec; [exact IH | exact Ec].
Qed.

Lemma lstrip_spaces (ws s : str) :
  forallb isspace ws = true -> lstrip (ws ++ s) = lstrip s.
Proof.
  induction ws as [|c ws IH]; simpl; [reflexivity|].
  rewrite andb_true_iff. intros [-> H]. apply IH. exact H.
Qed.

Lemma lstrip_fixed (s : str) :
  match s with [] => True | c :: _ => isspace c = false end ->
  lstrip s = s.
Proof. destruct s as [|c s]; simpl; [reflexivity | intros ->; reflexivity]. Qed.

Lemma rstrip_fixed (s : str) : ends_unspaced s -> rstrip s = s.
Proof.
  unfold rstrip. intros [-> | (t & c & -> & Hc)]; [reflexivity|].
  rewrite rev_app_distr. simpl. rewrite Hc. simpl.
  rewrite rev_involutive. reflexivity.
Qed.

Lemma rstrip_ends_unspaced (s : str) : ends_unspaced (rstrip s).
Proof.
  unfold rstrip. pose proof (lstrip_head (rev s)) as H.
  destruct (lstrip (rev s)) as [|c t]; [left; reflexivity|].
  right. exists (rev t), c. split; [reflexivity | exact H].
Qed.

Lemma strip_ends_unspaced (s : str) : ends_unspaced (strip s).
Proof. apply rstrip_ends_unspaced. Qed.

Lemma ends_unspaced_suffix (a b : str) :
  b <> [] -> ends_unspaced (a ++ b) -> ends_unspaced b.
Proof.
  intros Hb [E | (t & c & E & Hc)].
  - apply app_eq_nil in E. tauto.
  - destruct (exists_last Hb) as (b' & x & ->).
    rewrite app_assoc in E. apply app_inj_tail in E. destruct E as [_ ->].
    right. exists b', c. split; [reflexivity | exact Hc].
Qed.

(** ** fix_module_imports.py *)

Module FixModuleImportsFacts.

Import FixModuleImports.

Lemma filter_loop_filter (lines acc : list str) (n : nat) :
  filter_loop lines acc n =
    (acc ++ filter kept lines,
     n + length (filter is_internal_import lines)).
Proof.
  revert acc n; induction lines as [|l lines IH]; intros acc n; simpl.
  - rewrite app_nil_r, Nat.add_0_r. reflexivity.
  - unfold kept at 1. destruct (is_internal_import l); simpl.
    + rewrite IH. f_equal. lia.
    + rewrite IH, <- app_assoc. reflexivity.
Qed.

Lemma new_content_filter (content : str) :
  new_content content = join nl (filter kept (split 10%N content)).
Proof.
  unfold new_content. rewrite filter_loop_filter. reflexivity.
Qed.

Lemma module_names_stripped :
  forall M, In M internal_modules -> M <> [] /\ strip M = M.
Proof.
  assert (H : forallb (fun M => negb (str_eqb M []) && str_eqb (strip M) M)
                      internal_modules = true) by (vm_compute; reflexivity).
  intros M HM. rewrite forallb_forall in H. specialize (H M HM).
  apply andb_true_iff in H. destruct H as [H1 H2].
  apply negb_true_iff, str_eqb_neq in H1. apply str_eqb_eq in H2. tauto.
Qed.

(** The lines the loop drops: after stripping they read ["import "],
    any run of whitespace, and the name of an internal module. *)
Lemma is_internal_import_spec (line : str) :
  is_internal_import line = true <->
  exists ws M, forallb isspace ws = true /\ In M internal_modules /\
               strip line = lit "import " ++ ws ++ M.
Proof.
  unfold is_internal_import, slice_from. split.
  - destruct (startswith (lit "import ") (strip line)) eqn:E; [|discriminate].
    intros H. apply mem_In in H.
    apply startswith_skipn in E.
    change (length (lit "import ")) with 7 in E.
    set (rest := skipn 7 (strip line)) in *.
    destruct (module_names_stripped _ H) as [Hne _].
    destruct (lstrip_decompose rest) as (ws & Hrest & Hws).
    exists ws, (strip rest). split; [exact Hws|]. split; [exact H|].
    assert (Hl : lstrip rest <> []).
    { intros El. apply Hne. unfold strip. rewrite El. reflexivity. }
    assert (Hu : ends_unspaced (lstrip rest)).
    { apply ends_unspaced_suffix with (a := lit "import " ++ ws); [exact Hl|].
      rewrite <- app_assoc, <- Hrest, <- E. apply strip_ends_unspaced. }
    unfold strip at 2. rewrite (rstrip_fixed _ Hu), <- Hrest. exact E.
  - intros (ws & M & Hws & HM & E). rewrite E.
    rewrite startswith_app.
    rewrite skipn_app.
    change (length (lit "import ")) with 7.
    change (skipn 7 (lit "import ")) with (@nil char).
    simpl skipn. simpl app.
    apply mem_In.
    destruct (module_names_stripped _ HM) as [_ HsM].
    unfold strip in *. rewrite lstrip_spaces by exact Hws.
    rewrite HsM. exact HM.
Qed.

Lemma filter_kept_idem (ls : list str) :
  filter kept (filter kept ls) = filter kept ls.
Proof.
  induction ls as [|l ls IH]; simpl; [reflexivity|].
  destruct (kept l) eqn:E; simpl; [rewrite E, IH|]; auto.
Qed.

Lemma Forall_filter (A : Type) (P : A -> Prop) (f : A -> bool) (l : list A) :
  Forall P l -> Forall P (filter f l).
Proof.
  induction 1 as [|x l Hx Hl IH]; simpl; [constructor|].
  destruct (f x); [constructor|]; assumption.
Qed.

Lemma new_content_idempotent (content : str) :
  new_content (new_content content) = new_content content.
Proof.
  rewrite !new_content_filter.
  set (ls := filter kept (split 10%N content)).
  destruct ls as [|l ls'] eqn:E.
  - reflexivity.
  - rewrite <- E. change nl with [10%N].
    rewrite split_join.
    + unfold ls. rewrite filter_kept_idem. reflexivity.
    + rewrite E. discriminate.
    + unfold ls. apply Forall_filter. apply split_no_sep.
Qed.

Lemma fix_file_new_content (content : str) :
  fix_file content = new_content content.
Proof.
  unfold fix_file. destruct (str_eqb (new_content content) content) eqn:E; simpl.
  - apply str_eqb_eq in E. symmetry. exact E.
  - reflexivity.
Qed.

End FixModuleImportsFacts.

(** ** Identifiers *)

Module UuidFacts.

Import Uuid.
Local Open Scope N_scope.

Lemma nibble_In (d : N) : d < 16 -> In d nibbles.
Proof.
  intros H. unfold nibbles. apply in_map_iff.
  exists (N.to_nat d). split; [apply N2Nat.id|].
  apply in_seq. lia.
Qed.

Lemma land_15_lt (i : N) : N.land i 15 < 16.
Proof.
  change 15 with (N.ones 4). rewrite N.land_ones.
  apply N.mod_lt. discriminate.
Qed.

Lemma upper_hex_digit_alphabet (d : N) :
  d < 16 -> is_upper_hex (upper_hex_digit d) = true.
Proof.
  intros H. apply nibble_In in H. revert d H. apply forallb_forall.
  vm_compute. reflexivity.
Qed.

Lemma upper_hex_digit_inj (a b : N) :
  a < 16 -> b < 16 -> upper_hex_digit a = upper_hex_digit b -> a = b.
Proof.
  intros Ha Hb E. apply nibble_In in Ha, Hb.
  assert (H : forallb (fun x => forallb (fun y =>
                implb (upper_hex_digit x =? upper_hex_digit y) (x =? y))
                nibbles) nibbles = true) by (vm_compute; reflexivity).
  rewrite forallb_forall in H. specialize (H a Ha).
  rewrite forallb_forall in H. specialize (H b Hb).
  rewrite E, N.eqb_refl in H. simpl in H. apply N.eqb_eq. exact H.
Qed.

Lemma upper_hex_S (n : nat) (i : N) :
  upper_hex (S n) i =
    upper_hex n (N.shiftr i 4) ++ [upper_hex_digit (N.land i 15)].
Proof. unfold upper_hex, upper. simpl. rewrite map_app. reflexivity. Qed.

Lemma upper_hex_length (n : nat) (i : N) : length (upper_hex n i) = n.
Proof.
  revert i; induction n as [|n IH]; intros i; [reflexivity|].
  rewrite upper_hex_S, length_app, IH. simpl. lia.
Qed.

Lemma upper_hex_alphabet (n : nat) (i : N) :
  Forall (fun c => is_upper_hex c = true) (upper_hex n i).
Proof.
  revert i; induction n as [|n IH]; intros i; [constructor|].
  rewrite upper_hex_S. apply Forall_app. split; [apply IH|].
  constructor; [|constructor].
  apply upper_hex_digit_alphabet, land_15_lt.
Qed.

(** The digits determine the value they were written from. *)
Lemma upper_hex_inj (n : nat) (i j : N) :
  upper_hex n i = upper_hex n j ->
  i mod 2 ^ (4 * N.of_nat n) = j mod 2 ^ (4 * N.of_nat n).
Proof.
  revert i j; induction n as [|n IH]; intros i j E.
  - simpl. rewrite !N.mod_1_r. reflexivity.
  - rewrite !upper_hex_S in E. apply app_inj_tail in E.
    destruct E as [E1 E2].
    apply IH in E1.
    apply upper_hex_digit_inj in E2; try apply land_15_lt.
    change 15 with (N.ones 4) in E2. rewrite !N.land_ones in E2.
    rewrite !N.shiftr_div_pow2 in E1.
    replace (4 * N.of_nat (S n)) with (4 + 4 * N.of_nat n) by lia.
    rewrite N.pow_add_r.
    rewrite (N.Div0.mod_mul_r i), (N.Div0.mod_mul_r j).
    rewrite E1, E2. reflexivity.
Qed.

Lemma lor_lt_pow2 (a b n : N) :
  a < 2 ^ n -> b < 2 ^ n -> N.lor a b < 2 ^ n.
Proof.
  intros Ha Hb.
  destruct (N.eq_dec (N.lor a b) 0) as [E|E].
  - rewrite E. apply N.neq_0_lt_0, N.pow_nonzero. discriminate.
  - apply N.log2_lt_pow2; [lia|]. rewrite N.log2_lor.
    destruct (N.eq_dec a 0) as [->|Ha0], (N.eq_dec b 0) as [->|Hb0].
    + contradiction E. reflexivity.
    + rewrite N.max_r by (apply N.le_0_l).
      apply N.log2_lt_pow2; [lia | exact Hb].
    + rewrite N.max_l by (apply N.le_0_l).
      apply N.log2_lt_pow2; [lia | exact Ha].
    + apply N.max_lub_lt; apply N.log2_lt_pow2; lia || assumption.
Qed.

Lemma uuid4_int_lt (r : N) : uuid4_int r < 2 ^ 128.
Proof.
  unfold uuid4_int.
  apply lor_lt_pow2; [|vm_compute; reflexivity].
  eapply N.le_lt_trans; [apply N.ldiff_le_l|].
  apply lor_lt_pow2; [|vm_compute; reflexivity].
  eapply N.le_lt_trans; [apply N.ldiff_le_l|].
  apply N.mod_lt. vm_compute. discriminate.
Qed.

(** Removing the dashes of the dashed form gives the digits back. *)
Lemma replace1_app (old : char) (new a b : str) :
  replace1 old new (a ++ b) = replace1 old new a ++ replace1 old new b.
Proof.
  induction a as [|c a IH]; simpl; [reflexivity|].
  destruct (char_eqb c old); rewrite IH; [rewrite app_assoc|]; reflexivity.
Qed.

Lemma replace1_absent (old : char) (new s : str) :
  Forall (fun c => char_eqb c old = false) s -> replace1 old new s = s.
Proof.
  induction 1 as [|c s Hc Hs IH]; simpl; [reflexivity|].
  rewrite Hc, IH. reflexivity.
Qed.

Lemma upper_hex_no_dash (c : char) :
  is_upper_hex c = true -> char_eqb c 45 = false.
Proof.
  unfold is_upper_hex, char_eqb. intros H.
  apply N.eqb_neq. intros ->. discriminate H.
Qed.

Lemma dashes_removed (h : str) :
  Forall (fun c => is_upper_hex c = true) h ->
  replace1 45 []
    (firstn 8 h ++ lit "-" ++ firstn 4 (skipn 8 h) ++ lit "-"
       ++ firstn 4 (skipn 12 h) ++ lit "-" ++ firstn 4 (skipn 16 h)
       ++ lit "-" ++ skipn 20 h) = h.
Proof.
  intros H.
  assert (Hd : Forall (fun c => char_eqb c 45 = false) h).
  { eapply Forall_impl; [|exact H]. apply upper_hex_no_dash. }
  assert (Hf : forall n, replace1 45 [] (firstn n h) = firstn n h).
  { intros n. apply replace1_absent.
    rewrite <- (firstn_skipn n h) in Hd. apply Forall_app in Hd. tauto. }
  assert (Hs : forall n, Forall (fun c => char_eqb c 45 = false) (skipn n h)).
  { intros n. rewrite <- (firstn_skipn n h) in Hd.
    apply Forall_app in Hd. tauto. }
  assert (Hfs : forall m n, replace1 45 [] (firstn m (skipn n h))
                            = firstn m (skipn n h)).
  { intros m n. apply replace1_absent. specialize (Hs n).
    rewrite <- (firstn_skipn m (skipn n h)) in Hs.
    apply Forall_app in Hs. tauto. }
  rewrite !replace1_app, Hf, !Hfs.
  rewrite (replace1_absent _ _ _ (Hs 20%nat)).
  change (replace1 45 [] (lit "-")) with (@nil char). simpl app.
  etransitivity; [|apply (firstn_skipn 8 h)]. f_equal.
  etransitivity; [|apply (firstn_skipn 4 (skipn 8 h))]. f_equal.
  rewrite skipn_skipn. simpl Nat.add.
  etransitivity; [|apply (firstn_skipn 4 (skipn 12 h))]. f_equal.
  rewrite skipn_skipn. simpl Nat.add.
  etransitivity; [|apply (firstn_skipn 4 (skipn 16 h))]. f_equal.
  rewrite skipn_skipn. reflexivity.
Qed.

Lemma upper_app (a b : str) : upper (a ++ b) = upper a ++ upper b.
Proof. apply map_app. Qed.

(** An identifier is the 32 digits of the forced UUID value. *)
Lemma generate_uuid_of_digits (r : N) :
  generate_uuid_of r = upper_hex 32 (uuid4_int r).
Proof.
  unfold generate_uuid_of, uuid_str, slice_to, slice_from.
  rewrite !upper_app. unfold upper at 1 3 5 7 9.
  rewrite <- !firstn_map, <- !skipn_map.
  change (upper (lit "-")) with (lit "-").
  apply dashes_removed. apply upper_hex_alphabet.
Qed.

Lemma generate_uuid_of_length (r : N) :
  length (generate_uuid_of r) = 32%nat.
Proof. rewrite generate_uuid_of_digits. apply upper_hex_length. Qed.

Lemma generate_uuid_of_alphabet (r : N) :
  Forall (fun c => is_upper_hex c = true) (generate_uuid_of r).
Proof. rewrite generate_uuid_of_digits. apply upper_hex_alphabet. Qed.

Lemma generate_uuid_of_inj (r1 r2 : N) :
  generate_uuid_of r1 = generate_uuid_of r2 <-> uuid4_int r1 = uuid4_int r2.
Proof.
  split.
  - rewrite !generate_uuid_of_digits. intros E.
    apply upper_hex_inj in E.
    change (2 ^ (4 * N.of_nat 32)) with (2 ^ 128) in E.
    rewrite !N.mod_small in E by apply uuid4_int_lt. exact E.
  - intros E. unfold generate_uuid_of. rewrite E. reflexivity.
Qed.

Lemma session_draws (rnd : nat -> N) (n k : nat) :
  session rnd n k =
    (List.map (fun i => generate_uuid_of (rnd i)) (seq k n), (k + n)%nat).
Proof.
  revert k; induction n as [|n IH]; intros k; simpl.
  - unfold ret. rewrite Nat.add_0_r. reflexivity.
  - unfold bind, generate_uuid. rewrite IH. unfold ret.
    f_equal. lia.
Qed.

End UuidFacts.

(** ** Regular expressions *)

Module ReFacts.

Import Re.

Section Soundness.

Variable R : Type.

Lemma star_lazy_sound (cls : char -> bool) (s : str)
      (k : str -> option R) (res : R) :
  star_lazy cls s k = Some res ->
  exists m s', s = m ++ s' /\ forallb cls m = true /\ k s' = Some res.
Proof.
  induction s as [|c s IH]; simpl.
  - destruct (k []) eqn:E.
    + intros [= ->]. exists [], []. auto.
    + discriminate.
  - destruct (k (c :: s)) eqn:E.
    + intros [= ->]. exists [], (c :: s). auto.
    + destruct (cls c) eqn:Ec; [|discriminate].
      intros H. destruct (IH H) as (m & s' & -> & Hm & Hk).
      exists (c :: m), s'. simpl. rewrite Ec, Hm. auto.
Qed.

Lemma star_greedy_sound (cls : char -> bool) (s : str)
      (k : str -> option R) (res : R) :
  star_greedy cls s k = Some res ->
  exists m s', s = m ++ s' /\ forallb cls m = true /\ k s' = Some res.
Proof.
  induction s as [|c s IH]; simpl.
  - intros H. exists [], []. auto.
  - destruct (cls c) eqn:Ec.
    + destruct (star_greedy cls s k) eqn:E.
      * intros [= ->]. destruct (IH eq_refl) as (m & s' & -> & Hm & Hk).
        exists (c :: m), s'. simpl. rewrite Ec, Hm. auto.
      * intros H. exists [], (c :: s). auto.
    + intros H. exists [], (c :: s). auto.
Qed.

Lemma set_nth_app (caps : list str) (x y : str) (gs : list str) :
  set_nth (length caps) x (caps ++ y :: gs) = caps ++ x :: gs.
Proof.
  induction caps as [|c caps IH]; simpl; [reflexivity|].
  rewrite IH. reflexivity.
Qed.

Lemma firstn_matched (m s' : str) :
  firstn (length (m ++ s') - length s') (m ++ s') = m.
Proof.
  rewrite length_app, Nat.add_sub.
  rewrite firstn_app, firstn_all, Nat.sub_diag. simpl.
  apply app_nil_r.
Qed.

(** Whenever the matcher succeeds, the continuation was run on the
    text left after a match of the pattern, with the groups of that
    match appended to the captures. *)
Lemma run_sound (r : regex) :
  forall (s : str) (caps : list str)
         (k : str -> list str -> option R) (res : R),
    run r s caps k = Some res ->
    exists m s' gs,
      s = m ++ s' /\ matches r m gs /\ k s' (caps ++ gs) = Some res.
Proof.
  induction r as [l | g cls | r1 IH1 r2 IH2 | r1 IH1];
    intros s caps k res; simpl.
  - destruct (startswith l s) eqn:E; [|discriminate].
    intros H. exists l, (skipn (length l) s), [].
    rewrite app_nil_r. split; [apply startswith_skipn; exact E|].
    split; [constructor | exact H].
  - destruct g; intros H.
    + apply star_greedy_sound in H. destruct H as (m & s' & -> & Hm & Hk).
      exists m, s', []. rewrite app_nil_r.
      split; [reflexivity|]. split; [constructor; exact Hm | exact Hk].
    + apply star_lazy_sound in H. destruct H as (m & s' & -> & Hm & Hk).
      exists m, s', []. rewrite app_nil_r.
      split; [reflexivity|]. split; [constructor; exact Hm | exact Hk].
  - intros H. apply IH1 in H. destruct H as (m1 & s1 & g1 & -> & M1 & H).
    apply IH2 in H. destruct H as (m2 & s2 & g2 & -> & M2 & H).
    exists (m1 ++ m2), s2, (g1 ++ g2).
    rewrite <- !app_assoc. rewrite <- app_assoc in H.
    split; [reflexivity|]. split; [constructor; assumption | exact H].
  - intros H. apply IH1 in H. destruct H as (m & s' & gs & -> & M & H).
    exists m, s', (m :: gs).
    split; [reflexivity|]. split; [constructor; exact M|].
    rewrite firstn_matched in H.
    rewrite <- app_assoc in H. simpl in H.
    rewrite set_nth_app in H. exact H.
Qed.

End Soundness.

Lemma rmatch_sound (r : regex) (s : str) (caps : list str) (rest : str) :
  rmatch r s = Some (caps, rest) ->
  exists m, s = m ++ rest /\ matches r m caps.
Proof.
  unfold rmatch. intros H. apply run_sound in H.
  destruct H as (m & s' & gs & -> & M & [= <- <-]).
  exists m. split; [reflexivity | exact M].
Qed.

(** *** [re.sub] *)

Section Sub.

Variables (r : regex) (repl : list str -> str).

Lemma sub_from_skip (a b : str) :
  sub_from r repl (length a) (a ++ b) = sub_from r repl 0 b.
Proof.
  induction a as [|c a IH]; simpl; [|exact IH].
  destruct b; reflexivity.
Qed.

Lemma sub_nil_nomatch : rmatch r [] = None -> sub r repl [] = [].
Proof. unfold sub. simpl. intros ->. reflexivity. Qed.

Lemma sub_cons_nomatch (c : char) (s : str) :
  rmatch r (c :: s) = None -> sub r repl (c :: s) = c :: sub r repl s.
Proof. unfold sub. simpl. intros ->. reflexivity. Qed.

Lemma sub_from_cons (c : char) (s : str) :
  sub_from r repl 0 (c :: s) =
    match rmatch r (c :: s) with
    | Some (caps, rest) =>
        match length (c :: s) - length rest with
        | O => repl caps ++ c :: sub_from r repl 0 s
        | S k => repl caps ++ sub_from r repl k s
        end
    | None => c :: sub_from r repl 0 s
    end.
Proof. reflexivity. Qed.

Lemma sub_match (m rest : str) (caps : list str) :
  m <> [] -> rmatch r (m ++ rest) = Some (caps, rest) ->
  sub r repl (m ++ rest) = repl caps ++ sub r repl rest.
Proof.
  intros Hm H. destruct m as [|c m]; [contradiction|].
  unfold sub. change ((c :: m) ++ rest) with (c :: m ++ rest) in *.
  rewrite sub_from_cons, H.
  replace (length (c :: m ++ rest) - length rest) with (S (length m))
    by (change (length (c :: m ++ rest)) with (S (length (m ++ rest)));
        rewrite length_app; lia).
  rewrite sub_from_skip. reflexivity.
Qed.

(** Either nothing matched and the text is unchanged, or the text of
    a replacement occurs in the result. *)
Lemma sub_from_unchanged_or_replaced (s : str) (skip : nat) :
  sub_from r repl skip s = skipn skip s
  \/ exists caps a b, sub_from r repl skip s = a ++ repl caps ++ b.
Proof.
  revert skip; induction s as [|c s IH]; intros skip.
  - destruct skip; simpl; [|left; reflexivity].
    destruct (rmatch r []) as [[caps rest]|]; [|left; reflexivity].
    right. exists caps, [], []. rewrite app_nil_r. reflexivity.
  - destruct skip as [|k]; [|apply IH].
    rewrite sub_from_cons.
    destruct (rmatch r (c :: s)) as [[caps rest]|].
    + right. exists caps, [].
      destruct (length (c :: s) - length rest); eexists; reflexivity.
    + destruct (IH 0) as [E | (caps & a & b & E)].
      * left. rewrite E. reflexivity.
      * right. exists caps, (c :: a), b. rewrite E. reflexivity.
Qed.

Lemma sub_unchanged_or_replaced (s : str) :
  sub r repl s = s \/ exists caps a b, sub r repl s = a ++ repl caps ++ b.
Proof. apply (sub_from_unchanged_or_replaced s 0). Qed.

End Sub.

End ReFacts.

(** ** Claims on [fix_module_imports] and on the identifiers *)

(** C9, as stated, fails: the line [import  AuthUI], with two spaces, is
    dropped although its stripped form is not ["import M"] for any
    internal module [M]. *)
Lemma fix_module_imports_drops_spaced_import :
  let line := lit "import  AuthUI" in
  stripped_is_import line = false
  /\ FixModuleImports.is_internal_import line = true
  /\ FixModuleImports.new_content
       (lit "import SwiftUI" ++ nl ++ line ++ nl ++ lit "struct A {}")
     = lit "import SwiftUI" ++ nl ++ lit "struct A {}".
Proof. vm_compute. repeat split; reflexivity. Qed.

(** C9, amended: for every input text the import-fixing operation drops
    exactly the lines whose stripped form is ["import "], then any run
    of whitespace, then the name of an internal module; it keeps every
    other line unchanged and in order; and applying it to its own output
    changes nothing. *)
Theorem fix_module_imports_frame_and_idempotent (content : str) :
  FixModuleImports.new_content content
    = join nl (filter kept (split 10%N content))
  /\ (forall line,
        kept line = false <->
        exists ws M, forallb isspace ws = true
                     /\ In M FixModuleImports.internal_modules
                     /\ strip line = lit "import " ++ ws ++ M)
  /\ FixModuleImports.new_content (FixModuleImports.new_content content)
     = FixModuleImports.new_content content
  /\ FixModuleImports.fix_file (FixModuleImports.fix_file content)
     = FixModuleImports.fix_file content.
Proof.
  split; [apply FixModuleImportsFacts.new_content_filter|].
  split.
  { intros line. unfold kept. rewrite negb_false_iff.
    apply FixModuleImportsFacts.is_internal_import_spec. }
  split; [apply FixModuleImportsFacts.new_content_idempotent|].
  rewrite !FixModuleImportsFacts.fix_file_new_content.
  apply FixModuleImportsFacts.new_content_idempotent.
Qed.

Module ModifyHorizonProjectFacts.

Import ModifyHorizonProject.

Lemma not_contains_upper_hex (needle u : str) :
  forallb is_upper_hex needle = false ->
  Forall (fun c => is_upper_hex c = true) u ->
  contains needle u = false.
Proof.
  intros Hn Hu. destruct (contains needle u) eqn:E; [|reflexivity].
  apply (contains_Forall _ _ _ E) in Hu.
  rewrite Forall_forall in Hu.
  assert (forallb is_upper_hex needle = true) as H
      by (apply forallb_forall; exact Hu).
  congruence.
Qed.

(** On a text of the identifier alphabet no name test succeeds. *)
Lemma get_product_name_upper_hex (u : str) (ps : list package) :
  Forall (fun c => is_upper_hex c = true) u ->
  get_product_name u ps = lit "Package".
Proof.
  intros Hu. unfold get_product_name.
  rewrite !not_contains_upper_hex by (exact Hu || (vm_compute; reflexivity)).
  reflexivity.
Qed.

Lemma add_package_generated (rnd : nat -> N) (p : package)
      (acc : sections) (k : nat) :
  Forall generated (product_dependencies acc) ->
  Forall generated (product_dependencies (fst (add_package rnd p acc k))).
Proof.
  intros H. unfold add_package, Uuid.bind, Uuid.generate_uuid, Uuid.ret.
  destruct (str_eqb (name p) (lit "Nuke")); simpl;
    apply Forall_app; (split; [exact H|]);
    repeat constructor; eexists; reflexivity.
Qed.

Lemma build_sections_generated (rnd : nat -> N) (ps : list package) :
  forall (acc : sections) (k : nat),
    Forall generated (product_dependencies acc) ->
    Forall generated
           (product_dependencies (fst (build_sections rnd ps acc k))).
Proof.
  induction ps as [|p ps IH]; intros acc k H; simpl; [exact H|].
  unfold Uuid.bind.
  pose proof (add_package_generated rnd p acc k H) as H'.
  destruct (add_package rnd p acc k) as [acc' k']. apply IH. exact H'.
Qed.

End ModifyHorizonProjectFacts.

(** C8, as stated, fails: two different random values give the same
    identifier, twice in one session, and that identifier is the key of
    a record of the loaded project. *)
Lemma generate_uuid_repeats_identifier :
  Samples.colliding_rnd 0 <> Samples.colliding_rnd 1
  /\ fst (Uuid.session Samples.colliding_rnd 2 0)
     = [lit "00000000000040008000000000000000";
        lit "00000000000040008000000000000000"]
  /\ Pbx.defines_node (fst (Uuid.generate_uuid Samples.colliding_rnd 0))
                      Samples.project_with_generated_id = true.
Proof.
  split; [discriminate|]. split; vm_compute; reflexivity.
Qed.

Lemma NoDup_map_iff (A B C : Type) (f : A -> B) (g : A -> C) (l : list A) :
  (forall x y, f x = f y <-> g x = g y) ->
  NoDup (List.map f l) <-> NoDup (List.map g l).
Proof.
  intros H. induction l as [|a l IH]; simpl.
  - split; constructor.
  - assert (Hin : In (f a) (List.map f l) <-> In (g a) (List.map g l)).
    { rewrite !in_map_iff.
      split; intros (x & E & Hx); exists x; (split; [|exact Hx]);
        apply H; exact E. }
    split; intros Hn; inversion Hn; subst; constructor; tauto.
Qed.

(** C8, amended: the identifiers of a session are the 32 digits of the
    UUID values built from the successive random values; two of them are
    equal exactly when those UUID values are equal, so they are pairwise
    distinct exactly when the UUID values are.  The allocator takes
    neither the document nor the earlier identifiers into account. *)
Theorem generate_uuid_distinct_iff (rnd : nat -> N) (n k : nat) :
  fst (Uuid.session rnd n k)
    = List.map (fun i => Uuid.generate_uuid_of (rnd i)) (seq k n)
  /\ (forall i j,
        Uuid.generate_uuid_of (rnd i) = Uuid.generate_uuid_of (rnd j)
        <-> Uuid.uuid4_int (rnd i) = Uuid.uuid4_int (rnd j))
  /\ (NoDup (fst (Uuid.session rnd n k))
      <-> NoDup (List.map (fun i => Uuid.uuid4_int (rnd i)) (seq k n))).
Proof.
  rewrite UuidFacts.session_draws. cbn [fst].
  split; [reflexivity|].
  split; [intros i j; apply UuidFacts.generate_uuid_of_inj|].
  apply NoDup_map_iff. intros i j. apply UuidFacts.generate_uuid_of_inj.
Qed.

(** ** Writing the project file *)

Module DiskFacts.

Import Disk.

Lemma update_same (d : disk) (p : path) (v : str) : update d p v p = Some v.
Proof. unfold update. rewrite String.eqb_refl. reflexivity. Qed.

Lemma update_other (d : disk) (p q : path) (v : str) :
  q <> p -> update d p v q = d q.
Proof.
  intros H. unfold update. apply String.eqb_neq in H. rewrite H.
  reflexivity.
Qed.

Lemma exec_app (a b : list op) (d : disk) :
  exec (a ++ b) d = exec b (exec a d).
Proof. revert d; induction a as [|o a IH]; intros d; simpl; auto. Qed.

(** Writing characters appends them to the file. *)
Lemma exec_write_chars (p : path) (data : str) :
  forall (d : disk) (old : str),
    d p = Some old ->
    exec (List.map (WriteChar p) data) d p = Some (old ++ data)
    /\ forall q, q <> p -> exec (List.map (WriteChar p) data) d q = d q.
Proof.
  induction data as [|c data IH]; intros d old Hd; simpl.
  - rewrite app_nil_r. auto.
  - rewrite Hd.
    destruct (IH (update d p (old ++ [c])) (old ++ [c]) (update_same _ _ _))
      as [H1 H2].
    rewrite <- app_assoc in H1. split; [exact H1|].
    intros q Hq. rewrite H2 by exact Hq. apply update_other. exact Hq.
Qed.

Lemma firstn_write_ops (p : path) (data : str) (k : nat) :
  firstn k (List.map (WriteChar p) data ++ [Close p])
  = List.map (WriteChar p) (firstn k data)
      ++ firstn (k - length data) [Close p].
Proof.
  rewrite firstn_app, firstn_map, length_map. reflexivity.
Qed.

Lemma exec_close_prefix (p : path) (n : nat) (d : disk) :
  exec (firstn n [Close p]) d = d.
Proof. destruct n as [|[|n]]; reflexivity. Qed.

(** The file after [n] operations of [write_file]: untouched before
    the first one, then the characters written so far. *)
Lemma interrupted_write_file (p : path) (data : str) (d : disk) (n : nat) :
  (interrupted n (write_file p data) d p
   = match n with
     | O => d p
     | S k => Some (firstn k data)
     end)
  /\ forall q, q <> p -> interrupted n (write_file p data) d q = d q.
Proof.
  unfold interrupted, write_file. destruct n as [|k].
  - simpl. auto.
  - rewrite firstn_cons. simpl exec.
    rewrite firstn_write_ops, exec_app, exec_close_prefix.
    destruct (exec_write_chars p (firstn k data) (update d p []) []
                               (update_same _ _ _)) as [H1 H2].
    split; [exact H1|].
    intros q Hq. rewrite H2 by exact Hq. apply update_other. exact Hq.
Qed.

Lemma exec_write_file (p : path) (data : str) (d : disk) :
  exec (write_file p data) d p = Some data.
Proof.
  pose proof (interrupted_write_file p data d (S (S (length data)))) as [H _].
  unfold interrupted in H. rewrite firstn_all2 in H.
  - rewrite H. rewrite firstn_all2; [reflexivity | lia].
  - unfold write_file. simpl. rewrite length_app, length_map. simpl. lia.
Qed.

End DiskFacts.


(** ** Edge lists *)

Module PbxFacts.

Import Pbx.

Lemma scan_app (a : str) :
  forall (st : scan_state) (b : str),
    scan st (a ++ b) =
      match scan st a with
      | (ids, Some st') =>
          let '(ids', e) := scan st' b in (ids ++ ids', e)
      | (ids, None) => (ids, None)
      end.
Proof.
  induction a as [|c a IH]; intros st b.
  - simpl. destruct (scan st b). reflexivity.
  - destruct st; simpl;
      repeat match goal with
             | |- context [if ?x then _ else _] => destruct x
             end;
      try reflexivity; try apply IH;
      rewrite IH;
      repeat match goal with
             | |- context [scan ?s ?t] => destruct (scan s t) as [? [?|]]
             end; reflexivity.
Qed.

Lemma isspace_not_paren (c : char) :
  isspace c = true -> char_eqb c 41%N = false.
Proof.
  intros H. destruct (char_eqb c 41%N) eqn:E; [|reflexivity].
  apply char_eqb_eq in E. subst. discriminate H.
Qed.

(** An empty list: only whitespace before the closing parenthesis. *)
Lemma scan_empty_list (ws post : str) :
  forallb isspace ws = true ->
  scan Gap (ws ++ lit ");" ++ post) = ([], None).
Proof.
  induction ws as [|c ws IH]; simpl; [reflexivity|].
  rewrite andb_true_iff. intros [Hc Hws].
  rewrite (isspace_not_paren _ Hc), Hc. simpl. apply IH. exact Hws.
Qed.

Lemma edge_list_empty (ws post : str) :
  forallb isspace ws = true -> edge_list (ws ++ lit ");" ++ post) = [].
Proof.
  intros H. unfold edge_list. rewrite scan_empty_list by exact H.
  reflexivity.
Qed.

(** Entries written in front of the closing parenthesis of an empty
    list are the entries of the list. *)
Lemma edge_list_filled (entries : str) (ids : list str) (ws post : str) :
  scan Gap entries = (ids, Some Gap) ->
  forallb isspace ws = true ->
  edge_list (entries ++ ws ++ lit ");" ++ post) = ids.
Proof.
  intros He H. unfold edge_list. rewrite scan_app, He.
  rewrite scan_empty_list by exact H. apply app_nil_r.
Qed.

Lemma distinct_NoDup (l : list str) : distinct l = true -> NoDup l.
Proof.
  induction l as [|x l IH]; simpl; [constructor|].
  rewrite andb_true_iff, negb_true_iff. intros [Hx Hl].
  constructor; [|apply IH; exact Hl].
  intros Hin. apply mem_In in Hin. congruence.
Qed.

Lemma fills_app_keep (field entries a t t' : str) :
  fills_empty_lists field entries t t' ->
  fills_empty_lists field entries (a ++ t) (a ++ t').
Proof.
  intros H. induction a as [|c a IH]; simpl; [exact H|].
  constructor. exact IH.
Qed.

End PbxFacts.

(** ** The substitutions of add_frameworks.py and complete_framework_fix.py *)

Module AddFrameworksFacts.

Import Re AddFrameworks.

(** The shape of a match of [frameworks_pattern]: the head of the
    Frameworks record, any text, the opening of a file list that holds
    only whitespace, and any text up to the next [};]. *)
Lemma frameworks_pattern_match (s rest : str) (caps : list str) :
  rmatch frameworks_pattern s = Some (caps, rest) ->
  exists x ws y,
    forallb isspace ws = true
    /\ caps = [lit "1D1A9BBB2E761986002B8F85 /* Frameworks */ = {" ++ x
                 ++ lit "files = (";
               ws ++ lit ");" ++ y ++ lit "};"]
    /\ s = nth 0 caps [] ++ nth 1 caps [] ++ rest.
Proof.
  intros H. apply ReFacts.rmatch_sound in H. destruct H as (m & -> & M).
  unfold frameworks_pattern in M. invert_matches.
  match goal with
  | H : forallb isspace ?w = true |- _ => rename w into ws
  end.
  match goal with
  | H1 : forallb any_char ?a = true, H2 : forallb any_char ?b = true |- _ =>
      exists a, ws, b
  end.
  split; [assumption|]. cbn [app nth].
  split; [reflexivity|]. rewrite <- !app_assoc. reflexivity.
Qed.

Lemma replace_frameworks_entries (g1 g2 : str) :
  replace_frameworks [g1; g2] = g1 ++ framework_entries ++ g2.
Proof.
  unfold replace_frameworks, framework_entries, group. simpl nth.
  rewrite <- !app_assoc. reflexivity.
Qed.

Lemma sub_frameworks_fills (n : nat) :
  forall content,
    length content <= n ->
    fills_empty_lists (lit "files") framework_entries content
      (sub frameworks_pattern replace_frameworks content).
Proof.
  induction n as [|n IH]; intros content Hn.
  - destruct content; [|simpl in Hn; lia].
    rewrite ReFacts.sub_nil_nomatch by (vm_compute; reflexivity).
    constructor.
  - destruct content as [|c s].
    { rewrite ReFacts.sub_nil_nomatch by (vm_compute; reflexivity).
      constructor. }
    destruct (rmatch frameworks_pattern (c :: s)) as [[caps rest]|] eqn:E.
    + destruct (frameworks_pattern_match _ _ _ E) as (x & ws & y & Hws & -> & Es).
      cbn [nth] in Es.
      set (g1 := lit "1D1A9BBB2E761986002B8F85 /* Frameworks */ = {" ++ x
                   ++ lit "files = (") in *.
      set (g2 := ws ++ lit ");" ++ y ++ lit "};") in *.
      assert (Hlen : length rest < length (c :: s)).
      { rewrite Es. unfold g1. rewrite !length_app.
        change (length (lit "1D1A9BBB2E761986002B8F85 /* Frameworks */ = {"))
          with 45. lia. }
      rewrite Es in E |- *. rewrite app_assoc in E |- *.
      rewrite ReFacts.sub_match with (caps := [g1; g2]); [| |exact E].
      2:{ unfold g1. intros Hnil. apply (f_equal (@length _)) in Hnil.
          rewrite !length_app in Hnil.
          change (length (lit "1D1A9BBB2E761986002B8F85 /* Frameworks */ = {"))
            with 45 in Hnil. simpl in Hnil. lia. }
      rewrite replace_frameworks_entries.
      unfold g1, g2. rewrite <- !app_assoc.
      apply PbxFacts.fills_app_keep. apply PbxFacts.fills_app_keep.
      change (lit "files = (") with (lit "files" ++ lit " = (").
      rewrite <- !app_assoc.
      apply fill_list; [exact Hws|].
      apply PbxFacts.fills_app_keep. apply PbxFacts.fills_app_keep.
      apply IH. cbn [length] in Hlen, Hn. lia.
    + rewrite ReFacts.sub_cons_nomatch by exact E.
      constructor. apply IH. simpl in Hn. lia.
Qed.

Lemma scan_framework_entries :
  Pbx.scan Pbx.Gap framework_entries = (framework_entry_ids, Some Pbx.Gap).
Proof. vm_compute. reflexivity. Qed.

(** Whenever the substitution fills a list, the guarded step that
    follows is skipped: its guard finds the identifier just written. *)
Lemma buildfile_entries_skipped_after_fill (content : str) :
  sub frameworks_pattern replace_frameworks content = content
  \/ new_content content
     = sub frameworks_pattern replace_frameworks content.
Proof.
  destruct (ReFacts.sub_unchanged_or_replaced
              frameworks_pattern replace_frameworks content)
    as [E | (caps & a & b & E)]; [left; exact E | right].
  unfold new_content. rewrite E.
  assert (H : contains (lit "1D60000F22D4FAF6008BF43F")
                       (a ++ replace_frameworks caps ++ b) = true).
  { apply contains_app_r, contains_app_l. unfold replace_frameworks.
    apply contains_app_r, contains_app_l.
    vm_compute. reflexivity. }
  rewrite H. reflexivity.
Qed.

End AddFrameworksFacts.

Module CompleteFrameworkFixFacts.

Import Re CompleteFrameworkFix.

Lemma group_pattern_match (s rest : str) (caps : list str) :
  rmatch group_pattern s = Some (caps, rest) ->
  exists x ws,
    forallb isspace ws = true
    /\ caps = [lit "1D1A9BB52E761986002B8F85 = {" ++ x
                 ++ lit "children = (";
               ws ++ lit ");"]
    /\ s = nth 0 caps [] ++ nth 1 caps [] ++ rest.
Proof.
  intros H. apply ReFacts.rmatch_sound in H. destruct H as (m & -> & M).
  unfold group_pattern in M. invert_matches.
  match goal with
  | H : forallb isspace ?w = true |- _ => rename w into ws
  end.
  match goal with
  | H1 : forallb any_char ?a = true |- _ => exists a, ws
  end.
  split; [assumption|]. cbn [app nth].
  split; [reflexivity|]. rewrite <- !app_assoc. reflexivity.
Qed.

Lemma add_products_entry (g1 g2 : str) :
  add_products [g1; g2] = g1 ++ products_entry ++ g2.
Proof.
  unfold add_products, products_entry, group. simpl nth.
  rewrite <- !app_assoc. reflexivity.
Qed.

Lemma sub_group_fills (n : nat) :
  forall content,
    length content <= n ->
    fills_empty_lists (lit "children") products_entry content
      (sub group_pattern add_products content).
Proof.
  induction n as [|n IH]; intros content Hn.
  - destruct content; [|simpl in Hn; lia].
    rewrite ReFacts.sub_nil_nomatch by (vm_compute; reflexivity).
    constructor.
  - destruct content as [|c s].
    { rewrite ReFacts.sub_nil_nomatch by (vm_compute; reflexivity).
      constructor. }
    destruct (rmatch group_pattern (c :: s)) as [[caps rest]|] eqn:E.
    + destruct (group_pattern_match _ _ _ E) as (x & ws & Hws & -> & Es).
      cbn [nth] in Es.
      set (g1 := lit "1D1A9BB52E761986002B8F85 = {" ++ x
                   ++ lit "children = (") in *.
      set (g2 := ws ++ lit ");") in *.
      assert (Hlen : length rest < length (c :: s)).
      { rewrite Es. unfold g1. rewrite !length_app.
        change (length (lit "1D1A9BB52E761986002B8F85 = {")) with 28. lia. }
      rewrite Es in E |- *. rewrite app_assoc in E |- *.
      rewrite ReFacts.sub_match with (caps := [g1; g2]); [| |exact E].
      2:{ unfold g1. intros Hnil. apply (f_equal (@length _)) in Hnil.
          rewrite !length_app in Hnil.
          change (length (lit "1D1A9BB52E761986002B8F85 = {"))
            with 28 in Hnil. simpl in Hnil. lia. }
      rewrite add_products_entry.
      unfold g1, g2. rewrite <- !app_assoc.
      apply PbxFacts.fills_app_keep. apply PbxFacts.fills_app_keep.
      change (lit "children = (") with (lit "children" ++ lit " = (").
      rewrite <- !app_assoc.
      apply fill_list; [exact Hws|].
      apply IH. cbn [length] in Hlen, Hn. lia.
    + rewrite ReFacts.sub_cons_nomatch by exact E.
      constructor. apply IH. simpl in Hn. lia.
Qed.

Lemma scan_products_entry :
  Pbx.scan Pbx.Gap products_entry
  = ([lit "1D60002922D4FAF6008BF43F"], Some Pbx.Gap).
Proof. vm_compute. reflexivity. Qed.

(** The guarded step that adds the package references is idempotent. *)
Lemma add_package_references_idempotent (content : str) :
  add_package_references (add_package_references content)
  = add_package_references content.
Proof.
  unfold add_package_references at 2 3.
  destruct (contains (lit "XCRemoteSwiftPackageReference") content) eqn:E;
    cbn [negb].
  - unfold add_package_references. rewrite E. reflexivity.
  - destruct (ReFacts.sub_unchanged_or_replaced project_pattern add_packages
                                                content)
      as [Hs | (caps & a & b & ->)].
    + rewrite Hs. unfold add_package_references. rewrite E. exact Hs.
    + unfold add_package_references.
      assert (H : contains (lit "XCRemoteSwiftPackageReference")
                           (a ++ add_packages caps ++ b) = true).
      { apply contains_app_r, contains_app_l. unfold add_packages.
        apply contains_app_r, contains_app_r, contains_app_r,
              contains_app_l.
        vm_compute. reflexivity. }
      rewrite H. reflexivity.
Qed.

(** Whenever the build files are added, the file references are not:
    the guard of the second step finds its text in the entries the
    first step has written. *)
Lemma fileref_entries_skipped_after_buildfiles (content : str) :
  add_buildfile_entries content = content
  \/ add_fileref_entries (add_buildfile_entries content)
     = add_buildfile_entries content.
Proof.
  unfold add_buildfile_entries.
  destruct (contains (lit "1D60000F22D4FAF6008BF43F") content);
    [left; reflexivity|]. cbn [negb].
  destruct (ReFacts.sub_unchanged_or_replaced
              buildfile_pattern
              (fun caps => group 1 caps ++ buildfile_entries) content)
    as [E | (caps & a & b & E)]; [left; exact E | right].
  rewrite E. unfold add_fileref_entries.
  assert (H : contains (lit "1D60000E22D4FAF6008BF43F /* UIKit.framework */")
                (a ++ (group 1 caps ++ buildfile_entries) ++ b) = true).
  { apply contains_app_r, contains_app_l, contains_app_r.
    vm_compute. reflexivity. }
  rewrite H. reflexivity.
Qed.

End CompleteFrameworkFixFacts.

(** ** The lists of a text before and after a filling *)

Module EdgeListFacts.

Import Pbx.

Lemma startswith_app_inv (p a b : str) :
  startswith p (a ++ b) = true ->
  (exists r, a = p ++ r) \/ (exists z, z <> [] /\ p = a ++ z).
Proof.
  revert a; induction p as [|x p IH]; intros a H.
  - left. exists a. reflexivity.
  - destruct a as [|y a].
    + right. exists (x :: p). split; [discriminate | reflexivity].
    + simpl in H. apply andb_true_iff in H. destruct H as [Hx H].
      apply char_eqb_eq in Hx. subst y.
      destruct (IH a H) as [(r & ->) | (z & Hz & ->)].
      * left. exists r. reflexivity.
      * right. exists z. split; [exact Hz | reflexivity].
Qed.

(** The answer of [startswith] depends on the first characters only. *)
Lemma startswith_long (p a x y : str) :
  length p <= length a ->
  startswith p (a ++ x) = startswith p (a ++ y).
Proof.
  revert a; induction p as [|c p IH]; intros a H; [reflexivity|].
  destruct a as [|d a]; simpl in H; [lia|].
  simpl. rewrite (IH a) by lia. reflexivity.
Qed.

Lemma find_first (needle a b : str) :
  exists i, find needle (a ++ needle ++ b) = Some i /\ i <= length a.
Proof.
  induction a as [|c a (i & E & Hi)].
  - exists 0. simpl app. split; [|lia].
    destruct (needle ++ b) eqn:Eq; simpl; rewrite <- Eq;
      rewrite startswith_app; reflexivity.
  - simpl app. simpl find.
    destruct (startswith needle (c :: a ++ needle ++ b)).
    + exists 0. split; [reflexivity | lia].
    + rewrite E. exists (S i). split; [reflexivity | simpl; lia].
Qed.

Lemma closes_app (a b : str) :
  closes a = true -> scan Gap (a ++ b) = scan Gap a.
Proof.
  unfold closes. intros H. rewrite PbxFacts.scan_app.
  destruct (scan Gap a) as [ids [st|]]; [discriminate | reflexivity].
Qed.

Lemma edge_list_closed (a b c : str) :
  closes a = true -> edge_list (a ++ b) = edge_list (a ++ c).
Proof.
  intros H. unfold edge_list. rewrite !closes_app by exact H.
  reflexivity.
Qed.

Section Filling.

Variables (field entries : str) (ids : list str).

Let opening : str := field ++ lit " = (".

Hypothesis opening_apart : starts_apart opening = true.
Hypothesis entries_free : free_of opening entries = true.
Hypothesis entries_ids : scan Gap entries = (ids, Some Gap).

Lemma opening_length : length opening = length field + 4.
Proof. unfold opening. rewrite length_app. reflexivity. Qed.

Lemma edge_lists_cons (c : char) (t : str) :
  edge_lists field (c :: t)
  = (if startswith opening (c :: t)
     then [edge_list (skipn (length opening) (c :: t))] else [])
      ++ edge_lists field t.
Proof. rewrite opening_length. reflexivity. Qed.

(** The first character of the opening, and what is known of it. *)
Lemma opening_head :
  exists f0 rest,
    opening = f0 :: rest /\ ~ In f0 rest /\ isspace f0 = false
    /\ f0 <> 41%N /\ f0 <> 59%N.
Proof.
  pose proof opening_apart as H. unfold starts_apart in H.
  destruct opening as [|f0 rest]; [discriminate|].
  exists f0, rest.
  rewrite !andb_true_iff, !negb_true_iff in H.
  destruct H as [[[H1 H2] H3] H4].
  split; [reflexivity|]. split.
  - intros Hin.
    assert (existsb (char_eqb f0) rest = true) as E.
    { apply existsb_exists. exists f0.
      split; [exact Hin | apply char_eqb_refl]. }
    congruence.
  - split; [exact H2|]. split; intros ->.
    + rewrite char_eqb_refl in H3. discriminate.
    + rewrite char_eqb_refl in H4. discriminate.
Qed.

(** No list opens at a character that is not the first of the
    opening. *)
Lemma edge_lists_skip (z y : str) :
  (forall f0 rest, opening = f0 :: rest -> ~ In f0 z) ->
  edge_lists field (z ++ y) = edge_lists field y.
Proof.
  intros H. induction z as [|c z IH]; [reflexivity|].
  simpl app. rewrite edge_lists_cons.
  destruct (startswith opening (c :: z ++ y)) eqn:E.
  - destruct opening_head as (f0 & rest & Eo & _).
    rewrite Eo in E. simpl in E. apply andb_true_iff in E.
    destruct E as [E _]. apply char_eqb_eq in E. subst c.
    exfalso. apply (H f0 rest Eo). left. reflexivity.
  - simpl. apply IH. intros f0 rest Eo Hin.
    apply (H f0 rest Eo). right. exact Hin.
Qed.

Lemma edge_lists_opening (x : str) :
  edge_lists field (opening ++ x) = edge_list x :: edge_lists field x.
Proof.
  destruct opening_head as (f0 & rest & Eo & Hrest & _).
  pose proof (startswith_app opening x) as Hs.
  pose proof (skipn_app (length opening) opening x) as Hk.
  rewrite skipn_all, Nat.sub_diag in Hk. simpl in Hk.
  revert Hs Hk. rewrite Eo. intros Hs Hk.
  change ((f0 :: rest) ++ x) with (f0 :: rest ++ x) in *.
  rewrite edge_lists_cons. rewrite Eo. rewrite Hs, Hk.
  simpl app. f_equal.
  apply edge_lists_skip. intros f1 rest1 E1.
  rewrite Eo in E1. injection E1 as -> ->. exact Hrest.
Qed.

Lemma edge_lists_closing (ws y : str) :
  forallb isspace ws = true ->
  edge_lists field (ws ++ lit ");" ++ y) = edge_lists field y.
Proof.
  intros Hws. rewrite app_assoc. apply edge_lists_skip.
  intros f0 rest Eo Hin.
  destruct opening_head as (f1 & rest1 & Eo1 & _ & Hsp & H41 & H59).
  rewrite Eo in Eo1. injection Eo1 as <- <-.
  apply in_app_or in Hin. destruct Hin as [Hin | Hin].
  - rewrite forallb_forall in Hws. specialize (Hws f0 Hin). congruence.
  - simpl in Hin. destruct Hin as [E | [E | []]]; congruence.
Qed.

Lemma edge_lists_free (e y : str) :
  free_of opening e = true ->
  edge_lists field (e ++ y) = edge_lists field y.
Proof.
  induction e as [|c e IH]; intros H; [reflexivity|].
  cbn [free_of] in H. rewrite !andb_true_iff, !negb_true_iff in H.
  destruct H as [[H1 H2] H3].
  simpl app. rewrite edge_lists_cons.
  destruct (startswith opening (c :: e ++ y)) eqn:E.
  - apply (startswith_app_inv opening (c :: e) y) in E.
    destruct E as [(r & E) | (z & _ & E)]; exfalso.
    + rewrite E, startswith_app in H1. discriminate H1.
    + rewrite E, startswith_app in H2. discriminate H2.
  - simpl. apply IH. exact H3.
Qed.

Lemma edge_lists_entries (y : str) :
  edge_lists field (entries ++ y) = edge_lists field y.
Proof. apply edge_lists_free. exact entries_free. Qed.

(** A filling leaves the text as it is up to the first opening it
    fills. *)
Lemma fills_common (t t' : str) :
  fills_empty_lists field entries t t' ->
  t' = t
  \/ exists k r r', t = k ++ opening ++ r /\ t' = k ++ opening ++ r'.
Proof.
  induction 1 as [|c t t' H IH | ws t t' Hws H IH].
  - left. reflexivity.
  - destruct IH as [-> | (k & r & r' & -> & ->)].
    + left. reflexivity.
    + right. exists (c :: k), r, r'. split; reflexivity.
  - right. exists [], (ws ++ lit ");" ++ t),
             (entries ++ ws ++ lit ");" ++ t').
    unfold opening. rewrite <- !app_assoc. split; reflexivity.
Qed.

Lemma isolated_tail (c : char) (t : str) :
  isolated field (c :: t) = true -> isolated field t = true.
Proof. simpl. rewrite andb_true_iff. tauto. Qed.

Lemma isolated_app (a t : str) :
  isolated field (a ++ t) = true -> isolated field t = true.
Proof.
  induction a as [|c a IH]; [tauto|].
  intros H. apply IH. apply (isolated_tail c). exact H.
Qed.

Lemma isolated_head (t : str) :
  t <> [] ->
  isolated field t = true ->
  startswith opening t = true ->
  match find opening (skipn (length field + 4) t) with
  | Some i => closes (firstn i (skipn (length field + 4) t)) = true
  | None => True
  end.
Proof.
  intros Ht H Hs. destruct t as [|c t]; [contradiction|].
  cbn [isolated] in H. apply andb_true_iff in H. destruct H as [H _].
  unfold opening in *. rewrite Hs in H.
  destruct (find (field ++ lit " = (")
                 (skipn (length field + 4) (c :: t))); [exact H | exact I].
Qed.

Lemma skipn_opening (x : str) :
  skipn (length field + 4) (opening ++ x) = x.
Proof.
  rewrite <- opening_length, skipn_app, skipn_all, Nat.sub_diag.
  reflexivity.
Qed.

(** In a text whose lists do not nest, a list is closed before the
    next opening. *)
Lemma isolated_closes (a r : str) :
  isolated field (opening ++ a ++ opening ++ r) = true ->
  exists a1 a2, a = a1 ++ a2 /\ closes a1 = true.
Proof.
  intros H. apply isolated_head in H.
  - rewrite skipn_opening in H.
    destruct (find_first opening a r) as (i & Ei & Hi).
    rewrite Ei in H. rewrite firstn_app in H.
    replace (i - length a) with 0 in H by lia.
    simpl in H. rewrite app_nil_r in H.
    exists (firstn i a), (skipn i a).
    split; [symmetry; apply firstn_skipn | exact H].
  - destruct opening_head as (f0 & rest & Eo & _).
    rewrite Eo. discriminate.
  - apply startswith_app.
Qed.

(** Two openings that both start a text cannot overlap. *)
Lemma openings_apart (k r : str) :
  k <> [] ->
  startswith opening (k ++ opening ++ r) = true ->
  exists a, k = opening ++ a.
Proof.
  intros Hk H.
  pose proof H as H0. apply startswith_prefix in H0.
  destruct H0 as (w & Hw).
  apply startswith_app_inv in H.
  destruct H as [H | (z & Hz & E)]; [exact H|].
  exfalso.
  destruct opening_head as (f0 & rest & Eo & Hrest & _).
  assert (Hw' : k ++ opening ++ r = (k ++ z) ++ w)
    by (rewrite <- E; exact Hw).
  rewrite <- app_assoc in Hw'. apply app_inv_head in Hw'.
  destruct k as [|c k]; [contradiction|].
  destruct z as [|z0 z]; [contradiction|].
  rewrite Eo in Hw', E. simpl in Hw', E.
  injection Hw' as Hz0 _. injection E as _ E.
  apply Hrest. rewrite E. apply in_or_app. right. left.
  symmetry. exact Hz0.
Qed.

(** The lists of a text whose lists do not nest, after a filling:
    each is as it was, or was empty and holds the entries. *)
Lemma fills_edge_lists (t t' : str) :
  fills_empty_lists field entries t t' ->
  isolated field t = true ->
  Forall2 (same_or_filled ids) (edge_lists field t) (edge_lists field t').
Proof.
  induction 1 as [|c t t' H IH | ws t t' Hws H IH]; intros Hiso.
  - constructor.
  - specialize (IH (isolated_tail _ _ Hiso)).
    rewrite !edge_lists_cons.
    destruct (fills_common _ _ H) as [-> | (k & r & r' & Et & Et')].
    { destruct (startswith opening (c :: t)); [|exact IH].
      constructor; [left; reflexivity | exact IH]. }
    assert (Hsame : startswith opening (c :: t')
                    = startswith opening (c :: t)).
    { rewrite Et, Et'.
      change (c :: k ++ opening ++ r) with ((c :: k) ++ opening ++ r).
      change (c :: k ++ opening ++ r') with ((c :: k) ++ opening ++ r').
      rewrite !(app_assoc (c :: k)).
      apply startswith_long. rewrite length_app. lia. }
    rewrite Hsame.
    destruct (startswith opening (c :: t)) eqn:Es; [|exact IH].
    constructor; [|exact IH]. left.
    rewrite Et in Es, Hiso |- *. rewrite Et'.
    change (c :: k ++ opening ++ r) with ((c :: k) ++ opening ++ r)
      in Es, Hiso |- *.
    change (c :: k ++ opening ++ r') with ((c :: k) ++ opening ++ r').
    destruct (openings_apart (c :: k) r) as (a & Ea);
      [discriminate | exact Es |].
    rewrite Ea in Hiso |- *.
    rewrite <- app_assoc in Hiso. rewrite <- !app_assoc.
    rewrite !skipn_app, !skipn_all, Nat.sub_diag. simpl.
    destruct (isolated_closes _ _ Hiso) as (a1 & a2 & -> & Hc).
    rewrite <- !app_assoc. apply edge_list_closed. exact Hc.
  - assert (Hiso' : isolated field t = true).
    { apply (isolated_app (field ++ lit " = (" ++ ws ++ lit ");")).
      rewrite <- !app_assoc. exact Hiso. }
    specialize (IH Hiso').
    change (field ++ lit " = (" ++ ws ++ lit ");" ++ t)
      with (field ++ lit " = (" ++ (ws ++ lit ");" ++ t)).
    change (field ++ lit " = (" ++ entries ++ ws ++ lit ");" ++ t')
      with (field ++ lit " = (" ++ (entries ++ ws ++ lit ");" ++ t')).
    rewrite !(app_assoc field). fold opening.
    rewrite !edge_lists_opening.
    rewrite edge_lists_entries, !edge_lists_closing by exact Hws.
    constructor; [|exact IH]. right. split.
    + apply PbxFacts.edge_list_empty. exact Hws.
    + apply PbxFacts.edge_list_filled; [exact entries_ids | exact Hws].
Qed.

(** Lists without duplicates stay so when empty ones receive
    distinct entries. *)
Lemma fills_keeps_distinct (t t' : str) :
  fills_empty_lists field entries t t' ->
  isolated field t = true ->
  distinct ids = true ->
  forallb distinct (edge_lists field t) = true ->
  forallb distinct (edge_lists field t') = true.
Proof.
  intros H Hiso Hids. apply fills_edge_lists in H; [|exact Hiso].
  induction H as [|l l' ls ls' [-> | [-> ->]] _ IH]; simpl;
    rewrite ?andb_true_iff; intuition.
Qed.

End Filling.

End EdgeListFacts.

(** ** Package references *)

Module PackageFacts.

Import ModifyHorizonProject.

Lemma find_le (needle hay : str) (i : nat) :
  find needle hay = Some i -> i <= length hay.
Proof.
  revert i; induction hay as [|c hay IH]; intros i; simpl.
  - destruct (startswith needle []); [intros [= <-]; lia | discriminate].
  - destruct (startswith needle (c :: hay)); [intros [= <-]; lia|].
    destruct (find needle hay) as [j|]; simpl; [|discriminate].
    intros [= <-]. specialize (IH j eq_refl). lia.
Qed.

(** Whenever the end marker of the build-file section occurs, the new
    sections are spliced in right after its first occurrence. *)
Lemma insert_sections_splice (s : sections) (content : str) :
  contains build_file_end content = true ->
  exists pre post,
    content = pre ++ build_file_end ++ post
    /\ insert_sections s content
       = pre ++ build_file_end ++ references_section s ++ post.
Proof.
  intros H. destruct (find_contains _ _ H) as (i & Hi).
  unfold insert_sections, slice_to, slice_from. rewrite Hi.
  pose proof (find_Some _ _ _ Hi) as E.
  pose proof (find_le _ _ _ Hi) as Hle.
  set (n := i + length build_file_end) in *.
  exists (firstn i content), (skipn n content).
  split; [exact E|].
  assert (Hpre : firstn n content = firstn i content ++ build_file_end).
  { apply (app_inv_tail (skipn n content)).
    rewrite firstn_skipn, <- app_assoc. exact E. }
  rewrite Hpre, <- !app_assoc. reflexivity.
Qed.

Lemma insert_sections_absent (s : sections) (content : str) :
  contains build_file_end content = false ->
  insert_sections s content = content.
Proof.
  intros H. unfold insert_sections.
  destruct (find build_file_end content) as [i|] eqn:E; [|reflexivity].
  apply find_Some in E.
  assert (contains build_file_end content = true) as H'
      by (apply contains_split; eauto).
  congruence.
Qed.

Lemma add_package_references_length (rnd : nat -> N) (p : package)
      (acc : sections) (k : nat) :
  length (package_references (fst (add_package rnd p acc k)))
  = S (length (package_references acc)).
Proof.
  unfold add_package, Uuid.bind, Uuid.generate_uuid, Uuid.ret.
  destruct (str_eqb (name p) (lit "Nuke")); cbn [fst package_references];
    rewrite length_app; simpl; lia.
Qed.

(** One package reference is built for every entry of the table. *)
Lemma build_sections_references_length (rnd : nat -> N)
      (ps : list package) :
  forall (acc : sections) (k : nat),
    length (package_references (fst (build_sections rnd ps acc k)))
    = length (package_references acc) + length ps.
Proof.
  induction ps as [|p ps IH]; intros acc k; simpl; [lia|].
  unfold Uuid.bind.
  pose proof (add_package_references_length rnd p acc k) as H.
  destruct (add_package rnd p acc k) as [acc' k']. rewrite IH.
  cbn [fst] in H. lia.
Qed.

End PackageFacts.



(** ** Running the framework scripts on a project *)

(** C1: on a project whose Frameworks phase is followed by a Resources
    phase with an empty file list, the second run of [add_frameworks]
    changes the text again: its pattern runs from the head of the
    Frameworks record, whose list is now filled, to the next empty
    list, and fills the file list of the Resources phase. *)
Theorem add_frameworks_second_run_changes_project :
  let once := AddFrameworks.new_content Samples.horizon_project in
  let twice := AddFrameworks.new_content once in
  str_eqb twice once = false
  /\ Pbx.edge_list_of Samples.frameworks_phase (lit "files")
                      Samples.horizon_project = Some []
  /\ Pbx.edge_list_of Samples.frameworks_phase (lit "files") once
     = Some framework_entry_ids
  /\ Pbx.edge_list_of Samples.frameworks_phase (lit "files") twice
     = Some framework_entry_ids
  /\ Pbx.edge_list_of Samples.resources_phase (lit "files") once = Some []
  /\ Pbx.edge_list_of Samples.resources_phase (lit "files") twice
     = Some framework_entry_ids.
Proof. vm_compute. repeat split; reflexivity. Qed.

Module ConvertFacts.

Import ConvertToXcodeproj.

Lemma file_loop_entries (rnd : nat -> N) (all_files : list str) :
  forall (build_files file_refs : list str) (k : nat),
    file_loop rnd all_files build_files file_refs k
    = ((build_files ++ entries build_file_entry rnd k all_files,
        file_refs ++ entries file_ref_entry rnd k all_files),
       k + length all_files).
Proof.
  induction all_files as [|f fs IH]; intros bf fr k; simpl.
  - unfold Uuid.ret. rewrite !app_nil_r, Nat.add_0_r. reflexivity.
  - unfold Uuid.bind, Uuid.generate_uuid. rewrite IH.
    rewrite <- !app_assoc. simpl. f_equal. lia.
Qed.

Lemma sources_files_entries (rnd : nat -> N) (all_files : list str) :
  forall k,
    sources_files rnd all_files k
    = (entries sources_entry rnd k all_files, k + length all_files).
Proof.
  induction all_files as [|f fs IH]; intros k; simpl.
  - unfold Uuid.ret. rewrite Nat.add_0_r. reflexivity.
  - unfold Uuid.bind, Uuid.generate_uuid. rewrite IH. unfold Uuid.ret.
    f_equal. lia.
Qed.

End ConvertFacts.

(** C2: the scripts leave references to records that do not exist.
    After [add_frameworks] the file list of the Frameworks phase names
    twelve build files, none of which is a record of the project: the
    guard that should add them looks for the first identifier in the
    text the substitution has just put it into.  After
    [complete_framework_fix] the build files exist and refer to file
    references that do not, for the same reason.  In the project
    [convert_to_xcodeproj] generates, the Sources phase lists an
    identifier drawn anew (the draw number 23 of a run with one Swift
    file), which is the key of no build file.  The two slips do not
    depend on the project: whenever [add_frameworks] fills a list it
    adds no build file, and whenever [complete_framework_fix] adds the
    build files it adds no file reference. *)
Theorem framework_scripts_leave_dangling_references :
  let out := AddFrameworks.new_content Samples.horizon_project in
  let fixed := CompleteFrameworkFix.new_content Samples.horizon_project in
  let generated :=
    fst (ConvertToXcodeproj.file_loop Samples.counting_rnd Samples.app_files
                                      [] [] 2) in
  let sources :=
    fst (ConvertToXcodeproj.sources_files Samples.counting_rnd
                                          Samples.app_files 23) in
  Pbx.edge_list_of Samples.frameworks_phase (lit "files") out
  = Some framework_entry_ids
  /\ forallb (fun id => negb (Pbx.defines_node id out)) framework_entry_ids
     = true
  /\ Pbx.defines_node (lit "1D60000F22D4FAF6008BF43F") fixed = true
  /\ contains (lit "fileRef = 1D60000E22D4FAF6008BF43F") fixed = true
  /\ Pbx.defines_node (lit "1D60000E22D4FAF6008BF43F") fixed = false
  /\ Pbx.edge_list (join nl sources ++ nl ++ tab ++ tab ++ tab ++ lit ");")
     = [lit "00000000000040008000000000000017"]
  /\ Pbx.defines_node (lit "00000000000040008000000000000017")
                      (join nl (fst generated) ++ nl
                         ++ join nl (snd generated)) = false
  /\ (forall content,
        Re.sub AddFrameworks.frameworks_pattern
               AddFrameworks.replace_frameworks content = content
        \/ AddFrameworks.new_content content
           = Re.sub AddFrameworks.frameworks_pattern
                    AddFrameworks.replace_frameworks content)
  /\ (forall content,
        CompleteFrameworkFix.add_buildfile_entries content = content
        \/ CompleteFrameworkFix.add_fileref_entries
             (CompleteFrameworkFix.add_buildfile_entries content)
           = CompleteFrameworkFix.add_buildfile_entries content).
Proof.
  cbv zeta.
  repeat (split; [vm_compute; reflexivity|]).
  split.
  - apply AddFrameworksFacts.buildfile_entries_skipped_after_fill.
  - apply CompleteFrameworkFixFacts.fileref_entries_skipped_after_buildfiles.
Qed.

(** C6: in the project [convert_to_xcodeproj] generates, the build file
    and the file reference of every Swift file are written under one and
    the same identifier, the single draw made for that file: the text
    holds two records with that key. *)
Theorem convert_build_file_shares_file_reference_identifier
        (rnd : nat -> N) (all_files : list str) (k : nat) :
  fst (ConvertToXcodeproj.file_loop rnd all_files [] [] k)
  = (entries ConvertToXcodeproj.build_file_entry rnd k all_files,
     entries ConvertToXcodeproj.file_ref_entry rnd k all_files)
  /\ (forall u f,
        exists r1 r2,
          ConvertToXcodeproj.build_file_entry u f
          = tab ++ tab ++ u ++ lit " /* " ++ r1
          /\ ConvertToXcodeproj.file_ref_entry u f
             = tab ++ tab ++ u ++ lit " /* " ++ r2)
  /\ (let generated :=
        fst (ConvertToXcodeproj.file_loop Samples.counting_rnd
                                          Samples.app_files [] [] 2) in
      Pbx.node_count (lit "00000000000040008000000000000002")
                     (join nl (fst generated) ++ nl
                        ++ join nl (snd generated)) = 2).
Proof.
  split.
  { rewrite ConvertFacts.file_loop_entries. reflexivity. }
  split.
  { intros u f. unfold ConvertToXcodeproj.build_file_entry,
                       ConvertToXcodeproj.file_ref_entry, txt.
    cbn [concat]. eexists. eexists.
    split; reflexivity. }
  vm_compute. reflexivity.
Qed.

(** ** The run of fix_module_imports over a source tree *)

Module FixModuleImportsRunFacts.

Import FixModuleImports FixModuleImportsRun Disk.

(** Length of a joined text, counted with one separator per line. *)
Lemma join_weight (sep : char) (ls : list str) :
  ls <> [] ->
  S (length (join [sep] ls))
  = list_sum (List.map (fun l => S (length l)) ls).
Proof.
  induction ls as [|l ls IH]; [congruence|]. intros _.
  destruct ls as [|l' ls'].
  - cbn. lia.
  - change (join [sep] (l :: l' :: ls'))
      with (l ++ [sep] ++ join [sep] (l' :: ls')).
    specialize (IH ltac:(congruence)).
    rewrite !length_app.
    change (List.map (fun l0 => S (length l0)) (l :: l' :: ls'))
      with (S (length l)
              :: List.map (fun l0 => S (length l0)) (l' :: ls')).
    change (length [sep]) with 1.
    change (list_sum (?a :: ?x)) with (a + list_sum x).
    lia.
Qed.

Lemma filter_weight (f : str -> bool) (ls : list str) :
  list_sum (List.map (fun l => S (length l)) (filter f ls))
  + length (filter (fun l => negb (f l)) ls)
  <= list_sum (List.map (fun l => S (length l)) ls).
Proof.
  induction ls as [|l ls IH]; [cbn; lia|].
  cbn [filter]. destruct (f l); cbn [negb List.map length];
    repeat change (list_sum (?a :: ?x)) with (a + list_sum x); lia.
Qed.

Lemma filter_kept_all (ls : list str) :
  filter is_internal_import ls = [] -> filter kept ls = ls.
Proof.
  induction ls as [|l ls IH]; [reflexivity|].
  cbn [filter]. unfold kept at 1.
  destruct (is_internal_import l); [discriminate|].
  intros H. cbn [negb]. f_equal. exact (IH H).
Qed.

Lemma filter_dropped (ls : list str) :
  filter (fun l => negb (kept l)) ls = filter is_internal_import ls.
Proof.
  apply filter_ext. intros l. unfold kept. apply negb_involutive.
Qed.

(** An import line of an internal module is not empty. *)
Lemma internal_import_not_nil : is_internal_import [] = false.
Proof. reflexivity. Qed.

(** The text of a file changes exactly when a line is dropped. *)
Lemma new_content_same_iff (content : str) :
  new_content content = content <-> internal_imports content = 0.
Proof.
  rewrite FixModuleImportsFacts.new_content_filter.
  unfold internal_imports.
  split.
  - intros E.
    destruct (filter is_internal_import (split 10%N content))
      as [|x xs] eqn:D; [reflexivity|exfalso].
    assert (Hw := filter_weight kept (split 10%N content)).
    rewrite filter_dropped, D in Hw. cbn [length] in Hw.
    assert (Hc := join_weight 10%N (split 10%N content)
                    (split_not_nil _ _)).
    rewrite join_split in Hc.
    destruct (filter kept (split 10%N content)) as [|y ys] eqn:K.
    + (* everything was dropped: the text is that of a dropped line *)
      cbn in E. subst content. cbn in D.
      rewrite internal_import_not_nil in D. discriminate.
    + assert (Hk := join_weight 10%N (y :: ys) ltac:(congruence)).
      change [10%N] with nl in Hk. rewrite E in Hk. lia.
  - intros E. apply length_zero_iff_nil in E.
    rewrite (filter_kept_all _ E). apply join_split.
Qed.

Lemma filter_loop_counter (content : str) (n : nat) :
  filter_loop (split 10%N content) [] n
  = (filter kept (split 10%N content), n + internal_imports content).
Proof. apply FixModuleImportsFacts.filter_loop_filter. Qed.

(** One turn of the loop, for a file the disk holds. *)
Lemma process_file_present (p : path) (st : state) (content : str) :
  current st p = Some content ->
  process_file p st
  = {| current := exec (writes_of (current st) p) (current st);
       performed := performed st ++ writes_of (current st) p;
       files_processed := S (files_processed st);
       imports_removed := imports_removed st + internal_imports content |}.
Proof.
  intros H. unfold process_file, writes_of. rewrite H.
  rewrite filter_loop_counter.
  rewrite <- FixModuleImportsFacts.new_content_filter.
  destruct (Nat.eqb (internal_imports content) 0) eqn:Z.
  - apply Nat.eqb_eq in Z.
    rewrite (proj2 (new_content_same_iff content) Z), str_eqb_refl.
    reflexivity.
  - apply Nat.eqb_neq in Z.
    assert (N : new_content content <> content)
      by (intros E; apply Z, new_content_same_iff, E).
    apply str_eqb_neq in N. rewrite N. reflexivity.
Qed.

Lemma process_file_absent (p : path) (st : state) :
  current st p = None -> process_file p st = st.
Proof. intros H. unfold process_file. rewrite H. reflexivity. Qed.

Lemma exec_write_file_other (p q : path) (data : str) (d : disk) :
  q <> p -> exec (write_file p data) d q = d q.
Proof.
  intros Hq.
  destruct (DiskFacts.interrupted_write_file
              p data d (length (write_file p data))) as [_ H].
  specialize (H q Hq). unfold interrupted in H.
  now rewrite firstn_all in H.
Qed.

(** What the operations of one file do to the disk. *)
Lemma exec_writes_of (d : disk) (p : path) :
  (forall content, d p = Some content ->
                   exec (writes_of d p) d p = Some (new_content content))
  /\ (d p = None -> exec (writes_of d p) d p = None)
  /\ (forall q, q <> p -> exec (writes_of d p) d q = d q).
Proof.
  unfold writes_of. destruct (d p) as [content|] eqn:H.
  - destruct (Nat.eqb (internal_imports content) 0) eqn:Z.
    + apply Nat.eqb_eq in Z. split; [|split].
      * intros c [= <-]. cbn [exec]. rewrite H.
        now rewrite (proj2 (new_content_same_iff content) Z).
      * discriminate.
      * reflexivity.
    + split; [|split].
      * intros c [= <-]. apply DiskFacts.exec_write_file.
      * discriminate.
      * intros q Hq. now apply exec_write_file_other.
  - split; [|split]; [discriminate| |]; [exact (fun _ => H)|reflexivity].
Qed.

(** A disk that agrees with [d] on the listed paths gives the same
    counts and the same operations for them. *)
Lemma agree_on_files (d d' : disk) (files : list path) :
  (forall q, In q files -> d' q = d q) ->
  filter (is_file d') files = filter (is_file d) files
  /\ internal_imports_of d' files = internal_imports_of d files
  /\ flat_map (writes_of d') files = flat_map (writes_of d) files.
Proof.
  induction files as [|p rest IH]; intros A; [repeat split|].
  destruct IH as (F & I & W); [intros q Hq; apply A; now right|].
  assert (E : d' p = d p) by (apply A; now left).
  assert (E1 : is_file d' p = is_file d p)
    by (unfold is_file; now rewrite E).
  assert (E2 : writes_of d' p = writes_of d p)
    by (unfold writes_of; now rewrite E).
  cbn [filter internal_imports_of flat_map].
  rewrite E, E1, E2, F, I, W.
  split; [|split]; reflexivity.
Qed.

(** The loop from any state, over paths that are pairwise distinct. *)
Lemma loop_spec (files : list path) :
  forall st : state,
    NoDup files ->
    let st' := loop files st in
    files_processed st'
    = files_processed st + length (filter (is_file (current st)) files)
    /\ imports_removed st'
       = imports_removed st + internal_imports_of (current st) files
    /\ performed st'
       = performed st ++ flat_map (writes_of (current st)) files
    /\ current st'
       = exec (flat_map (writes_of (current st)) files) (current st)
    /\ (forall p content,
          In p files -> current st p = Some content ->
          current st' p = Some (new_content content))
    /\ (forall q, ~ In q files \/ current st q = None ->
                  current st' q = current st q).
Proof.
  induction files as [|p rest IH]; intros st ND; cbv zeta.
  - cbn [loop filter length internal_imports_of flat_map exec].
    rewrite !Nat.add_0_r, app_nil_r.
    split; [reflexivity|]. split; [reflexivity|].
    split; [reflexivity|]. split; [reflexivity|].
    split; [intros ? ? []|reflexivity].
  - inversion ND as [|? ? Hp ND']; subst.
    specialize (IH (process_file p st) ND'). cbv zeta in IH.
    destruct IH as (I1 & I2 & I3 & I4 & I5 & I6).
    cbn [loop].
    destruct (exec_writes_of (current st) p) as (W1 & W2 & W3).
    assert (St : process_file p st
                 = {| current := exec (writes_of (current st) p)
                                      (current st);
                      performed := performed st
                                     ++ writes_of (current st) p;
                      files_processed :=
                        files_processed st
                        + (if is_file (current st) p then 1 else 0);
                      imports_removed :=
                        imports_removed st
                        + match current st p with
                          | Some content => internal_imports content
                          | None => 0
                          end |}).
    { unfold is_file. destruct (current st p) as [content|] eqn:H.
      - rewrite (process_file_present p st content H).
        f_equal. lia.
      - rewrite (process_file_absent p st H).
        unfold writes_of. rewrite H. cbn [exec].
        rewrite app_nil_r, !Nat.add_0_r. now destruct st. }
    assert (Ag : forall q, In q rest ->
                           current (process_file p st) q = current st q).
    { intros q Hq. rewrite St. cbn [current]. apply W3.
      intros ->. exact (Hp Hq). }
    destruct (agree_on_files _ _ rest Ag) as (F & I & W).
    rewrite F in I1. rewrite I in I2. rewrite W in I3, I4.
    cbn [filter internal_imports_of flat_map].
    split; [|split; [|split; [|split; [|split]]]].
    + rewrite I1, St. cbn [files_processed current].
      destruct (is_file (current st) p); cbn [length]; lia.
    + rewrite I2, St. cbn [imports_removed current]. lia.
    + rewrite I3, St. cbn [performed current]. now rewrite app_assoc.
    + rewrite I4, St. cbn [current]. now rewrite DiskFacts.exec_app.
    + intros q content [<-|Hq] Hc.
      * rewrite I6 by (now left). rewrite St. cbn [current].
        now apply W1.
      * apply I5; [exact Hq|]. rewrite Ag by exact Hq. exact Hc.
    + intros q Hq.
      assert (Nr : ~ In q rest \/ current (process_file p st) q = None).
      { destruct Hq as [Hq|Hq].
        - left. intros Hr. apply Hq. now right.
        - destruct (String.eqb_spec q p) as [->|Ne].
          + now left.
          + right. rewrite St. cbn [current]. now rewrite W3. }
      rewrite (I6 q Nr). rewrite St. cbn [current].
      destruct (String.eqb_spec q p) as [->|Ne].
      * destruct Hq as [Hq|Hq]; [exfalso; apply Hq; now left|].
        rewrite Hq. now apply W2.
      * now apply W3.
Qed.

(** Text that follows white space and starts with another
    character determines both. *)
Lemma spaces_then_word (ws ws' M M' : str) :
  forallb isspace ws = true -> forallb isspace ws' = true ->
  match M with [] => True | c :: _ => isspace c = false end ->
  match M' with [] => True | c :: _ => isspace c = false end ->
  ws ++ M = ws' ++ M' -> M = M'.
Proof.
  intros H1 H2 H3 H4 E.
  rewrite <- (lstrip_fixed M H3), <- (lstrip_fixed M' H4).
  rewrite <- (lstrip_spaces ws M H1), <- (lstrip_spaces ws' M' H2).
  now rewrite E.
Qed.

End FixModuleImportsRunFacts.

(** X1: whatever the text of a file, no line of the text
    [fix_module_imports] computes for it is an import of an internal
    module, so that a second pass over it drops nothing. *)
Theorem fix_module_imports_leaves_no_internal_import (content : str) :
  Forall (fun line => FixModuleImports.is_internal_import line = false)
         (split 10%N (FixModuleImports.new_content content))
  /\ FixModuleImportsRun.internal_imports
       (FixModuleImports.new_content content) = 0.
Proof.
  assert (H : Forall (fun line =>
                        FixModuleImports.is_internal_import line = false)
                (split 10%N (FixModuleImports.new_content content))).
  { rewrite FixModuleImportsFacts.new_content_filter.
    destruct (filter kept (split 10%N content)) as [|l ls] eqn:K.
    - cbn. constructor; [reflexivity|constructor].
    - change nl with [10%N]. rewrite split_join.
      + rewrite <- K. apply Forall_forall. intros x Hx.
        apply filter_In in Hx. destruct Hx as [_ Hx].
        unfold kept in Hx. now apply negb_true_iff in Hx.
      + congruence.
      + rewrite <- K. apply FixModuleImportsFacts.Forall_filter.
        apply split_no_sep. }
  split; [exact H|].
  unfold FixModuleImportsRun.internal_imports.
  induction H as [|l ls Hl _ IH]; [reflexivity|].
  cbn [filter]. now rewrite Hl.
Qed.




(** X4: an import of one of the modules of [external_modules] is never
    dropped, however the line is indented and spaced. *)
Theorem fix_module_imports_keeps_external_imports (line ws M : str) :
  forallb isspace ws = true ->
  In M FixModuleImportsRun.external_modules ->
  strip line = lit "import " ++ ws ++ M ->
  FixModuleImports.is_internal_import line = false.
Proof.
  intros Hws HM E.
  destruct (FixModuleImports.is_internal_import line) eqn:I; [|reflexivity].
  exfalso.
  apply FixModuleImportsFacts.is_internal_import_spec in I.
  destruct I as (ws' & M' & Hws' & HM' & E').
  rewrite E in E'. apply app_inv_head in E'.
  assert (Hd : forall X, In X FixModuleImportsRun.external_modules ->
                         ~ In X FixModuleImports.internal_modules
                         /\ match X with
                            | [] => True
                            | c :: _ => isspace c = false
                            end).
  { intros X HX.
    assert (F : forallb (fun X =>
                           negb (mem X FixModuleImports.internal_modules)
                           && match X with
                              | [] => true
                              | c :: _ => negb (isspace c)
                              end)
                        FixModuleImportsRun.external_modules = true)
      by (vm_compute; reflexivity).
    rewrite forallb_forall in F. specialize (F X HX).
    apply andb_true_iff in F. destruct F as [F1 F2].
    split.
    - intros Hin. apply mem_In in Hin. rewrite Hin in F1. discriminate.
    - destruct X; [exact I|]. now apply negb_true_iff in F2. }
  assert (Hi : forall X, In X FixModuleImports.internal_modules ->
                         match X with
                         | [] => True
                         | c :: _ => isspace c = false
                         end).
  { intros X HX.
    assert (F : forallb (fun X => match X with
                                  | [] => true
                                  | c :: _ => negb (isspace c)
                                  end)
                        FixModuleImports.internal_modules = true)
      by (vm_compute; reflexivity).
    rewrite forallb_forall in F. specialize (F X HX).
    destruct X; [exact I|]. now apply negb_true_iff in F. }
  destruct (Hd M HM) as [Hn Hh].
  apply Hn.
  rewrite (FixModuleImportsRunFacts.spaces_then_word
             ws ws' M M' Hws Hws' Hh (Hi M' HM') E').
  exact HM'.
Qed.

Lemma fix_module_imports_keeps_external_imports_witness :
  FixModuleImports.is_internal_import (tab ++ lit "import  NukeUI ") = false.
Proof.
  apply (fix_module_imports_keeps_external_imports
           (tab ++ lit "import  NukeUI ") (lit " ") (lit "NukeUI")).
  - reflexivity.
  - unfold FixModuleImportsRun.external_modules. cbn [List.map In].
    do 6 right. left. reflexivity.
  - vm_compute. reflexivity.
Defined.

(** ** The fixed digits of an identifier *)

Module UuidDigitFacts.

Import Uuid.
Local Open Scope N_scope.

(** The digit at position [j] of a rendering in [n] digits. *)
Lemma upper_hex_nth (n : nat) :
  forall (j : nat) (i : N),
    (j < n)%nat ->
    nth j (upper_hex n i) 0
    = upper_hex_digit
        (N.land (N.shiftr i (4 * N.of_nat (n - 1 - j))) 15).
Proof.
  induction n as [|n IH]; intros j i Hj; [lia|].
  rewrite UuidFacts.upper_hex_S.
  destruct (Nat.eq_dec j n) as [->|Ne].
  - rewrite app_nth2 by (rewrite UuidFacts.upper_hex_length; lia).
    rewrite UuidFacts.upper_hex_length.
    replace (n - n)%nat with 0%nat by lia.
    replace (S n - 1 - n)%nat with 0%nat by lia.
    cbn [nth N.of_nat]. now rewrite N.mul_0_r, N.shiftr_0_r.
  - rewrite app_nth1 by (rewrite UuidFacts.upper_hex_length; lia).
    rewrite IH by lia. rewrite N.shiftr_shiftr.
    do 3 f_equal. lia.
Qed.

(** The bits [uuid4] forces. *)
Lemma uuid4_int_bits (r : N) :
  N.testbit (uuid4_int r) 76 = false
  /\ N.testbit (uuid4_int r) 77 = false
  /\ N.testbit (uuid4_int r) 78 = true
  /\ N.testbit (uuid4_int r) 79 = false
  /\ N.testbit (uuid4_int r) 62 = false
  /\ N.testbit (uuid4_int r) 63 = true.
Proof.
  unfold uuid4_int. cbv zeta. generalize (r mod 2 ^ 128). intros i.
  split; [|split; [|split; [|split; [|split]]]];
    repeat (rewrite N.lor_spec || rewrite N.ldiff_spec);
    match goal with
    | |- context [N.testbit i ?k] => destruct (N.testbit i k)
    end; vm_compute; reflexivity.
Qed.

Lemma nibble_bits (i k : N) (j : N) :
  N.testbit (N.land (N.shiftr i k) 15) j
  = N.testbit i (j + k) && N.testbit 15 j.
Proof. now rewrite N.land_spec, N.shiftr_spec'. Qed.

Lemma version_nibble (r : N) :
  N.land (N.shiftr (uuid4_int r) 76) 15 = 4.
Proof.
  destruct (uuid4_int_bits r) as (B0 & B1 & B2 & B3 & _).
  assert (H0 := nibble_bits (uuid4_int r) 76 0).
  assert (H1 := nibble_bits (uuid4_int r) 76 1).
  assert (H2 := nibble_bits (uuid4_int r) 76 2).
  assert (H3 := nibble_bits (uuid4_int r) 76 3).
  cbn [N.add Pos.add Pos.succ Pos.add_carry] in H0, H1, H2, H3.
  rewrite B0 in H0. rewrite B1 in H1. rewrite B2 in H2. rewrite B3 in H3.
  assert (L := UuidFacts.land_15_lt (N.shiftr (uuid4_int r) 76)).
  apply UuidFacts.nibble_In in L.
  revert H0 H1 H2 H3 L.
  generalize (N.land (N.shiftr (uuid4_int r) 76) 15). intros v.
  unfold nibbles. cbn [seq List.map In N.of_nat Pos.of_succ_nat Pos.succ].
  intros H0 H1 H2 H3 L.
  repeat (destruct L as [<-|L]; [first [reflexivity|discriminate]|]).
  destruct L.
Qed.

Lemma variant_nibble (r : N) :
  In (N.land (N.shiftr (uuid4_int r) 60) 15) [8; 9; 10; 11].
Proof.
  destruct (uuid4_int_bits r) as (_ & _ & _ & _ & B2 & B3).
  assert (H2 := nibble_bits (uuid4_int r) 60 2).
  assert (H3 := nibble_bits (uuid4_int r) 60 3).
  cbn [N.add Pos.add Pos.succ Pos.add_carry] in H2, H3.
  rewrite B2 in H2. rewrite B3 in H3.
  assert (L := UuidFacts.land_15_lt (N.shiftr (uuid4_int r) 60)).
  apply UuidFacts.nibble_In in L.
  revert H2 H3 L.
  generalize (N.land (N.shiftr (uuid4_int r) 60) 15). intros v.
  unfold nibbles. cbn [seq List.map In N.of_nat Pos.of_succ_nat Pos.succ].
  intros H2 H3 L.
  repeat (destruct L as [<-|L];
          [first [discriminate|cbn [In]; tauto]|]).
  destruct L.
Qed.

End UuidDigitFacts.

(** X5: every identifier [generate_uuid] returns carries the version
    and variant of a version-4 UUID: its thirteenth digit is [4] and its
    seventeenth digit is one of [8], [9], [A], [B], whatever the random
    bits are. *)
Theorem generate_uuid_fixed_digits (rnd : nat -> N) (k : nat) :
  let u := fst (Uuid.generate_uuid rnd k) in
  [nth 12 u 0%N] = lit "4"
  /\ In [nth 16 u 0%N] [lit "8"; lit "9"; lit "A"; lit "B"].
Proof.
  cbv zeta. unfold Uuid.generate_uuid. cbn [fst].
  rewrite UuidFacts.generate_uuid_of_digits.
  rewrite !UuidDigitFacts.upper_hex_nth by lia.
  change (4 * N.of_nat (32 - 1 - 12))%N with 76%N.
  change (4 * N.of_nat (32 - 1 - 16))%N with 60%N.
  rewrite UuidDigitFacts.version_nibble.
  split; [reflexivity|].
  destruct (UuidDigitFacts.variant_nibble (rnd k)) as [<-|[<-|[<-|[<-|[]]]]];
    cbn [In]; [now left|right; now left|do 2 right; now left|
               do 3 right; now left].
Qed.

(** ** Substitutions that find no match *)

Module SubFacts.

Import Re.

(** A pattern that matches at no position leaves the text as it
    is. *)
Lemma sub_no_match (r : regex) (repl : list str -> str) (s : str) :
  (forall a b, s = a ++ b -> rmatch r b = None) ->
  sub r repl s = s.
Proof.
  induction s as [|c s IH]; intros H.
  - apply ReFacts.sub_nil_nomatch. apply (H [] []). reflexivity.
  - rewrite ReFacts.sub_cons_nomatch by (apply (H [] (c :: s)); reflexivity).
    f_equal. apply IH. intros a b E. apply (H (c :: a) b).
    now rewrite E.
Qed.

(** A pattern whose matches all hold the text [h] leaves a text
    without [h] as it is. *)
Lemma sub_without (r : regex) (repl : list str -> str) (h s : str) :
  (forall m gs, matches r m gs -> contains h m = true) ->
  contains h s = false ->
  sub r repl s = s.
Proof.
  intros Hm Hs. apply sub_no_match. intros a b E.
  destruct (rmatch r b) as [[caps rest]|] eqn:M; [exfalso|reflexivity].
  apply ReFacts.rmatch_sound in M. destruct M as (m & Eb & Mm).
  apply Hm in Mm.
  assert (contains h s = true); [|congruence].
  rewrite E, Eb. apply contains_app_r, contains_app_l. exact Mm.
Qed.

Lemma contains_prefix (h x : str) : contains h (h ++ x) = true.
Proof. apply contains_split. exists [], x. reflexivity. Qed.

(** A needle without the character [c] that occurs in [x ++ c :: y]
    occurs in [x] or in [y]. *)
Lemma startswith_app_same (x z w : str) :
  startswith (x ++ z) (x ++ w) = startswith z w.
Proof.
  induction x as [|a x IH]; [reflexivity|].
  cbn [app startswith]. now rewrite char_eqb_refl, IH.
Qed.

Lemma contains_sep (c : char) (needle : str) :
  ~ In c needle -> needle <> [] ->
  forall x y,
    contains needle (x ++ c :: y) = true ->
    contains needle x = true \/ contains needle y = true.
Proof.
  intros Hc Hn x. induction x as [|a x IH]; intros y H.
  - cbn [app contains] in H. apply orb_true_iff in H.
    destruct H as [H|H]; [|now right].
    destruct needle as [|n0 needle']; [congruence|].
    cbn [startswith] in H. apply andb_true_iff in H.
    destruct H as [H _]. apply char_eqb_eq in H. subst.
    exfalso. apply Hc. now left.
  - change ((a :: x) ++ c :: y) with (a :: (x ++ c :: y)) in H.
    cbn [contains] in H. apply orb_true_iff in H.
    destruct H as [H|H].
    + change (a :: (x ++ c :: y)) with ((a :: x) ++ c :: y) in H.
      destruct (EdgeListFacts.startswith_app_inv _ _ _ H)
        as [(r & E)|(z & Hz & E)].
      * left. rewrite E. apply contains_prefix.
      * exfalso. rewrite E, startswith_app_same in H.
        destruct z as [|z0 z']; [congruence|].
        cbn [startswith] in H. apply andb_true_iff in H.
        destruct H as [H _]. apply char_eqb_eq in H. subst z0.
        apply Hc. rewrite E. apply in_or_app. right. now left.
    + destruct (IH y H) as [H'|H']; [left|now right].
      cbn [contains]. rewrite H'. apply orb_true_r.
Qed.

Lemma contains_needle_tail (a b s : str) :
  contains (a ++ b) s = true -> contains b s = true.
Proof.
  intros H. apply contains_split in H. destruct H as (x & y & ->).
  apply contains_split. exists (x ++ a), y. now rewrite <- !app_assoc.
Qed.

End SubFacts.

(** ** The text of a project with its identifiers forgotten *)

Module SkeletonFacts.

Import Notions.

Lemma skeleton_app (a b : str) :
  skeleton (a ++ b) = skeleton a ++ skeleton b.
Proof. apply map_app. Qed.

Lemma skeleton_txt (parts : list str) :
  skeleton (txt parts) = txt (List.map skeleton parts).
Proof. unfold txt, skeleton. apply concat_map. Qed.

Lemma skeleton_join (sep : str) (ls : list str) :
  skeleton (join sep ls) = join (skeleton sep) (List.map skeleton ls).
Proof.
  induction ls as [|l ls IH]; [reflexivity|].
  destruct ls as [|l' ls']; [reflexivity|].
  change (join sep (l :: l' :: ls')) with (l ++ sep ++ join sep (l' :: ls')).
  rewrite !skeleton_app, IH. reflexivity.
Qed.

Lemma skeleton_identifier (u : str) :
  Forall (fun c => is_upper_hex c = true) u ->
  skeleton u = repeat 48%N (length u).
Proof.
  induction 1 as [|c u Hc _ IH]; [reflexivity|].
  cbn [skeleton List.map length repeat]. unfold blank_hex at 1.
  rewrite Hc. f_equal. exact IH.
Qed.

(** Two generated identifiers have the same skeleton. *)
Lemma skeleton_generated (r r' : N) :
  skeleton (Uuid.generate_uuid_of r) = skeleton (Uuid.generate_uuid_of r').
Proof.
  rewrite !skeleton_identifier by apply UuidFacts.generate_uuid_of_alphabet.
  now rewrite !UuidFacts.generate_uuid_of_length.
Qed.

Lemma startswith_skeleton (needle : str) :
  hex_free needle = true ->
  forall t, startswith needle (skeleton t) = startswith needle t.
Proof.
  induction needle as [|x needle IH]; intros H t; [reflexivity|].
  cbn [hex_free forallb] in H. apply andb_true_iff in H.
  destruct H as [Hx H]. apply negb_true_iff in Hx.
  destruct t as [|y t]; [reflexivity|].
  cbn [skeleton List.map startswith].
  change (List.map blank_hex t) with (skeleton t).
  rewrite (IH H). f_equal.
  unfold blank_hex. destruct (is_upper_hex y) eqn:Hy; [|reflexivity].
  transitivity false.
  - destruct (char_eqb x 48%N) eqn:E; [|reflexivity].
    apply char_eqb_eq in E. subst x. discriminate Hx.
  - symmetry. destruct (char_eqb x y) eqn:E; [|reflexivity].
    apply char_eqb_eq in E. subst x. congruence.
Qed.

(** A needle without identifier digits occurs in a text exactly when
    it occurs in its skeleton. *)
Lemma contains_skeleton (needle : str) :
  hex_free needle = true ->
  forall t, contains needle (skeleton t) = contains needle t.
Proof.
  intros H t. induction t as [|y t IH].
  - cbn [skeleton List.map contains].
    change [] with (skeleton []) at 1.
    now rewrite (startswith_skeleton needle H).
  - cbn [contains skeleton List.map].
    change (blank_hex y :: List.map blank_hex t) with (skeleton (y :: t)).
    change (List.map blank_hex t) with (skeleton t).
    now rewrite (startswith_skeleton needle H), IH.
Qed.

End SkeletonFacts.

(** ** The two substitutions of add_packages_to_project *)

Module LinkingFacts.

Import Re ModifyHorizonProject Notions.

(** After the slash of its head literal, the pattern accepts
    backslashes and then a space: never the star of a comment. *)
Lemma head_then_backslashes (id bs x : str) :
  forallb backslash bs = true ->
  bare_head id ((id ++ lit " /") ++ bs ++ lit " " ++ x) = true.
Proof.
  intros H. unfold bare_head. apply orb_true_iff.
  destruct bs as [|b bs'].
  - left. apply contains_split. exists [], x.
    rewrite <- !app_assoc. reflexivity.
  - right. cbn [forallb] in H. apply andb_true_iff in H.
    destruct H as [H _]. apply char_eqb_eq in H. subst b.
    apply contains_split. exists [], (bs' ++ lit " " ++ x).
    rewrite <- !app_assoc. reflexivity.
Qed.

Lemma horizon_target_match (m : str) (gs : list str) :
  matches horizon_target_pattern m gs ->
  bare_head (lit "1D1A9BBD2E761986002B8F85") m = true.
Proof.
  unfold horizon_target_pattern. intros H. invert_matches.
  match goal with
  | H : forallb backslash ?bs = true |- context [?bs ++ lit " Horizon " ++ _] =>
      pose proof (head_then_backslashes
                    (lit "1D1A9BBD2E761986002B8F85") bs) as L;
      specialize (fun x => L x H)
  end.
  rewrite <- !app_assoc.
  match goal with
  | |- bare_head _ (_ ++ ?bs ++ _ ++ ?x) = true =>
      exact (L (lit "Horizon " ++ x))
  end.
Qed.

Lemma frameworks_match (m : str) (gs : list str) :
  matches frameworks_pattern m gs ->
  bare_head (lit "1D1A9BBB2E761986002B8F85") m = true.
Proof.
  unfold frameworks_pattern. intros H. invert_matches.
  match goal with
  | H : forallb backslash ?bs = true
    |- context [?bs ++ lit " Frameworks " ++ _] =>
      pose proof (head_then_backslashes
                    (lit "1D1A9BBB2E761986002B8F85") bs) as L;
      specialize (fun x => L x H)
  end.
  rewrite <- !app_assoc.
  match goal with
  | |- bare_head _ (_ ++ ?bs ++ _ ++ ?x) = true =>
      exact (L (lit "Frameworks " ++ x))
  end.
Qed.

(** A text without bare head of [id] is left as it is by a pattern
    whose matches all hold one. *)
Lemma sub_without_bare_head (r : regex) (repl : list str -> str)
      (id s : str) :
  (forall m gs, matches r m gs -> bare_head id m = true) ->
  bare_head id s = false ->
  sub r repl s = s.
Proof.
  intros Hm Hs. apply SubFacts.sub_no_match. intros a b E.
  destruct (rmatch r b) as [[caps rest]|] eqn:M; [exfalso|reflexivity].
  apply ReFacts.rmatch_sound in M. destruct M as (m & Eb & Mm).
  apply Hm in Mm.
  assert (bare_head id s = true); [|congruence].
  unfold bare_head in *. apply orb_true_iff in Mm. apply orb_true_iff.
  rewrite E, Eb.
  destruct Mm as [Mm|Mm]; [left|right];
    apply contains_app_r, contains_app_l; exact Mm.
Qed.

(** The records built for a package, with the identifiers
    forgotten. *)
Lemma package_reference_skeleton (u u' : str) (p : package) :
  skeleton u = skeleton u' ->
  skeleton (package_reference u p) = skeleton (package_reference u' p).
Proof.
  intros H. unfold package_reference.
  rewrite !SkeletonFacts.skeleton_txt. cbn [List.map].
  now rewrite H.
Qed.

Lemma package_product_skeleton (u u' c v v' : str) (p : package)
      (n : str) :
  skeleton u = skeleton u' -> skeleton v = skeleton v' ->
  skeleton (package_product u c v p n)
  = skeleton (package_product u' c v' p n).
Proof.
  intros H H'. unfold package_product.
  rewrite !SkeletonFacts.skeleton_txt. cbn [List.map].
  now rewrite H, H'.
Qed.

Lemma add_package_skeleton (rnd rnd' : nat -> N) (p : package)
      (acc acc' : sections) (k k' : nat) :
  List.map skeleton (package_references acc)
  = List.map skeleton (package_references acc') ->
  List.map skeleton (package_products acc)
  = List.map skeleton (package_products acc') ->
  List.map skeleton (package_references (fst (add_package rnd p acc k)))
  = List.map skeleton
             (package_references (fst (add_package rnd' p acc' k')))
  /\ List.map skeleton (package_products (fst (add_package rnd p acc k)))
     = List.map skeleton
                (package_products (fst (add_package rnd' p acc' k'))).
Proof.
  intros H1 H2.
  unfold add_package, Uuid.bind, Uuid.generate_uuid, Uuid.ret.
  destruct (str_eqb (name p) (lit "Nuke"));
    cbn [fst package_references package_products];
    rewrite !map_app, H1, H2; cbn [List.map]; split.
  - do 2 f_equal. apply package_reference_skeleton.
    apply SkeletonFacts.skeleton_generated.
  - f_equal. f_equal; [|f_equal];
      apply package_product_skeleton;
      apply SkeletonFacts.skeleton_generated.
  - do 2 f_equal. apply package_reference_skeleton.
    apply SkeletonFacts.skeleton_generated.
  - do 2 f_equal. apply package_product_skeleton;
      apply SkeletonFacts.skeleton_generated.
Qed.

Lemma build_sections_skeleton (rnd rnd' : nat -> N) (ps : list package) :
  forall (acc acc' : sections) (k k' : nat),
    List.map skeleton (package_references acc)
    = List.map skeleton (package_references acc') ->
    List.map skeleton (package_products acc)
    = List.map skeleton (package_products acc') ->
    List.map skeleton
             (package_references (fst (build_sections rnd ps acc k)))
    = List.map skeleton
               (package_references (fst (build_sections rnd' ps acc' k')))
    /\ List.map skeleton
                (package_products (fst (build_sections rnd ps acc k)))
       = List.map skeleton
                  (package_products
                     (fst (build_sections rnd' ps acc' k'))).
Proof.
  induction ps as [|p ps IH]; intros acc acc' k k' H1 H2.
  - cbn [build_sections Uuid.ret fst]. now split.
  - cbn [build_sections]. unfold Uuid.bind.
    destruct (add_package_skeleton rnd rnd' p acc acc' k k' H1 H2)
      as [A1 A2].
    destruct (add_package rnd p acc k) as [a1 k1].
    destruct (add_package rnd' p acc' k') as [a2 k2].
    apply IH; assumption.
Qed.

Lemma references_section_skeleton (s s' : sections) :
  List.map skeleton (package_references s)
  = List.map skeleton (package_references s') ->
  List.map skeleton (package_products s)
  = List.map skeleton (package_products s') ->
  skeleton (references_section s) = skeleton (references_section s').
Proof.
  intros H1 H2. unfold references_section.
  rewrite !SkeletonFacts.skeleton_txt. cbn [List.map].
  rewrite !SkeletonFacts.skeleton_join. now rewrite H1, H2.
Qed.

(** The inserted sections, whatever the identifiers drawn, hold no
    needle without identifier digits that the sections built from
    other draws do not hold. *)
Lemma references_section_contains (needle : str) (rnd rnd' : nat -> N) :
  hex_free needle = true ->
  contains needle
    (references_section
       (fst (build_sections rnd packages empty_sections 0)))
  = contains needle
      (references_section
         (fst (build_sections rnd' packages empty_sections 0))).
Proof.
  intros H.
  rewrite <- (SkeletonFacts.contains_skeleton needle H
                (references_section
                   (fst (build_sections rnd packages empty_sections 0)))).
  rewrite <- (SkeletonFacts.contains_skeleton needle H
                (references_section
                   (fst (build_sections rnd' packages empty_sections 0)))).
  f_equal.
  destruct (build_sections_skeleton rnd rnd' packages
              empty_sections empty_sections 0 0 eq_refl eq_refl) as [A B].
  now apply references_section_skeleton.
Qed.

(** The inserted sections write no bare head: after an identifier
    and a slash they always open a comment. *)
Lemma references_section_heads (rnd : nat -> N) :
  let sec := references_section
               (fst (build_sections rnd packages empty_sections 0)) in
  contains (lit " / ") sec = false
  /\ contains (lit " /" ++ [92%N]) sec = false.
Proof.
  cbv zeta. split.
  - rewrite (references_section_contains _ rnd (fun _ => 0%N))
      by reflexivity.
    vm_compute. reflexivity.
  - rewrite (references_section_contains _ rnd (fun _ => 0%N))
      by reflexivity.
    vm_compute. reflexivity.
Qed.

(** The sections start and end with a line feed. *)
Lemma references_section_lines (s : sections) :
  exists mid, references_section s = 10%N :: mid ++ [10%N].
Proof.
  unfold references_section, txt. cbn [concat].
  unfold nl at 1. cbn [app].
  eexists. f_equal. rewrite app_nil_r.
  repeat rewrite app_assoc. reflexivity.
Qed.

(** Inserting the sections creates no bare head. *)
Lemma insert_sections_bare_head (rnd : nat -> N) (id content : str) :
  let s := fst (build_sections rnd packages empty_sections 0) in
  ~ In 10%N id ->
  bare_head id content = false ->
  bare_head id (insert_sections s content) = false.
Proof.
  cbv zeta. intros Hid H.
  destruct (contains build_file_end content) eqn:C.
  2: now rewrite PackageFacts.insert_sections_absent.
  destruct (PackageFacts.insert_sections_splice
              (fst (build_sections rnd packages empty_sections 0))
              content C) as (pre & post & E & ->).
  destruct (references_section_heads rnd) as [S1 S2]. cbv zeta in S1, S2.
  destruct (references_section_lines
              (fst (build_sections rnd packages empty_sections 0)))
    as (mid & Em).
  rewrite Em in S1, S2 |- *.
  assert (G : forall tail,
             ~ In 10%N tail ->
             contains (lit " /" ++ tail) (10%N :: mid ++ [10%N]) = false ->
             contains (id ++ lit " /" ++ tail) content = false ->
             contains (id ++ lit " /" ++ tail)
                      (pre ++ build_file_end
                           ++ (10%N :: mid ++ [10%N]) ++ post) = false).
  { intros tail Ht Hs Hc.
    destruct (contains (id ++ lit " /" ++ tail)
                       (pre ++ build_file_end
                            ++ (10%N :: mid ++ [10%N]) ++ post)) eqn:K;
      [exfalso|reflexivity].
    assert (Hn : ~ In 10%N (id ++ lit " /" ++ tail)).
    { intros I. apply in_app_or in I. destruct I as [I|I]; [tauto|].
      apply in_app_or in I. destruct I as [I|I]; [|tauto].
      cbv in I. intuition discriminate. }
    assert (Ne : id ++ lit " /" ++ tail <> [])
      by (destruct id; discriminate).
    replace (pre ++ build_file_end ++ (10%N :: mid ++ [10%N]) ++ post)
      with ((pre ++ build_file_end) ++ 10%N :: (mid ++ 10%N :: post)) in K
      by (cbn [app]; rewrite <- !app_assoc; reflexivity).
    destruct (SubFacts.contains_sep 10%N _ Hn Ne _ _ K) as [K1|K1].
    - assert (T : contains (id ++ lit " /" ++ tail) content = true).
      { rewrite E, (app_assoc pre). apply contains_app_l. exact K1. }
      rewrite T in Hc. discriminate Hc.
    - destruct (SubFacts.contains_sep 10%N _ Hn Ne _ _ K1) as [K2|K2].
      + apply SubFacts.contains_needle_tail in K2.
        assert (T : contains (lit " /" ++ tail) (10%N :: mid ++ [10%N])
                    = true).
        { change (10%N :: mid ++ [10%N]) with ([10%N] ++ mid ++ [10%N]).
          apply contains_app_r, contains_app_l. exact K2. }
        rewrite T in Hs. discriminate Hs.
      + assert (T : contains (id ++ lit " /" ++ tail) content = true).
        { rewrite E. apply contains_app_r, contains_app_r. exact K2. }
        rewrite T in Hc. discriminate Hc. }
  unfold bare_head in *. apply orb_false_iff in H. destruct H as [H1 H2].
  apply orb_false_iff. split.
  - apply (G (lit " ")); [cbv; intuition discriminate|exact S1|exact H1].
  - apply (G [92%N]); [cbv; intuition discriminate|exact S2|exact H2].
Qed.

End LinkingFacts.

(** X6: on a project text that writes the identifiers of the Horizon
    target and of its Frameworks phase only before a comment (as in
    [1D1A9BBD2E761986002B8F85 /* Horizon */ = {]), the two substitutions
    of [add_packages_to_project] find nothing: in their patterns [\\*]
    stands for backslashes, not for the star of a comment.  The text
    computed is the old text with the two new sections inserted, and no
    product is listed in the target or in its Frameworks phase. *)
Theorem add_packages_links_no_product (rnd : nat -> N) (content : str) :
  Notions.bare_head (lit "1D1A9BBD2E761986002B8F85") content = false ->
  Notions.bare_head (lit "1D1A9BBB2E761986002B8F85") content = false ->
  let s := fst (ModifyHorizonProject.build_sections
                  rnd ModifyHorizonProject.packages
                  ModifyHorizonProject.empty_sections 0) in
  ModifyHorizonProject.new_content rnd content
  = ModifyHorizonProject.insert_sections s content
  /\ Re.sub ModifyHorizonProject.horizon_target_pattern
            (ModifyHorizonProject.horizon_target_replacement s) content
     = content
  /\ Re.sub ModifyHorizonProject.frameworks_pattern
            (ModifyHorizonProject.frameworks_replacement s) content
     = content.
Proof.
  intros H1 H2. cbv zeta.
  assert (N1 : ~ In 10%N (lit "1D1A9BBD2E761986002B8F85"))
    by (cbv; intuition discriminate).
  assert (N2 : ~ In 10%N (lit "1D1A9BBB2E761986002B8F85"))
    by (cbv; intuition discriminate).
  split; [|split].
  - unfold ModifyHorizonProject.new_content.
    destruct (ModifyHorizonProject.build_sections
                rnd ModifyHorizonProject.packages
                ModifyHorizonProject.empty_sections 0) as [s k] eqn:B.
    cbn [fst].
    destruct (contains ModifyHorizonProject.build_file_end content) eqn:C.
    2: now rewrite PackageFacts.insert_sections_absent.
    assert (I1 := LinkingFacts.insert_sections_bare_head rnd _ content N1 H1).
    assert (I2 := LinkingFacts.insert_sections_bare_head rnd _ content N2 H2).
    cbv zeta in I1, I2. rewrite B in I1, I2. cbn [fst] in I1, I2.
    rewrite (LinkingFacts.sub_without_bare_head
               _ _ _ _ LinkingFacts.horizon_target_match I1).
    apply (LinkingFacts.sub_without_bare_head
             _ _ _ _ LinkingFacts.frameworks_match I2).
  - apply (LinkingFacts.sub_without_bare_head
             _ _ _ _ LinkingFacts.horizon_target_match H1).
  - apply (LinkingFacts.sub_without_bare_head
             _ _ _ _ LinkingFacts.frameworks_match H2).
Qed.

Lemma add_packages_links_no_product_witness :
  let rnd := Samples.counting_rnd in
  let content := Samples.horizon_project in
  let s := fst (ModifyHorizonProject.build_sections
                  rnd ModifyHorizonProject.packages
                  ModifyHorizonProject.empty_sections 0) in
  ModifyHorizonProject.new_content rnd content
  = ModifyHorizonProject.insert_sections s content
  /\ Re.sub ModifyHorizonProject.horizon_target_pattern
            (ModifyHorizonProject.horizon_target_replacement s) content
     = content
  /\ Re.sub ModifyHorizonProject.frameworks_pattern
            (ModifyHorizonProject.frameworks_replacement s) content
     = content.
Proof.
  apply (add_packages_links_no_product
           Samples.counting_rnd Samples.horizon_project);
    vm_compute; reflexivity.
Defined.

(** ** The records built by the loop over the packages *)

Module SectionsFacts.

Import ModifyHorizonProject Notions.

Lemma names_reference_more (refs more : list str) (ds ps : list str) :
  Forall2 (names_reference refs) ds ps ->
  Forall2 (names_reference (refs ++ more)) ds ps.
Proof.
  apply Forall2_impl. intros d p (c & r & q & n & Hin & E).
  exists c, r, q, n. split; [|exact E]. apply in_or_app. now left.
Qed.

(** One turn of the loop keeps the records consistent. *)
Lemma add_package_consistent (rnd : nat -> N) (p : package)
      (acc : sections) (k : nat) (done : list package) :
  Forall2 reference_of (package_references acc) done ->
  Forall2 (names_reference (package_references acc))
          (product_dependencies acc) (package_products acc) ->
  let r := add_package rnd p acc k in
  Forall2 reference_of (package_references (fst r)) (done ++ [p])
  /\ Forall2 (names_reference (package_references (fst r)))
             (product_dependencies (fst r)) (package_products (fst r))
  /\ snd r + length (package_references acc)
     + length (package_products acc)
     = k + length (package_references (fst r))
       + length (package_products (fst r)).
Proof.
  intros H1 H2. cbv zeta.
  unfold add_package, Uuid.bind, Uuid.generate_uuid, Uuid.ret.
  assert (R : reference_of
                (package_reference (Uuid.generate_uuid_of (rnd k)) p) p)
    by (eexists; split; [eexists; reflexivity|reflexivity]).
  assert (Hin : In (package_reference (Uuid.generate_uuid_of (rnd k)) p)
                   (package_references acc
                      ++ [package_reference
                            (Uuid.generate_uuid_of (rnd k)) p]))
    by (apply in_or_app; right; now left).
  destruct (str_eqb (name p) (lit "Nuke"));
    cbn [fst snd package_references package_products
         product_dependencies];
    (split; [|split]).
  - apply Forall2_app; [exact H1|]. constructor; [exact R|constructor].
  - apply Forall2_app; [now apply names_reference_more|].
    constructor; [|constructor; [|constructor]];
      eexists _, _, _, _; (split; [exact Hin|reflexivity]).
  - rewrite !length_app. cbn [length]. lia.
  - apply Forall2_app; [exact H1|]. constructor; [exact R|constructor].
  - apply Forall2_app; [now apply names_reference_more|].
    constructor; [|constructor].
    eexists _, _, _, _; (split; [exact Hin|reflexivity]).
  - rewrite !length_app. cbn [length]. lia.
Qed.

Lemma build_sections_consistent (rnd : nat -> N) (ps : list package) :
  forall (acc : sections) (k : nat) (done : list package),
    Forall2 reference_of (package_references acc) done ->
    Forall2 (names_reference (package_references acc))
            (product_dependencies acc) (package_products acc) ->
    let r := build_sections rnd ps acc k in
    Forall2 reference_of (package_references (fst r)) (done ++ ps)
    /\ Forall2 (names_reference (package_references (fst r)))
               (product_dependencies (fst r)) (package_products (fst r))
    /\ snd r + length (package_references acc)
       + length (package_products acc)
       = k + length (package_references (fst r))
         + length (package_products (fst r)).
Proof.
  induction ps as [|p ps IH]; intros acc k done H1 H2; cbv zeta.
  - cbn [build_sections Uuid.ret fst snd]. rewrite app_nil_r.
    split; [exact H1|]. split; [exact H2|lia].
  - cbn [build_sections]. unfold Uuid.bind.
    destruct (add_package_consistent rnd p acc k done H1 H2)
      as (A1 & A2 & A3).
    destruct (add_package rnd p acc k) as [acc1 k1]. cbn [fst snd] in *.
    destruct (IH acc1 k1 (done ++ [p]) A1 A2) as (B1 & B2 & B3).
    rewrite <- app_assoc in B1. cbn [app] in B1.
    split; [exact B1|]. split; [exact B2|lia].
Qed.

End SectionsFacts.

(** X7: the records [add_packages_to_project] builds are consistent
    with each other, whatever the table of packages and the identifiers
    drawn: there is one package reference per package, in the order of
    the table; every product record names, in its [package] field, a
    package reference built in the same run; the list
    [product_dependencies] holds the identifiers of the product records,
    in their order; one identifier is drawn for every record. *)
Theorem built_products_name_built_references
        (rnd : nat -> N) (ps : list ModifyHorizonProject.package)
        (k : nat) :
  let r := ModifyHorizonProject.build_sections
             rnd ps ModifyHorizonProject.empty_sections k in
  let s := fst r in
  Forall2 Notions.reference_of
          (ModifyHorizonProject.package_references s) ps
  /\ Forall2 (Notions.names_reference
                (ModifyHorizonProject.package_references s))
             (ModifyHorizonProject.product_dependencies s)
             (ModifyHorizonProject.package_products s)
  /\ snd r = k + length (ModifyHorizonProject.package_references s)
             + length (ModifyHorizonProject.package_products s).
Proof.
  cbv zeta.
  destruct (SectionsFacts.build_sections_consistent
              rnd ps ModifyHorizonProject.empty_sections k []
              (Forall2_nil _) (Forall2_nil _)) as (A & B & C).
  cbv zeta in A, B, C. cbn [app] in A.
  split; [exact A|]. split; [exact B|].
  cbn [ModifyHorizonProject.empty_sections
       ModifyHorizonProject.package_references
       ModifyHorizonProject.package_products length] in C.
  lia.
Qed.

(** ** Insertion after a section marker *)

Module MarkerFacts.

Import Re.

(** A pattern that is one literal in a group. *)
Lemma rmatch_literal (l s : str) :
  rmatch (Group (Lit l)) s
  = if startswith l s
    then Some ([firstn (length s - length (skipn (length l) s)) s],
               skipn (length l) s)
    else None.
Proof.
  unfold rmatch. cbn [run app length].
  destruct (startswith l s); reflexivity.
Qed.

Lemma rmatch_literal_here (l rest : str) :
  rmatch (Group (Lit l)) (l ++ rest) = Some ([l], rest).
Proof.
  rewrite rmatch_literal, startswith_app.
  rewrite skipn_app, skipn_all, Nat.sub_diag. cbn [skipn app].
  now rewrite ReFacts.firstn_matched.
Qed.

(** No occurrence of a marker that does not overlap itself starts
    inside an occurrence. *)
Lemma count_free (l x y : str) :
  free_of l x = true -> Pbx.count l (x ++ y) = Pbx.count l y.
Proof.
  induction x as [|c x IH]; intros H; [reflexivity|].
  cbn [free_of] in H. apply andb_true_iff in H. destruct H as [H H3].
  apply andb_true_iff in H. destruct H as [H1 H2].
  apply negb_true_iff in H1. apply negb_true_iff in H2.
  change ((c :: x) ++ y) with (c :: (x ++ y)). cbn [Pbx.count].
  rewrite (IH H3).
  destruct (startswith l (c :: x ++ y)) eqn:S; [exfalso|reflexivity].
  change (c :: x ++ y) with ((c :: x) ++ y) in S.
  destruct (EdgeListFacts.startswith_app_inv _ _ _ S)
    as [(r & E)|(z & _ & E)].
  - rewrite E, startswith_app in H1. discriminate.
  - rewrite E, startswith_app in H2. discriminate.
Qed.

Lemma count_here (l rest : str) :
  l <> [] -> free_of l (tl l) = true ->
  Pbx.count l (l ++ rest) = S (Pbx.count l rest).
Proof.
  destruct l as [|c l']; [congruence|]. intros _ H. cbn [tl] in H.
  change ((c :: l') ++ rest) with (c :: (l' ++ rest)).
  cbn [Pbx.count].
  change (c :: (l' ++ rest)) with ((c :: l') ++ rest).
  rewrite startswith_app. now rewrite (count_free _ l' rest H).
Qed.

Section Literal.

Variables (l e : str).
Hypothesis l_not_nil : l <> [].

Let insert_after : str -> str :=
  sub (Group (Lit l)) (fun caps => group 1 caps ++ e).

Lemma insert_after_nil : insert_after [] = [].
Proof.
  apply ReFacts.sub_nil_nomatch. rewrite rmatch_literal.
  destruct l; [congruence|reflexivity].
Qed.

Lemma insert_after_skip (c : char) (s : str) :
  startswith l (c :: s) = false ->
  insert_after (c :: s) = c :: insert_after s.
Proof.
  intros H. apply ReFacts.sub_cons_nomatch.
  rewrite rmatch_literal, H. reflexivity.
Qed.

Lemma insert_after_here (rest : str) :
  insert_after (l ++ rest) = l ++ e ++ insert_after rest.
Proof.
  unfold insert_after.
  rewrite (ReFacts.sub_match _ _ l rest [l] l_not_nil
                             (rmatch_literal_here l rest)).
  cbn [group Nat.sub nth]. now rewrite <- app_assoc.
Qed.

(** Without the marker nothing is inserted. *)
Lemma insert_after_absent (s : str) :
  contains l s = false -> insert_after s = s.
Proof.
  induction s as [|c s IH]; intros H; [apply insert_after_nil|].
  cbn [contains] in H. apply orb_false_iff in H. destruct H as [H1 H2].
  rewrite insert_after_skip by exact H1. f_equal. now apply IH.
Qed.

Hypothesis l_apart : free_of l (tl l) = true.

(** One copy of [e] is inserted after every occurrence of the
    marker. *)
Lemma insert_after_length (n : nat) :
  forall s,
    length s <= n ->
    length (insert_after s)
    = length s + Pbx.count l s * length e.
Proof.
  induction n as [|n IH]; intros s Hn.
  - destruct s; [|cbn in Hn; lia].
    rewrite insert_after_nil. cbn [Pbx.count length].
    destruct (startswith l []) eqn:S; [|reflexivity].
    destruct l; [congruence|discriminate].
  - destruct s as [|c s]; [apply (IH []); cbn; lia|].
    destruct (startswith l (c :: s)) eqn:S.
    + apply startswith_skipn in S. rewrite S.
      rewrite insert_after_here, (count_here _ _ l_not_nil l_apart),
        !length_app.
      rewrite IH.
      * cbn [Nat.mul]. lia.
      * assert (Hl : length (c :: s)
                     = length l + length (skipn (length l) (c :: s)))
          by (rewrite S at 1; apply length_app).
        destruct l; [congruence|]. cbn [length] in *. lia.
    + rewrite insert_after_skip by exact S.
      cbn [Pbx.count length]. rewrite S, IH by (cbn in Hn; lia).
      lia.
Qed.

End Literal.

End MarkerFacts.

(** ** The first occurrence of the end marker *)

Module FirstMarkerFacts.

Import ModifyHorizonProject.

(** [find] answers the position of the first occurrence. *)
Lemma find_first_occurrence (needle hay : str) :
  forall i,
    find needle hay = Some i ->
    forall j, j < i -> startswith needle (skipn j hay) = false.
Proof.
  induction hay as [|c hay IH]; intros i; cbn [find].
  - destruct (startswith needle []); [intros [= <-]; lia|discriminate].
  - destruct (startswith needle (c :: hay)) eqn:S;
      [intros [= <-]; lia|].
    destruct (find needle hay) as [k|]; cbn [option_map]; [|discriminate].
    intros [= <-] j Hj. destruct j as [|j]; [exact S|].
    cbn [skipn]. apply (IH k eq_refl). lia.
Qed.

(** The new sections are spliced in right after the first occurrence
    of the end marker. *)
Lemma insert_sections_first (s : sections) (content : str) :
  contains build_file_end content = true ->
  exists pre post,
    content = pre ++ build_file_end ++ post
    /\ (forall j, j < length pre ->
                  startswith build_file_end (skipn j content) = false)
    /\ insert_sections s content
       = pre ++ build_file_end ++ references_section s ++ post.
Proof.
  intros H. destruct (find_contains _ _ H) as (i & Hi).
  unfold insert_sections, slice_to, slice_from. rewrite Hi.
  pose proof (find_Some _ _ _ Hi) as E.
  pose proof (PackageFacts.find_le _ _ _ Hi) as Hle.
  set (n := i + length build_file_end) in *.
  exists (firstn i content), (skipn n content).
  split; [exact E|]. split.
  - rewrite firstn_length_le by exact Hle.
    apply (find_first_occurrence _ _ _ Hi).
  - assert (Hpre : firstn n content = firstn i content ++ build_file_end).
    { apply (app_inv_tail (skipn n content)).
      rewrite firstn_skipn, <- app_assoc. exact E. }
    rewrite Hpre, <- !app_assoc. reflexivity.
Qed.

End FirstMarkerFacts.

(** ** Substitutions that only insert *)

Module FrameFacts.

Import Re Notions.

Lemma only_inserts_refl (t : str) : only_inserts t t.
Proof. induction t; constructor; assumption. Qed.

Lemma only_inserts_nil (t : str) : only_inserts [] t.
Proof. induction t; constructor; assumption. Qed.

Lemma only_inserts_app (a a' b b' : str) :
  only_inserts a a' -> only_inserts b b' ->
  only_inserts (a ++ b) (a' ++ b').
Proof.
  intros Ha Hb. induction Ha; cbn [app]; try constructor; assumption.
Qed.

Lemma only_inserts_trans (a b : str) :
  only_inserts a b -> forall c, only_inserts b c -> only_inserts a c.
Proof.
  intros Hab c Hbc. revert a Hab.
  induction Hbc as [|x b c Hbc IH|x b c Hbc IH]; intros a Hab.
  - exact Hab.
  - inversion Hab; subst.
    + constructor. now apply IH.
    + apply inserts_add. now apply IH.
  - apply inserts_add. now apply IH.
Qed.

(** Text inserted in the middle. *)
Lemma only_inserts_middle (a x b : str) :
  only_inserts (a ++ b) (a ++ x ++ b).
Proof.
  apply only_inserts_app; [apply only_inserts_refl|].
  change b with ([] ++ b) at 1.
  apply only_inserts_app; [apply only_inserts_nil|apply only_inserts_refl].
Qed.

Section Sub.

Variables (r : regex) (repl : list str -> str).

Hypothesis repl_inserts :
  forall m caps, matches r m caps -> only_inserts m (repl caps).

(** A substitution whose replacement holds all the matched text, in
    order, only inserts. *)
Lemma sub_only_inserts (n : nat) :
  forall s, length s <= n -> only_inserts s (sub r repl s).
Proof.
  induction n as [|n IH]; intros s Hn.
  - destruct s; [|cbn in Hn; lia]. apply only_inserts_nil.
  - destruct s as [|c s]; [apply only_inserts_nil|].
    unfold sub. rewrite ReFacts.sub_from_cons.
    destruct (rmatch r (c :: s)) as [[caps rest]|] eqn:M.
    + destruct (ReFacts.rmatch_sound _ _ _ _ M) as (m & E & Hm).
      destruct m as [|m0 m'].
      * cbn [app] in E. subst rest. rewrite Nat.sub_diag.
        change (c :: s) with ([] ++ c :: s) at 1.
        apply only_inserts_app; [now apply repl_inserts|].
        constructor. apply IH. cbn in Hn. lia.
      * injection E as <- ->.
        replace (length (c :: m' ++ rest) - length rest)
          with (S (length m'))
          by (cbn [length]; rewrite length_app; lia).
        rewrite ReFacts.sub_from_skip.
        change (c :: m' ++ rest) with ((c :: m') ++ rest).
        apply only_inserts_app; [now apply repl_inserts|].
        apply IH. cbn [length] in Hn. rewrite length_app in Hn. lia.
    + constructor. apply IH. cbn in Hn. lia.
Qed.

End Sub.

(** Replacements that agree give the same substitution. *)
Lemma sub_from_ext (r : regex) (repl repl' : list str -> str) :
  (forall caps, repl caps = repl' caps) ->
  forall s skip, sub_from r repl skip s = sub_from r repl' skip s.
Proof.
  intros H s. induction s as [|c s IH]; intros skip; cbn [sub_from].
  - destruct skip; [|reflexivity].
    destruct (rmatch r []) as [[caps rest]|]; [apply H|reflexivity].
  - destruct skip as [|k]; [|apply IH].
    destruct (rmatch r (c :: s)) as [[caps rest]|].
    + destruct (length (c :: s) - length rest); rewrite H, IH; reflexivity.
    + now rewrite IH.
Qed.

Lemma sub_ext (r : regex) (repl repl' : list str -> str) (s : str) :
  (forall caps, repl caps = repl' caps) ->
  sub r repl s = sub r repl' s.
Proof. intros H. now apply sub_from_ext. Qed.

End FrameFacts.

(** ** What add_packages_to_project writes *)

Module WrittenFacts.

Import Re ModifyHorizonProject Notions.

(** The two replacements hold all the matched text. *)
Lemma horizon_target_groups (m : str) (caps : list str) :
  matches horizon_target_pattern m caps ->
  exists g1, caps = [g1] /\ m = g1 ++ lit "();".
Proof.
  unfold horizon_target_pattern. intros H. invert_matches.
  eexists. split; reflexivity.
Qed.

Lemma frameworks_groups (m : str) (caps : list str) :
  matches frameworks_pattern m caps ->
  exists g1, caps = [g1] /\ m = g1 ++ lit "();".
Proof.
  unfold frameworks_pattern. intros H. invert_matches.
  eexists. split; reflexivity.
Qed.

Lemma list_filled (g1 x : str) :
  only_inserts (g1 ++ lit "();") (g1 ++ lit "(" ++ x ++ lit ");").
Proof.
  apply FrameFacts.only_inserts_app; [apply FrameFacts.only_inserts_refl|].
  change (lit "();") with (lit "(" ++ lit ");").
  apply FrameFacts.only_inserts_middle.
Qed.

Lemma horizon_target_replacement_inserts (s : sections) (m : str)
      (caps : list str) :
  matches horizon_target_pattern m caps ->
  only_inserts m (horizon_target_replacement s caps).
Proof.
  intros H. destruct (horizon_target_groups m caps H) as (g1 & -> & ->).
  unfold horizon_target_replacement. cbn [group Nat.sub nth].
  apply list_filled.
Qed.

Lemma frameworks_replacement_inserts (s : sections) (m : str)
      (caps : list str) :
  matches frameworks_pattern m caps ->
  only_inserts m (frameworks_replacement s caps).
Proof.
  intros H. destruct (frameworks_groups m caps H) as (g1 & -> & ->).
  unfold frameworks_replacement. cbn [group Nat.sub nth].
  replace (g1 ++ lit "(" ++
           join (lit "," ++ nl ++ tab ++ tab ++ tab)
             (List.map
                (fun uuid => uuid ++ lit " /* " ++
                             get_product_name uuid packages ++
                             lit " in Frameworks */")
                (product_dependencies s)) ++
           lit "," ++ nl ++ tab ++ tab ++ lit ");")
    with (g1 ++ lit "(" ++
          (join (lit "," ++ nl ++ tab ++ tab ++ tab)
             (List.map
                (fun uuid => uuid ++ lit " /* " ++
                             get_product_name uuid packages ++
                             lit " in Frameworks */")
                (product_dependencies s)) ++
           lit "," ++ nl ++ tab ++ tab) ++ lit ");")
    by (rewrite <- !app_assoc; reflexivity).
  apply list_filled.
Qed.

(** The whole operation only inserts text. *)
Lemma new_content_only_inserts (rnd : nat -> N) (content : str) :
  only_inserts content (new_content rnd content).
Proof.
  unfold new_content.
  destruct (build_sections rnd packages empty_sections 0) as [s k].
  destruct (contains build_file_end content) eqn:C;
    [|apply FrameFacts.only_inserts_refl].
  eapply FrameFacts.only_inserts_trans;
    [|apply (FrameFacts.sub_only_inserts
               _ _ (frameworks_replacement_inserts s) _ _ (Nat.le_refl _))].
  eapply FrameFacts.only_inserts_trans;
    [|apply (FrameFacts.sub_only_inserts
               _ _ (horizon_target_replacement_inserts s) _ _
               (Nat.le_refl _))].
  destruct (PackageFacts.insert_sections_splice s content C)
    as (pre & post & E & ->).
  rewrite E. rewrite !(app_assoc pre).
  apply FrameFacts.only_inserts_middle.
Qed.

(** The identifiers of the products, in the order of their
    drawing. *)
Lemma product_dependencies_drawn (rnd : nat -> N) :
  product_dependencies
    (fst (build_sections rnd packages empty_sections 0))
  = drawn rnd [1; 3; 5; 7; 8; 10; 12].
Proof. reflexivity. Qed.

Lemma drawn_generated (rnd : nat -> N) (draws : list nat) :
  Forall generated (drawn rnd draws).
Proof.
  unfold drawn. apply Forall_forall. intros u Hu.
  apply in_map_iff in Hu. destruct Hu as (i & <- & _).
  eexists. reflexivity.
Qed.

(** What the lookup makes of the comments. *)
Lemma horizon_target_replacement_written (rnd : nat -> N)
      (draws : list nat) (s : sections) (caps : list str) :
  product_dependencies s = drawn rnd draws ->
  horizon_target_replacement s caps
  = group 1 caps ++ lit "(" ++ target_entries (product_dependencies s)
      ++ lit ");".
Proof.
  intros E. unfold horizon_target_replacement, target_entries.
  do 4 f_equal. apply map_ext_in. intros u Hu.
  rewrite E in Hu.
  pose proof (drawn_generated rnd draws) as G.
  rewrite Forall_forall in G. destruct (G u Hu) as (r & ->).
  rewrite ModifyHorizonProjectFacts.get_product_name_upper_hex
    by apply UuidFacts.generate_uuid_of_alphabet.
  reflexivity.
Qed.

Lemma frameworks_replacement_written (rnd : nat -> N)
      (draws : list nat) (s : sections) (caps : list str) :
  product_dependencies s = drawn rnd draws ->
  frameworks_replacement s caps
  = group 1 caps ++ lit "("
      ++ frameworks_entries (product_dependencies s) ++ lit ");".
Proof.
  intros E. unfold frameworks_replacement, frameworks_entries.
  rewrite <- !app_assoc. do 4 f_equal. apply map_ext_in. intros u Hu.
  rewrite E in Hu.
  pose proof (drawn_generated rnd draws) as G.
  rewrite Forall_forall in G. destruct (G u Hu) as (r & ->).
  rewrite ModifyHorizonProjectFacts.get_product_name_upper_hex
    by apply UuidFacts.generate_uuid_of_alphabet.
  reflexivity.
Qed.

End WrittenFacts.

(** ** Reading the written lists *)

Module WrittenListFacts.

Import Pbx ModifyHorizonProject Notions.

(** A digit of an identifier ends neither an entry nor the list. *)
Lemma upper_hex_in_entry (c : char) :
  is_upper_hex c = true ->
  char_eqb c 41%N = false /\ isspace c = false
  /\ char_eqb c 44%N = false /\ char_eqb c 47%N = false.
Proof.
  intros H. unfold is_upper_hex in H.
  assert (R : (48 <= c <= 57 \/ 65 <= c <= 70)%N).
  { apply orb_true_iff in H. destruct H as [H|H];
      apply andb_true_iff in H; destruct H as [H1 H2];
      apply N.leb_le in H1; apply N.leb_le in H2; lia. }
  unfold char_eqb, isspace.
  repeat split; try (apply N.eqb_neq; lia).
  repeat (apply orb_false_iff; split);
    try (apply N.eqb_neq; lia);
    apply andb_false_iff;
    first [left; apply N.leb_gt; lia|right; apply N.leb_gt; lia].
Qed.

Lemma scan_ident_digit (acc : str) (c : char) (rest : str) :
  is_upper_hex c = true ->
  scan (Ident acc) (c :: rest) = scan (Ident (acc ++ [c])) rest.
Proof.
  intros H. destruct (upper_hex_in_entry c H) as (H1 & H2 & H3 & H4).
  cbn [scan]. now rewrite H1, H2, H3, H4.
Qed.

Lemma scan_ident_digits (u : str) :
  Forall (fun c => is_upper_hex c = true) u ->
  forall acc rest,
    scan (Ident acc) (u ++ rest) = scan (Ident (acc ++ u)) rest.
Proof.
  induction 1 as [|c u Hc _ IH]; intros acc rest.
  - now rewrite app_nil_r.
  - cbn [app]. rewrite scan_ident_digit by exact Hc.
    rewrite IH, <- app_assoc. reflexivity.
Qed.

Lemma scan_gap_digits (u rest : str) :
  u <> [] -> Forall (fun c => is_upper_hex c = true) u ->
  scan Gap (u ++ rest) = scan (Ident u) rest.
Proof.
  intros Hn Hu. destruct u as [|c u]; [congruence|].
  inversion Hu as [|? ? Hc Hu']; subst.
  destruct (upper_hex_in_entry c Hc) as (H1 & H2 & H3 & H4).
  cbn [app scan]. rewrite H1, H2, H3, H4. cbn [orb].
  apply (scan_ident_digits u Hu' [c]).
Qed.

Lemma scan_ident_space (acc rest : str) :
  scan (Ident acc) (32%N :: rest)
  = let '(ids, e) := scan Gap rest in (acc :: ids, e).
Proof. reflexivity. Qed.

(** An identifier followed by a comment is one entry. *)
Lemma scan_entry (u comment rest : str) :
  u <> [] -> Forall (fun c => is_upper_hex c = true) u ->
  scan Gap comment = ([], Some Gap) ->
  scan Gap (u ++ (32%N :: comment) ++ rest)
  = let '(ids, e) := scan Gap rest in (u :: ids, e).
Proof.
  intros Hn Hu Hc. rewrite scan_gap_digits by assumption.
  cbn [app]. rewrite scan_ident_space.
  rewrite PbxFacts.scan_app, Hc.
  destruct (scan Gap rest) as [ids e]. reflexivity.
Qed.

(** Entries joined by a separator read as their identifiers. *)
Lemma scan_entries (comment sep : str) (us : list str) :
  scan Gap comment = ([], Some Gap) ->
  scan Gap sep = ([], Some Gap) ->
  Forall generated us ->
  forall rest,
    scan Gap (join sep (List.map (fun u : str => u ++ 32%N :: comment) us)
                ++ rest)
    = let '(ids, e) := scan Gap rest in (us ++ ids, e).
Proof.
  intros Hc Hs Hu. induction Hu as [|u us (r & ->) Hus IH]; intros rest.
  - cbn [List.map join app]. now destruct (scan Gap rest).
  - assert (Hn : Uuid.generate_uuid_of r <> []).
    { intros E. pose proof (UuidFacts.generate_uuid_of_length r) as L.
      rewrite E in L. discriminate L. }
    pose proof (UuidFacts.generate_uuid_of_alphabet r) as Ha.
    destruct us as [|u' us'].
    + cbn [List.map join]. rewrite <- app_assoc.
      etransitivity; [exact (scan_entry _ comment rest Hn Ha Hc)|].
      now destruct (scan Gap rest).
    + change (join sep (List.map (fun u : str => u ++ 32%N :: comment)
                                 (Uuid.generate_uuid_of r :: u' :: us')))
        with ((Uuid.generate_uuid_of r ++ 32%N :: comment)
                ++ sep
                ++ join sep (List.map (fun u : str => u ++ 32%N :: comment)
                                      (u' :: us'))).
      rewrite <- !app_assoc.
      etransitivity; [exact (scan_entry _ comment _ Hn Ha Hc)|].
      rewrite PbxFacts.scan_app, Hs. rewrite IH.
      now destruct (scan Gap rest).
Qed.

(** The lists written for the identifiers [us] read as [us]. *)
Lemma target_entries_read (us : list str) (post : str) :
  Forall generated us ->
  edge_list (target_entries us ++ lit ");" ++ post) = us.
Proof.
  intros Hu.
  apply (PbxFacts.edge_list_filled (target_entries us) us [] post);
    [|reflexivity].
  pose proof (scan_entries (lit "/* Package */") (lit ", ") us
                           eq_refl eq_refl Hu []) as S.
  cbn [scan] in S. rewrite !app_nil_r in S. exact S.
Qed.

Lemma frameworks_entries_read (us : list str) (post : str) :
  Forall generated us ->
  edge_list (frameworks_entries us ++ lit ");" ++ post) = us.
Proof.
  intros Hu.
  apply (PbxFacts.edge_list_filled (frameworks_entries us) us [] post);
    [|reflexivity].
  pose proof (scan_entries (lit "/* Package in Frameworks */")
                           (lit "," ++ nl ++ tab ++ tab ++ tab) us
                           eq_refl eq_refl Hu
                           (lit "," ++ nl ++ tab ++ tab)) as S.
  replace (scan Gap (lit "," ++ nl ++ tab ++ tab))
    with (@nil str, Some Gap) in S by reflexivity.
  rewrite !app_nil_r in S. exact S.
Qed.

(** The identifiers are pairwise distinct exactly when the UUID
    values drawn are. *)
Lemma drawn_NoDup (rnd : nat -> N) (draws : list nat) :
  NoDup (drawn rnd draws)
  <-> NoDup (List.map (fun i => Uuid.uuid4_int (rnd i)) draws).
Proof.
  unfold drawn. apply NoDup_map_iff. intros i j.
  apply UuidFacts.generate_uuid_of_inj.
Qed.

(** The records of the products carry their names. *)
Lemma add_package_named (rnd : nat -> N) (p : package)
      (acc : sections) (k : nat) :
  Forall named_record (package_products acc) ->
  Forall named_record (package_products (fst (add_package rnd p acc k))).
Proof.
  intros H. unfold add_package, Uuid.bind, Uuid.generate_uuid, Uuid.ret.
  destruct (str_eqb (name p) (lit "Nuke"));
    cbn [fst package_products];
    apply Forall_app; (split; [exact H|]);
    repeat constructor; eexists _, _, _, _; reflexivity.
Qed.

Lemma build_sections_named (rnd : nat -> N) (ps : list package) :
  forall (acc : sections) (k : nat),
    Forall named_record (package_products acc) ->
    Forall named_record
           (package_products (fst (build_sections rnd ps acc k))).
Proof.
  induction ps as [|p ps IH]; intros acc k H;
    cbn [build_sections]; [exact H|].
  unfold Uuid.bind.
  pose proof (add_package_named rnd p acc k H) as H'.
  destruct (add_package rnd p acc k) as [acc' k']. apply IH. exact H'.
Qed.

End WrittenListFacts.

(** ** Substitutions that fill empty lists *)

Module FillFacts.

Import Re ModifyHorizonProject Notions.

(** A substitution whose matches hold an empty list of [field] and
    whose replacement writes [entries] into it fills empty lists. *)
Lemma sub_fills (r : regex) (repl : list str -> str)
      (field entries : str) :
  rmatch r [] = None ->
  (forall m caps,
      matches r m caps ->
      exists a ws b,
        forallb isspace ws = true
        /\ m = a ++ field ++ lit " = (" ++ ws ++ lit ");" ++ b
        /\ repl caps
           = a ++ field ++ lit " = (" ++ entries ++ ws ++ lit ");" ++ b) ->
  forall n s,
    length s <= n -> fills_empty_lists field entries s (sub r repl s).
Proof.
  intros Hnil Hm. induction n as [|n IH]; intros s Hn.
  - destruct s; [|cbn in Hn; lia].
    rewrite ReFacts.sub_nil_nomatch by exact Hnil. constructor.
  - destruct s as [|c s].
    { rewrite ReFacts.sub_nil_nomatch by exact Hnil. constructor. }
    destruct (rmatch r (c :: s)) as [[caps rest]|] eqn:E.
    + destruct (ReFacts.rmatch_sound _ _ _ _ E) as (m & Es & M).
      destruct (Hm m caps M) as (a & ws & b & Hws & Em & Er).
      assert (Hne : m <> []).
      { rewrite Em. intros Z. apply (f_equal (@length _)) in Z.
        rewrite !length_app in Z.
        change (length (lit " = (")) with 4 in Z. cbn [length] in Z. lia. }
      assert (Hlen : length rest < length (c :: s)).
      { rewrite Es, length_app. destruct m; [congruence|].
        cbn [length]. lia. }
      rewrite Es in E |- *.
      rewrite (ReFacts.sub_match r repl m rest caps Hne E).
      rewrite Er, Em. rewrite <- !app_assoc.
      apply PbxFacts.fills_app_keep.
      apply fill_list; [exact Hws|].
      apply PbxFacts.fills_app_keep.
      apply IH. cbn [length] in Hlen, Hn. lia.
    + rewrite ReFacts.sub_cons_nomatch by exact E.
      constructor. apply IH. cbn in Hn. lia.
Qed.

(** The substitution on the record of the Horizon target fills empty
    lists [packageProductDependencies]. *)
Lemma sub_horizon_target_fills (rnd : nat -> N) (draws : list nat)
      (s : sections) (t : str) :
  product_dependencies s = drawn rnd draws ->
  fills_empty_lists (lit "packageProductDependencies")
                    (target_entries (product_dependencies s)) t
                    (sub horizon_target_pattern
                         (horizon_target_replacement s) t).
Proof.
  intros Hs.
  assert (Hnil : rmatch horizon_target_pattern [] = None)
    by (vm_compute; reflexivity).
  apply (sub_fills _ _ _ _ Hnil) with (n := length t);
    [|apply Nat.le_refl].
  intros m caps M.
  rewrite (WrittenFacts.horizon_target_replacement_written
             rnd draws s caps Hs).
  unfold horizon_target_pattern in M. invert_matches.
  cbn [app group Nat.sub nth].
  match goal with
  | H : forallb not_rbrace ?x = true |- context [?b1 ++ lit " Horizon " ++ ?b2 ++ _] =>
      exists (lit "1D1A9BBD2E761986002B8F85 /" ++ b1 ++ lit " Horizon "
                ++ b2 ++ lit "/ = {" ++ x), [], []
  end.
  split; [reflexivity|].
  change (lit "packageProductDependencies = ")
    with (lit "packageProductDependencies" ++ lit " = ").
  change (lit " = (") with (lit " = " ++ lit "(").
  change (lit "();") with (lit "(" ++ lit ");").
  cbn [app]. rewrite !app_nil_r, <- !app_assoc.
  split; reflexivity.
Qed.

(** The substitution on the record of the Frameworks phase fills
    empty lists [files]. *)
Lemma sub_frameworks_phase_fills (rnd : nat -> N) (draws : list nat)
      (s : sections) (t : str) :
  product_dependencies s = drawn rnd draws ->
  fills_empty_lists (lit "files")
                    (frameworks_entries (product_dependencies s)) t
                    (sub frameworks_pattern (frameworks_replacement s) t).
Proof.
  intros Hs.
  assert (Hnil : rmatch frameworks_pattern [] = None)
    by (vm_compute; reflexivity).
  apply (sub_fills _ _ _ _ Hnil) with (n := length t);
    [|apply Nat.le_refl].
  intros m caps M.
  rewrite (WrittenFacts.frameworks_replacement_written
             rnd draws s caps Hs).
  unfold frameworks_pattern in M. invert_matches.
  cbn [app group Nat.sub nth].
  match goal with
  | H : forallb not_rbrace ?x = true
    |- context [?b1 ++ lit " Frameworks " ++ ?b2 ++ _] =>
      exists (lit "1D1A9BBB2E761986002B8F85 /" ++ b1 ++ lit " Frameworks "
                ++ b2 ++ lit "/ = {" ++ x), [], []
  end.
  split; [reflexivity|].
  change (lit "files = ") with (lit "files" ++ lit " = ").
  change (lit " = (") with (lit " = " ++ lit "(").
  change (lit "();") with (lit "(" ++ lit ");").
  cbn [app]. rewrite !app_nil_r, <- !app_assoc.
  split; reflexivity.
Qed.

End FillFacts.

(** ** The steps of the scripts *)

Module StepFacts.

Import Re Notions.

(** The product-reference step of complete_framework_fix performs at
    most one of its two substitutions. *)
Lemma add_product_references_cases (t : str) :
  let filled :=
    sub CompleteFrameworkFix.group_pattern
        CompleteFrameworkFix.add_products t in
  CompleteFrameworkFix.add_product_references t = t
  \/ CompleteFrameworkFix.add_product_references t = filled
  \/ (filled = t
      /\ CompleteFrameworkFix.add_product_references t
         = sub CompleteFrameworkFix.main_group_pattern
               (fun caps => group 1 caps
                              ++ CompleteFrameworkFix.products_group) t).
Proof.
  cbv zeta. unfold CompleteFrameworkFix.add_product_references.
  destruct (contains (lit "XCRemoteSwiftPackageProduct") t);
    [left; reflexivity|]. cbn [negb].
  destruct (ReFacts.sub_unchanged_or_replaced
              CompleteFrameworkFix.group_pattern
              CompleteFrameworkFix.add_products t)
    as [E|(caps & a & b & E)].
  - rewrite E.
    destruct (contains (lit "1D60002922D4FAF6008BF43F /* Products */") t);
      cbn [negb]; [left; reflexivity|].
    right. right. split; reflexivity.
  - right. left. rewrite E.
    assert (H : contains (lit "1D60002922D4FAF6008BF43F /* Products */")
                  (a ++ CompleteFrameworkFix.add_products caps ++ b)
                = true).
    { apply contains_app_r, contains_app_l.
      unfold CompleteFrameworkFix.add_products.
      apply contains_app_r, contains_app_l.
      vm_compute. reflexivity. }
    rewrite H. reflexivity.
Qed.

(** A script that reads, transforms and writes back rewrites in
    place. *)
Lemma read_modify_write_in_place (p : Disk.path) (transform : str -> str)
      (d : Disk.disk) (n : nat) :
  rewrites_in_place (Disk.read_modify_write p transform) p transform d n.
Proof.
  unfold rewrites_in_place, Disk.read_modify_write.
  destruct (d p) as [content|] eqn:Hd; [|reflexivity].
  eexists. split; [reflexivity|]. split; [reflexivity|].
  destruct (DiskFacts.interrupted_write_file p (transform content) d n)
    as [H1 H2].
  split; [|split; [exact H2 | apply DiskFacts.exec_write_file]].
  change (Disk.OpenW p :: List.map (Disk.WriteChar p) (transform content)
            ++ [Disk.Close p])
    with (Disk.write_file p (transform content)).
  rewrite H1. destruct n; [exact Hd | reflexivity].
Qed.

End StepFacts.

(** ** The scripts that rewrite the project file *)





(** ** The comments and the lists add_packages_to_project writes *)

(** C10, as stated, fails in its conclusion: the records of the
    product dependencies carry their product names as inline comments.
    With the identifiers [...0006] for the package reference of Nuke and
    [...0007] for its first product, the text written holds the record
    [...0007 /* Nuke */ = {... productName = Nuke; ...}], although the
    lookup answers ["Package"] on that identifier. *)
Lemma add_packages_writes_product_names_on_records :
  let new := ModifyHorizonProject.new_content Samples.counting_rnd
                                              Samples.horizon_project in
  contains
    (txt [tab; tab; lit "00000000000040008000000000000007 /* Nuke */ = {"; nl;
          tab; tab; tab; lit "isa = XCSwiftPackageProductDependency;"; nl;
          tab; tab; tab;
          lit "package = 00000000000040008000000000000006 /* Nuke */;"; nl;
          tab; tab; tab; lit "productName = Nuke;"; nl])
    new = true
  /\ In (lit "Nuke", lit "Nuke") ModifyHorizonProject.product_names
  /\ ModifyHorizonProject.get_product_name
       (lit "00000000000040008000000000000007")
       ModifyHorizonProject.packages = lit "Package".
Proof.
  cbv zeta. split; [vm_compute; reflexivity|].
  split; [|vm_compute; reflexivity].
  unfold ModifyHorizonProject.product_names. cbn [In].
  do 3 right. left. reflexivity.
Qed.

(** C10, amended: every identifier the allocator produces is made of
    32 characters of [0-9A-F], so [get_product_name] answers
    ["Package"] on it, and ["Package"] is none of the product names.
    Hence the comments [add_packages_to_project] writes through the
    lookup, in the entries it puts into the list of the target and into
    the file list of the Frameworks phase, are always [/* Package */]
    and [/* Package in Frameworks */]: the text the script computes is
    the one computed with these entries.  The records of the product
    dependencies do not go through the lookup: the inline comment of
    each is the text of its own [productName] field. *)
Theorem get_product_name_of_generated_uuid
        (rnd : nat -> N) (k : nat) (content : str) :
  let u := fst (Uuid.generate_uuid rnd k) in
  let s := fst (ModifyHorizonProject.build_sections
                  rnd ModifyHorizonProject.packages
                  ModifyHorizonProject.empty_sections 0) in
  let uuids := ModifyHorizonProject.product_dependencies s in
  length u = 32
  /\ Forall (fun c => is_upper_hex c = true) u
  /\ ModifyHorizonProject.get_product_name u ModifyHorizonProject.packages
     = lit "Package"
  /\ Forall (fun d =>
       ModifyHorizonProject.get_product_name d ModifyHorizonProject.packages
       = lit "Package") uuids
  /\ Forall (fun kv => fst kv <> lit "Package" /\ snd kv <> lit "Package")
            ModifyHorizonProject.product_names
  /\ (forall caps,
        ModifyHorizonProject.horizon_target_replacement s caps
        = Re.group 1 caps ++ lit "("
            ++ join (lit ", ")
                 (List.map (fun uuid => uuid ++ lit " /* Package */") uuids)
            ++ lit ");")
  /\ (forall caps,
        ModifyHorizonProject.frameworks_replacement s caps
        = Re.group 1 caps ++ lit "("
            ++ join (lit "," ++ nl ++ tab ++ tab ++ tab)
                 (List.map
                    (fun uuid => uuid ++ lit " /* Package in Frameworks */")
                    uuids)
            ++ lit "," ++ nl ++ tab ++ tab ++ lit ");")
  /\ ModifyHorizonProject.new_content rnd content
     = (if contains ModifyHorizonProject.build_file_end content then
          Re.sub ModifyHorizonProject.frameworks_pattern
            (fun caps =>
               Re.group 1 caps ++ lit "("
                 ++ join (lit "," ++ nl ++ tab ++ tab ++ tab)
                      (List.map
                         (fun uuid =>
                            uuid ++ lit " /* Package in Frameworks */")
                         uuids)
                 ++ lit "," ++ nl ++ tab ++ tab ++ lit ");")
            (Re.sub ModifyHorizonProject.horizon_target_pattern
               (fun caps =>
                  Re.group 1 caps ++ lit "("
                    ++ join (lit ", ")
                         (List.map (fun uuid => uuid ++ lit " /* Package */")
                                   uuids)
                    ++ lit ");")
               (ModifyHorizonProject.insert_sections s content))
        else content)
  /\ Forall Notions.named_record (ModifyHorizonProject.package_products s).
Proof.
  cbv zeta. unfold Uuid.generate_uuid. cbn [fst].
  split; [apply UuidFacts.generate_uuid_of_length|].
  split; [apply UuidFacts.generate_uuid_of_alphabet|].
  split.
  { apply ModifyHorizonProjectFacts.get_product_name_upper_hex.
    apply UuidFacts.generate_uuid_of_alphabet. }
  split.
  { eapply Forall_impl;
      [|apply ModifyHorizonProjectFacts.build_sections_generated; constructor].
    intros d (r & ->).
    apply ModifyHorizonProjectFacts.get_product_name_upper_hex.
    apply UuidFacts.generate_uuid_of_alphabet. }
  split.
  { repeat constructor; cbn [fst snd]; intros E; vm_compute in E;
      discriminate E. }
  pose proof (WrittenFacts.product_dependencies_drawn rnd) as D.
  assert (H1 : forall caps,
             ModifyHorizonProject.horizon_target_replacement
               (fst (ModifyHorizonProject.build_sections
                       rnd ModifyHorizonProject.packages
                       ModifyHorizonProject.empty_sections 0)) caps
             = Re.group 1 caps ++ lit "("
                 ++ join (lit ", ")
                      (List.map (fun uuid => uuid ++ lit " /* Package */")
                         (ModifyHorizonProject.product_dependencies
                            (fst (ModifyHorizonProject.build_sections
                                    rnd ModifyHorizonProject.packages
                                    ModifyHorizonProject.empty_sections 0))))
                 ++ lit ");").
  { intros caps.
    exact (WrittenFacts.horizon_target_replacement_written rnd _ _ caps D). }
  assert (H2 : forall caps,
             ModifyHorizonProject.frameworks_replacement
               (fst (ModifyHorizonProject.build_sections
                       rnd ModifyHorizonProject.packages
                       ModifyHorizonProject.empty_sections 0)) caps
             = Re.group 1 caps ++ lit "("
                 ++ join (lit "," ++ nl ++ tab ++ tab ++ tab)
                      (List.map
                         (fun uuid =>
                            uuid ++ lit " /* Package in Frameworks */")
                         (ModifyHorizonProject.product_dependencies
                            (fst (ModifyHorizonProject.build_sections
                                    rnd ModifyHorizonProject.packages
                                    ModifyHorizonProject.empty_sections 0))))
                 ++ lit "," ++ nl ++ tab ++ tab ++ lit ");").
  { intros caps.
    rewrite (WrittenFacts.frameworks_replacement_written rnd _ _ caps D).
    unfold Notions.frameworks_entries. rewrite <- !app_assoc.
    reflexivity. }
  split; [exact H1|]. split; [exact H2|].
  split.
  { unfold ModifyHorizonProject.new_content.
    destruct (ModifyHorizonProject.build_sections
                rnd ModifyHorizonProject.packages
                ModifyHorizonProject.empty_sections 0) as [s k0].
    cbn [fst] in *.
    destruct (contains ModifyHorizonProject.build_file_end content);
      [|reflexivity].
    rewrite (FrameFacts.sub_ext _ _ _ _ H1).
    apply (FrameFacts.sub_ext _ _ _ _ H2). }
  apply WrittenListFacts.build_sections_named. constructor.
Qed.

(** ** The edge lists the scripts write *)



(** ** Guarded insertion after a section marker *)

Module GuardedStepFacts.

Import Re Notions.

Section Step.

Variables (guard l e : str).
Hypothesis l_not_nil : l <> [].
Hypothesis l_apart : free_of l (tl l) = true.
Hypothesis guard_in_entries : contains guard e = true.

Let step (content : str) : str :=
  if negb (contains guard content) then
    sub (Group (Lit l)) (fun caps => group 1 caps ++ e) content
  else content.

Lemma step_guarded (content : str) :
  contains guard content = true -> step content = content.
Proof. intros H. unfold step. now rewrite H. Qed.

Lemma step_length (content : str) :
  contains guard content = false ->
  length (step content)
  = length content + Pbx.count l content * length e.
Proof.
  intros H. unfold step. rewrite H. cbn [negb].
  apply (MarkerFacts.insert_after_length l e l_not_nil l_apart
                                         (length content)).
  apply Nat.le_refl.
Qed.

Lemma step_absent (content : str) :
  contains l content = false -> step content = content.
Proof.
  intros H. unfold step.
  destruct (contains guard content); [reflexivity|]. cbn [negb].
  now apply (MarkerFacts.insert_after_absent l e l_not_nil).
Qed.

Lemma step_idempotent (content : str) :
  step (step content) = step content.
Proof.
  unfold step at 2 3.
  destruct (contains guard content) eqn:G; cbn [negb].
  - now apply step_guarded.
  - destruct (ReFacts.sub_unchanged_or_replaced
                (Group (Lit l)) (fun caps => group 1 caps ++ e) content)
      as [E|(caps & a & b & E)].
    + rewrite E. unfold step. now rewrite G, E.
    + rewrite E. apply step_guarded.
      apply contains_app_r, contains_app_l, contains_app_r.
      exact guard_in_entries.
Qed.

Lemma step_only_inserts (content : str) :
  only_inserts content (step content).
Proof.
  unfold step.
  destruct (contains guard content); cbn [negb];
    [apply FrameFacts.only_inserts_refl|].
  apply (FrameFacts.sub_only_inserts (Group (Lit l))) with
    (n := length content); [|apply Nat.le_refl].
  intros m caps M. invert_matches. cbn [group Nat.sub nth].
  rewrite <- (app_nil_r m) at 1.
  apply FrameFacts.only_inserts_app;
    [apply FrameFacts.only_inserts_refl|apply FrameFacts.only_inserts_nil].
Qed.

End Step.

End GuardedStepFacts.


(** ** The scripts only insert *)

Module InsertionFacts.

Import Re Notions.

Lemma replace_frameworks_inserts (m : str) (caps : list str) :
  matches AddFrameworks.frameworks_pattern m caps ->
  only_inserts m (AddFrameworks.replace_frameworks caps).
Proof.
  unfold AddFrameworks.frameworks_pattern. intros H. invert_matches.
  cbn [app]. rewrite AddFrameworksFacts.replace_frameworks_entries.
  apply FrameFacts.only_inserts_middle.
Qed.

Lemma add_packages_inserts (m : str) (caps : list str) :
  matches CompleteFrameworkFix.project_pattern m caps ->
  only_inserts m (CompleteFrameworkFix.add_packages caps).
Proof.
  unfold CompleteFrameworkFix.project_pattern. intros H. invert_matches.
  cbn [app]. unfold CompleteFrameworkFix.add_packages.
  cbn [group Nat.sub nth].
  apply FrameFacts.only_inserts_app; [apply FrameFacts.only_inserts_refl|].
  replace (lit "packageReferences = (" ++ nl
             ++ CompleteFrameworkFix.package_refs ++ lit ");" ++ nl
             ++ tab ++ lit "}")
    with ([] ++ (lit "packageReferences = (" ++ nl
                   ++ CompleteFrameworkFix.package_refs ++ lit ");" ++ nl
                   ++ tab) ++ lit "}")
    by (cbn [app]; rewrite <- !app_assoc; reflexivity).
  change (lit "}") with ([] ++ lit "}") at 1.
  apply FrameFacts.only_inserts_middle.
Qed.

Lemma add_products_inserts (m : str) (caps : list str) :
  matches CompleteFrameworkFix.group_pattern m caps ->
  only_inserts m (CompleteFrameworkFix.add_products caps).
Proof.
  unfold CompleteFrameworkFix.group_pattern. intros H. invert_matches.
  cbn [app]. rewrite CompleteFrameworkFixFacts.add_products_entry.
  apply FrameFacts.only_inserts_middle.
Qed.

Lemma after_literal_inserts (l e m : str) (caps : list str) :
  matches (Group (Lit l)) m caps ->
  only_inserts m (group 1 caps ++ e).
Proof.
  intros H. invert_matches. cbn [group Nat.sub nth].
  rewrite <- (app_nil_r m) at 1.
  apply FrameFacts.only_inserts_app;
    [apply FrameFacts.only_inserts_refl|apply FrameFacts.only_inserts_nil].
Qed.

Lemma sub_inserts (r : regex) (repl : list str -> str) (s : str) :
  (forall m caps, matches r m caps -> only_inserts m (repl caps)) ->
  only_inserts s (sub r repl s).
Proof.
  intros H.
  apply (FrameFacts.sub_only_inserts r repl H (length s)), Nat.le_refl.
Qed.

Lemma add_frameworks_only_inserts (content : str) :
  only_inserts content (AddFrameworks.new_content content).
Proof.
  unfold AddFrameworks.new_content.
  assert (H : only_inserts content
                (sub AddFrameworks.frameworks_pattern
                     AddFrameworks.replace_frameworks content))
    by (apply sub_inserts, replace_frameworks_inserts).
  destruct (negb (contains (lit "1D60000F22D4FAF6008BF43F")
                           (sub AddFrameworks.frameworks_pattern
                                AddFrameworks.replace_frameworks content)));
    [|exact H].
  eapply FrameFacts.only_inserts_trans; [exact H|].
  apply sub_inserts. intros m caps.
  apply after_literal_inserts.
Qed.

Lemma complete_framework_fix_only_inserts (content : str) :
  only_inserts content (CompleteFrameworkFix.new_content content).
Proof.
  unfold CompleteFrameworkFix.new_content.
  assert (S1 : forall t,
             only_inserts t (CompleteFrameworkFix.add_buildfile_entries t)).
  { intros t. unfold CompleteFrameworkFix.add_buildfile_entries.
    destruct (negb (contains (lit "1D60000F22D4FAF6008BF43F") t));
      [|apply FrameFacts.only_inserts_refl].
    apply sub_inserts. intros m caps. apply after_literal_inserts. }
  assert (S2 : forall t,
             only_inserts t (CompleteFrameworkFix.add_fileref_entries t)).
  { intros t. unfold CompleteFrameworkFix.add_fileref_entries.
    destruct (negb (contains
                      (lit "1D60000E22D4FAF6008BF43F /* UIKit.framework */")
                      t));
      [|apply FrameFacts.only_inserts_refl].
    apply sub_inserts. intros m caps. apply after_literal_inserts. }
  assert (S3 : forall t,
             only_inserts t (CompleteFrameworkFix.add_package_references t)).
  { intros t. unfold CompleteFrameworkFix.add_package_references.
    destruct (negb (contains (lit "XCRemoteSwiftPackageReference") t));
      [|apply FrameFacts.only_inserts_refl].
    apply sub_inserts, add_packages_inserts. }
  assert (S4 : forall t,
             only_inserts t (CompleteFrameworkFix.add_product_references t)).
  { intros t. unfold CompleteFrameworkFix.add_product_references.
    destruct (negb (contains (lit "XCRemoteSwiftPackageProduct") t));
      [|apply FrameFacts.only_inserts_refl].
    assert (H : only_inserts t
                  (sub CompleteFrameworkFix.group_pattern
                       CompleteFrameworkFix.add_products t))
      by (apply sub_inserts, add_products_inserts).
    destruct (negb (contains
                      (lit "1D60002922D4FAF6008BF43F /* Products */")
                      (sub CompleteFrameworkFix.group_pattern
                           CompleteFrameworkFix.add_products t)));
      [|exact H].
    eapply FrameFacts.only_inserts_trans; [exact H|].
    apply sub_inserts. intros m caps. apply after_literal_inserts. }
  eapply FrameFacts.only_inserts_trans; [apply S1|].
  eapply FrameFacts.only_inserts_trans; [apply S2|].
  eapply FrameFacts.only_inserts_trans; [apply S3|].
  apply S4.
Qed.

(** A text into which characters were inserted is at least as
    long, and equal when it has the same length. *)
Lemma only_inserts_length (a b : str) :
  only_inserts a b -> length a <= length b.
Proof. induction 1; cbn [length]; lia. Qed.

Lemma only_inserts_same_length (a b : str) :
  only_inserts a b -> length b <= length a -> a = b.
Proof.
  induction 1 as [|c a b H IH|c a b H IH]; cbn [length]; intros L.
  - reflexivity.
  - f_equal. apply IH. lia.
  - apply only_inserts_length in H. lia.
Qed.

End InsertionFacts.

(** X9: the three scripts that edit the project file only insert
    text.  Whatever the text of the project (and the random bits), the
    text a script computes holds every character of the old text, in
    order; it is never shorter, and when it has the same length it is
    the old text itself. *)
Theorem project_scripts_only_insert (rnd : nat -> N) (content : str) :
  Forall (fun new =>
            Notions.only_inserts content new
            /\ length content <= length new
            /\ (length new <= length content -> new = content))
         [AddFrameworks.new_content content;
          CompleteFrameworkFix.new_content content;
          ModifyHorizonProject.new_content rnd content].
Proof.
  assert (G : forall new,
             Notions.only_inserts content new ->
             Notions.only_inserts content new
             /\ length content <= length new
             /\ (length new <= length content -> new = content)).
  { intros new H. split; [exact H|].
    split; [now apply InsertionFacts.only_inserts_length|].
    intros L. symmetry.
    now apply InsertionFacts.only_inserts_same_length. }
  constructor;
    [apply G, InsertionFacts.add_frameworks_only_inserts|].
  constructor;
    [apply G, InsertionFacts.complete_framework_fix_only_inserts|].
  constructor;
    [apply G, WrittenFacts.new_content_only_inserts|constructor].
Qed.

(** ** Finding the Swift files *)

Module FindSwiftFilesFacts.

Import FindSwiftFiles.

(** Induction on a directory tree. *)
Lemma entry_induction (P : entry -> Prop) :
  (forall name, P (File name)) ->
  (forall name children, Forall P children -> P (Dir name children)) ->
  (forall name, P (DirLink name)) ->
  forall e, P e.
Proof.
  intros HF HD HL. fix IH 1. intros [name|name children|name].
  - apply HF.
  - apply HD. induction children as [|c children IHc].
    + constructor.
    + constructor; [apply IH|exact IHc].
  - apply HL.
Qed.

Lemma filenames_In (name : str) (children : list entry) :
  In name (filenames children) <-> In (File name) children.
Proof.
  induction children as [|c children IH]; [reflexivity|].
  destruct c as [n|n ch|n]; cbn [filenames In]; rewrite IH.
  - split; intros [H|H]; auto; left; congruence.
  - split; [auto|intros [H|H]; [discriminate|auto]].
  - split; [auto|intros [H|H]; [discriminate|auto]].
Qed.

Lemma find_swift_files_dir (top name : str) (children : list entry) :
  find_swift_files top (Dir name children)
  = List.map (path_join top)
             (filter (endswith (lit ".swift")) (filenames children))
      ++ flat_map (fun c =>
                     match c with
                     | Dir m _ => find_swift_files (path_join top m) c
                     | _ => []
                     end) children.
Proof.
  unfold find_swift_files. cbn [walk flat_map swift_files_of].
  f_equal. induction children as [|c children IH]; [reflexivity|].
  cbn [flat_map]. rewrite flat_map_app, IH.
  f_equal. destruct c; reflexivity.
Qed.

(** [find_swift_files] returns exactly the paths of the files with a
    name ending in [.swift] of the directories the walk enters. *)
Lemma find_swift_files_located (tree : entry) :
  forall top p,
    In p (find_swift_files top tree)
    <-> exists root name,
          located tree top root name
          /\ endswith (lit ".swift") name = true
          /\ p = path_join root name.
Proof.
  induction tree as [name|name children IH|name] using entry_induction;
    intros top p.
  - split; [intros []|]. intros (root & n & L & _). inversion L.
  - rewrite find_swift_files_dir, in_app_iff, in_map_iff, in_flat_map.
    split.
    + intros [(n & <- & Hn)|(c & Hc & Hp)].
      * apply filter_In in Hn. destruct Hn as [Hn Hs].
        exists top, n. split; [|split; [exact Hs|reflexivity]].
        constructor. now apply filenames_In.
      * destruct c as [n|m sub|n]; try destruct Hp.
        rewrite Forall_forall in IH.
        apply (IH _ Hc) in Hp. destruct Hp as (root & n & L & Hs & E).
        exists root, n. split; [|split; assumption].
        now apply (located_below name children m sub).
    + intros (root & n & L & Hs & ->).
      inversion L as [? ? ? ? Hin|? ? m sub ? ? ? Hin L']; subst.
      * left. exists n. split; [reflexivity|].
        apply filter_In. split; [now apply filenames_In|exact Hs].
      * right. exists (Dir m sub). split; [exact Hin|].
        rewrite Forall_forall in IH. apply (IH _ Hin).
        exists root, n. split; [exact L'|split; [exact Hs|reflexivity]].
  - split; [intros []|]. intros (root & n & L & _). inversion L.
Qed.

(** A joined path ends like its last component. *)
Lemma endswith_app (suffix a b : str) :
  endswith suffix b = true -> endswith suffix (a ++ b) = true.
Proof.
  unfold endswith. intros H. rewrite rev_app_distr.
  apply startswith_prefix in H. destruct H as (r & ->).
  rewrite <- app_assoc. apply startswith_app.
Qed.

Lemma path_join_endswith (suffix root name : str) :
  endswith suffix name = true ->
  endswith suffix (path_join root name) = true.
Proof.
  intros H. unfold path_join.
  destruct (startswith (lit "/") name); [exact H|].
  destruct (match root with [] => true | _ :: _ => endswith (lit "/") root end).
  - now apply endswith_app.
  - apply endswith_app. now apply endswith_app.
Qed.

(** The base name of a joined path is its last component, when
    that holds no slash. *)
Lemma last_split_app (a name : str) :
  ~ In 47%N name ->
  last (split 47%N (a ++ 47%N :: name)) [] = name.
Proof.
  intros Hn. induction a as [|c a IH].
  - cbn [app split]. rewrite char_eqb_refl.
    rewrite (split_line 47%N name Hn). reflexivity.
  - cbn [app split]. destruct (char_eqb c 47%N).
    + cbn [last]. destruct (split 47%N (a ++ 47%N :: name)) eqn:E;
        [now apply split_not_nil in E|exact IH].
    + destruct (split 47%N (a ++ 47%N :: name)) as [|l ls] eqn:E;
        [now apply split_not_nil in E|].
      cbn [last] in IH |- *. destruct ls; [|exact IH].
      (* the last line would hold the slash of [a ++ / :: name] *)
      exfalso.
      pose proof (join_split 47%N (a ++ 47%N :: name)) as J.
      rewrite E in J. cbn [join] in J.
      pose proof (split_no_sep 47%N (a ++ 47%N :: name)) as F.
      rewrite E in F. inversion F as [|? ? Hl _]; subst.
      apply Hl. rewrite J. apply in_or_app. right. now left.
Qed.

Lemma basename_path_join (root name : str) :
  ~ In 47%N name ->
  ConvertToXcodeproj.basename (path_join root name) = name.
Proof.
  intros Hn. unfold ConvertToXcodeproj.basename, path_join.
  destruct (startswith (lit "/") name) eqn:S.
  { destruct name as [|c name]; [discriminate S|].
    cbn [startswith lit] in S. exfalso. apply Hn.
    apply andb_true_iff in S. destruct S as [S _].
    apply char_eqb_eq in S. left. now subst. }
  destruct root as [|r0 root].
  { cbn [app]. now rewrite (split_line 47%N name Hn). }
  destruct (endswith (lit "/") (r0 :: root)) eqn:E.
  - unfold endswith in E. apply startswith_prefix in E.
    destruct E as (x & E). apply (f_equal (@rev _)) in E.
    rewrite rev_involutive, rev_app_distr in E.
    cbn [rev app lit List.map list_ascii_of_string] in E.
    rewrite E, <- app_assoc.
    apply (last_split_app (rev x) name Hn).
  - apply (last_split_app (r0 :: root) name Hn).
Qed.

End FindSwiftFilesFacts.

(** X10: [find_swift_files] returns exactly the joined paths of the
    files whose name ends with [.swift], in the directory itself and in
    the directories below it that the walk enters (symbolic links to
    directories are not entered); every path it returns ends with
    [.swift]; a path that is not a directory gives no file. *)
Theorem find_swift_files_finds_the_swift_files
        (directory : str) (tree : FindSwiftFiles.entry) :
  (forall p,
      In p (FindSwiftFiles.find_swift_files directory tree)
      <-> exists root name,
            FindSwiftFiles.located tree directory root name
            /\ FindSwiftFiles.endswith (lit ".swift") name = true
            /\ p = FindSwiftFiles.path_join root name)
  /\ Forall (fun p => FindSwiftFiles.endswith (lit ".swift") p = true)
            (FindSwiftFiles.find_swift_files directory tree)
  /\ (forall name,
        FindSwiftFiles.find_swift_files directory (FindSwiftFiles.File name)
        = []).
Proof.
  split; [apply FindSwiftFilesFacts.find_swift_files_located|].
  split; [|reflexivity].
  apply Forall_forall. intros p Hp.
  apply FindSwiftFilesFacts.find_swift_files_located in Hp.
  destruct Hp as (root & name & _ & Hs & ->).
  now apply FindSwiftFilesFacts.path_join_endswith.
Qed.

Module ProjectNameFacts.

Import FindSwiftFiles.

Lemma filenames_plain (children : list entry) :
  forallb plain_names children = true ->
  Forall (fun name => ~ In 47%N name) (filenames children).
Proof.
  induction children as [|c children IH]; intros H; [constructor|].
  cbn [forallb] in H. apply andb_true_iff in H. destruct H as [Hc H].
  destruct c as [n|n ch|n]; cbn [filenames]; try (apply IH; exact H).
  constructor; [|apply IH; exact H].
  cbn [plain_names] in Hc. apply negb_true_iff in Hc.
  intros Hin. assert (existsb (char_eqb 47%N) n = true); [|congruence].
  apply existsb_exists. exists 47%N. split; [exact Hin|reflexivity].
Qed.

Lemma walk_plain (tree : entry) :
  forall top,
    plain_names tree = true ->
    Forall (fun triple =>
              Forall (fun name => ~ In 47%N name) (snd (snd triple)))
           (walk top tree).
Proof.
  induction tree as [name|name children IH|name]
    using FindSwiftFilesFacts.entry_induction;
    intros top H; cbn [walk]; try constructor.
  - cbn [snd]. apply filenames_plain. exact H.
  - cbn [plain_names] in H. rewrite forallb_forall in H.
    rewrite Forall_forall in IH.
    apply Forall_forall. intros t Ht.
    apply in_flat_map in Ht. destruct Ht as (c & Hc & Ht).
    destruct c as [n|m sub|n]; [destruct Ht| |destruct Ht].
    pose proof (IH _ Hc (path_join top m) (H _ Hc)) as F.
    rewrite Forall_forall in F. exact (F t Ht).
Qed.

Lemma basenames_of_triple (triple : str * (list str * list str)) :
  Forall (fun name => ~ In 47%N name) (snd (snd triple)) ->
  List.map ConvertToXcodeproj.basename (swift_files_of triple)
  = filter (endswith (lit ".swift")) (snd (snd triple)).
Proof.
  destruct triple as [root [dirs files]]. cbn [snd swift_files_of].
  induction 1 as [|name files Hn _ IH]; [reflexivity|].
  cbn [filter]. destruct (endswith (lit ".swift") name); [|exact IH].
  cbn [List.map]. rewrite IH.
  now rewrite FindSwiftFilesFacts.basename_path_join.
Qed.

End ProjectNameFacts.

(** X11: the name under which [create_project_structure] lists a file
    it has found is the name of the file alone.  For a tree whose file
    names hold no slash, the base names of the paths
    [find_swift_files] returns are the names of the Swift files in the
    order of the walk, without their directories: two files of the same
    name in different directories are listed under the same name. *)
Theorem found_files_are_listed_by_name
        (directory : str) (tree : FindSwiftFiles.entry) :
  FindSwiftFiles.plain_names tree = true ->
  List.map ConvertToXcodeproj.basename
           (FindSwiftFiles.find_swift_files directory tree)
  = FindSwiftFiles.swift_names directory tree.
Proof.
  intros H. unfold FindSwiftFiles.find_swift_files,
                   FindSwiftFiles.swift_names.
  pose proof (ProjectNameFacts.walk_plain tree directory H) as F.
  induction F as [|t ts Ht _ IH]; [reflexivity|].
  cbn [flat_map]. rewrite map_app, IH.
  now rewrite ProjectNameFacts.basenames_of_triple.
Qed.

Lemma found_files_are_listed_by_name_witness :
  List.map ConvertToXcodeproj.basename
           (FindSwiftFiles.find_swift_files
              (lit "/Users/callummatthews1/LiquidSky/Packages/Features/Sources")
              Cases.features_tree)
  = FindSwiftFiles.swift_names
      (lit "/Users/callummatthews1/LiquidSky/Packages/Features/Sources")
      Cases.features_tree.
Proof.
  apply (found_files_are_listed_by_name
           (lit "/Users/callummatthews1/LiquidSky/Packages/Features/Sources")
           Cases.features_tree).
  reflexivity.
Defined.

(** The paths and the names found in the sample tree. *)
Example find_swift_files_example :
  FindSwiftFiles.find_swift_files (lit "Sources") Cases.features_tree
  = [lit "Sources/AuthUI/View.swift"; lit "Sources/FeedUI/View.swift";
     lit "Sources/FeedUI/Rows/Row.swift"]
  /\ FindSwiftFiles.swift_names (lit "Sources") Cases.features_tree
     = [lit "View.swift"; lit "View.swift"; lit "Row.swift"]
  /\ FindSwiftFiles.path_join (lit "Sources/") (lit "a.swift")
     = lit "Sources/a.swift"
  /\ FindSwiftFiles.path_join (lit "Sources") (lit "/a.swift")
     = lit "/a.swift".
Proof. repeat split; vm_compute; reflexivity. Qed.
